(** * GoPro timestamp extractor: a shallow embedding of [extract_timestamps.py]

    The development follows the source file function by function:
    the name decoder ([parse_filename]), the directory scan
    ([list_mp4_files_in_dir]), the metadata collection ([get_file_metadata]),
    the session grouper ([group_files_by_session]) and the timeline
    reconstructor ([process_files_in_session]), first as functions on
    values and, for the reconstructor, a second time over an explicit store
    of Python objects. *)

From Stdlib Require Import ZArith QArith Qabs Ascii String DecimalString.
From Stdlib Require Import List Lia Lqa Permutation Sorted.
From stdpp Require Import base option list gmap strings.

Local Open Scope string_scope.
Local Open Scope list_scope.
Local Open Scope Z_scope.

(** ** Python exceptions and results *)

(** The exceptions the modelled code can raise.  [TypeError] is what
    [sorted] raises when it compares a [None] key; [OverflowError] is what
    [timedelta] and the addition of a [timedelta] to a [datetime] raise
    when the result is out of range; [ProbeError] stands for anything
    raised inside [get_creation_time_and_duration] (the external tool
    failing, a missing tag, an unparsable time or duration);
    [BadReference] is not a Python behaviour: it marks a store that does not
    hold an object of the expected shape at a reference. *)
Inductive exn : Set := TypeError | OverflowError | ProbeError | BadReference.

Inductive result (A : Type) : Type :=
| Ok (a : A)
| Raise (e : exn).
Arguments Ok {A} a.
Arguments Raise {A} e.

#[global] Instance result_ret : MRet result := fun A a => Ok a.
#[global] Instance result_bind : MBind result := fun A B k r =>
  match r with
  | Ok a => k a
  | Raise e => Raise e
  end.
#[global] Instance result_fmap : FMap result := fun A B f r =>
  match r with
  | Ok a => Ok (f a)
  | Raise e => Raise e
  end.

(** ** Strings

    A string is a sequence of 8-bit characters, standing for the Python
    strings whose code points lie below 256.  Among those code points the
    decimal digits, which are what the class [\d] of a regular expression
    matches and what [int] converts, are exactly ['0'..'9'].  Names with
    code points from 256 on are outside the model. *)
Module Str.

Definition is_digit (c : ascii) : bool :=
  let n := nat_of_ascii c in ((48 <=? n) && (n <=? 57))%nat.

Definition digit_value (c : ascii) : Z := Z.of_nat (nat_of_ascii c) - 48.

(** [int(s)] on a string of decimal digits, most significant first. *)
Fixpoint int_acc (acc : Z) (s : string) : Z :=
  match s with
  | EmptyString => acc
  | String c s' => int_acc (10 * acc + digit_value c) s'
  end.

Definition int (s : string) : Z := int_acc 0 s.

Fixpoint all_digits (s : string) : bool :=
  match s with
  | EmptyString => true
  | String c s' => is_digit c && all_digits s'
  end.

(** [s.endswith(suffix)] *)
Definition endswith (s suffix : string) : bool :=
  let n := String.length s in
  let m := String.length suffix in
  (m <=? n)%nat && String.eqb (substring (n - m) m s) suffix.

End Str.

(** ** Name decoder *)

(** The regular expression [GX(\d{2})(\d{4})\.MP4] is a sequence of twelve
    single-character items, each a literal or the class [\d]. *)
Inductive atom : Set :=
| Lit (c : ascii)
| Digit.

Definition atom_matches (a : atom) (c : ascii) : bool :=
  match a with
  | Lit c' => Ascii.eqb c c'
  | Digit => Str.is_digit c
  end.

Definition pattern : list atom :=
  [Lit "G"; Lit "X"; Digit; Digit; Digit; Digit; Digit; Digit;
   Lit "."; Lit "M"; Lit "P"; Lit "4"].

(** The text matched by [pat] at the head of [s], if it matches there. *)
Fixpoint match_prefix (pat : list atom) (s : string) : option string :=
  match pat, s with
  | [], _ => Some EmptyString
  | a :: pat', String c s' =>
      if atom_matches a c then String c <$> match_prefix pat' s' else None
  | _ :: _, EmptyString => None
  end.

(** One attempt of the pattern at the head of [s]: [group(1)] and
    [group(2)] of the match. *)
Definition match_here (s : string) : option (string * string) :=
  m ← match_prefix pattern s;
  Some (substring 2 2 m, substring 4 4 m).

(** [re.search]: the leftmost position at which the pattern matches. *)
Fixpoint re_search (s : string) : option (string * string) :=
  match match_here s with
  | Some m => Some m
  | None =>
      match s with
      | EmptyString => None
      | String _ s' => re_search s'
      end
  end.

Definition parse_filename (filename : string) : option Z * option Z :=
  match re_search filename with
  | Some (g1, g2) => (Some (Str.int g1), Some (Str.int g2))
  | None => (None, None)
  end.

(** ** Dates and times

    The part of Python's [datetime] module the program uses.  A naive
    [datetime] is a point on a microsecond timeline, counted from
    0001-01-01T00:00:00; a [timedelta] is a signed number of microseconds.
    Both are immutable values in Python, so [t += delta] rebinds the
    variable and never changes an object.  The calendar functions follow
    [_ymd2ord] and [_ord2ymd] of the library.  The datetimes are the points
    of the years 1 to 9999 and the timedeltas those of fewer than a
    thousand million days: [timedelta] and [+] raise [OverflowError]
    beyond.  A float is the rational number it denotes, with the
    arithmetic of IEEE 754 double precision. *)
Module PyDatetime.

Definition datetime := Z.
Definition timedelta := Z.

Definition us_per_second : Z := 1000000.
Definition us_per_day : Z := 86400 * us_per_second.

(** The largest day number, that of 9999-12-31, and the largest number of
    days of a [timedelta]. *)
Definition MAXORDINAL : Z := 3652059.
Definition MAX_DELTA_DAYS : Z := 999999999.

Definition is_leap (year : Z) : bool :=
  (year mod 4 =? 0) && (negb (year mod 100 =? 0) || (year mod 400 =? 0)).

Definition days_before_year (year : Z) : Z :=
  let y := year - 1 in y * 365 + y / 4 - y / 100 + y / 400.

Definition days_in_month_tbl : list Z :=
  [31; 28; 31; 30; 31; 30; 31; 31; 30; 31; 30; 31].

Definition days_in_month_common (month : Z) : Z :=
  nth (Z.to_nat (month - 1)) days_in_month_tbl 0.

Definition days_before_month_common (month : Z) : Z :=
  fold_right Z.add 0 (firstn (Z.to_nat (month - 1)) days_in_month_tbl).

Definition days_before_month (year month : Z) : Z :=
  days_before_month_common month
  + (if (2 <? month) && is_leap year then 1 else 0).

Definition ymd2ord (year month day : Z) : Z :=
  days_before_year year + days_before_month year month + day.

Definition DI400Y : Z := 146097.
Definition DI100Y : Z := 36524.
Definition DI4Y : Z := 1461.

Definition ord2ymd (ordinal : Z) : Z * Z * Z :=
  let n := ordinal - 1 in
  let n400 := n / DI400Y in
  let n := n mod DI400Y in
  let year := n400 * 400 + 1 in
  let n100 := n / DI100Y in
  let n := n mod DI100Y in
  let n4 := n / DI4Y in
  let n := n mod DI4Y in
  let n1 := n / 365 in
  let n := n mod 365 in
  let year := year + n100 * 100 + n4 * 4 + n1 in
  if (n1 =? 4) || (n100 =? 4) then (year - 1, 12, 31)
  else
    let leapyear := (n1 =? 3) && (negb (n4 =? 24) || (n100 =? 3)) in
    let month := Z.shiftr (n + 50) 5 in
    let preceding :=
      days_before_month_common month
      + (if (2 <? month) && leapyear then 1 else 0) in
    if n <? preceding then
      let month := month - 1 in
      let preceding :=
        preceding
        - (days_in_month_common month
           + (if (month =? 2) && leapyear then 1 else 0)) in
      (year, month, n - preceding + 1)
    else (year, month, n - preceding + 1).

(** [datetime(year, month, day, hour, minute, second, microsecond)] *)
Definition mk_datetime (year month day hour minute second microsecond : Z)
  : datetime :=
  (((ymd2ord year month day - 1) * 24 + hour) * 60 + minute) * 60 * us_per_second
  + second * us_per_second + microsecond.

Definition round_half_even (q : Q) : Z :=
  let d := Z.pos (Qden q) in
  let f := Qnum q / d in
  let r := Qnum q mod d in
  match 2 * r ?= d with
  | Lt => f
  | Gt => f + 1
  | Eq => if Z.even f then f else f + 1
  end.

(** [2 ** k], for negative [k] too *)
Definition pow2 (k : Z) : Q :=
  if 0 <=? k then inject_Z (2 ^ k) else 1 # Z.to_pos (2 ^ (- k)).

(** The position of the leading bit of a number other than zero: the [e]
    with [2 ** e <= abs(q) < 2 ** (e + 1)]. *)
Definition leading_bit (q : Q) : Z :=
  let k := Z.log2 (Z.abs (Qnum q)) - Z.log2 (Z.pos (Qden q)) in
  if Qle_bool (pow2 k) (Qabs q) then k else k - 1.

(** The double nearest to [q], ties to the even significand: a multiple of
    the unit in the last of the 53 places, or of the smallest positive
    double.  (For [q] below the largest double.) *)
Definition round_double (q : Q) : Q :=
  if Qeq_bool q 0 then 0%Q
  else
    let ulp := pow2 (Z.max (leading_bit q - 52) (-1074)) in
    (inject_Z (round_half_even (q / ulp)) * ulp)%Q.

(** [math.modf]: the integral part, rounded towards zero. *)
Definition trunc (q : Q) : Z := Z.quot (Qnum q) (Z.pos (Qden q)).

(** The number of microseconds the constructor [timedelta(seconds=s)]
    makes of a float [s].  The integral part of [s] is converted exactly;
    the fractional part is multiplied by a million in floating point, and
    the product is rounded to the nearest integer, ties to even. *)
Definition microseconds (seconds : Q) : Z :=
  let intpart := trunc seconds in
  let fracpart := (seconds - inject_Z intpart)%Q in
  let usdouble := round_double (fracpart * inject_Z us_per_second) in
  intpart * us_per_second + round_half_even usdouble.

(** [timedelta(seconds=s)] *)
Definition timedelta_seconds (seconds : Q) : result timedelta :=
  let delta := microseconds seconds in
  if Z.abs (delta / us_per_day) <=? MAX_DELTA_DAYS then Ok delta
  else Raise OverflowError.

(** [t + delta] *)
Definition add (t : datetime) (delta : timedelta) : result datetime :=
  let ordinal := (t + delta) / us_per_day + 1 in
  if (1 <=? ordinal) && (ordinal <=? MAXORDINAL) then Ok (t + delta)
  else Raise OverflowError.

Definition digit_char (n : Z) : ascii := ascii_of_nat (48 + Z.to_nat n).

(** ["%02d" % n] for [0 <= n < 100] *)
Definition pad2 (n : Z) : string :=
  String (digit_char (n / 10)) (String (digit_char (n mod 10)) EmptyString).

(** ["%04d" % n] for [0 <= n < 10000] *)
Definition pad4 (n : Z) : string :=
  String (digit_char (n / 1000)) (String (digit_char (n / 100 mod 10))
    (pad2 (n mod 100))).

(** ["%06d" % n] for [0 <= n < 1000000] *)
Definition pad6 (n : Z) : string :=
  pad2 (n / 10000) +:+ pad4 (n mod 10000).

(** ["%d" % n] *)
Definition str_int (n : Z) : string :=
  DecimalString.NilZero.string_of_int (Z.to_int n).

Definition whole_seconds (t : datetime) : Z := t / us_per_second.

(** [t.strftime("%Y-%m-%d %H:%M:%S")], for years of four digits *)
Definition strftime_Ymd_HMS (t : datetime) : string :=
  let s := whole_seconds t in
  let '(year, month, day) := ord2ymd (s / 86400 + 1) in
  let sod := s mod 86400 in
  pad4 year +:+ "-" +:+ pad2 month +:+ "-" +:+ pad2 day +:+ " "
  +:+ pad2 (sod / 3600) +:+ ":" +:+ pad2 (sod mod 3600 / 60) +:+ ":"
  +:+ pad2 (sod mod 60).

(** [str(delta)] *)
Definition str_timedelta (delta : timedelta) : string :=
  let days := delta / (86400 * us_per_second) in
  let rest := delta mod (86400 * us_per_second) in
  let seconds := rest / us_per_second in
  let microseconds := rest mod us_per_second in
  let mm := seconds / 60 in
  let ss := seconds mod 60 in
  let hh := mm / 60 in
  let mm := mm mod 60 in
  let s := str_int hh +:+ ":" +:+ pad2 mm +:+ ":" +:+ pad2 ss in
  let s :=
    if days =? 0 then s
    else str_int days +:+ " day"
         +:+ (if Z.abs days =? 1 then EmptyString else "s")
         +:+ ", " +:+ s in
  if microseconds =? 0 then s else s +:+ "." +:+ pad6 microseconds.

End PyDatetime.
Import PyDatetime.

(** ** Data model *)

(** The dictionary built by [get_file_metadata] for one file.  [duration]
    is the probe's floating-point number of seconds, held as the rational
    it denotes (NaN and the infinities, which the probe's [float] could
    only give for the texts [nan] and [inf], are outside the model);
    [chapter] and [session] are [None] when the name decoder rejected the
    file name. *)
Record file_meta : Type := {
  file : string;
  creation_time : datetime;
  duration : Q;
  chapter : option Z;
  session : option Z;
  folder : string
}.

(** The dictionary appended to [results] by [process_files_in_session]. *)
Record timeline_entry : Type := {
  Filename : string;
  Start_Time : datetime;
  Stop_Time : datetime;
  Duration : string;
  Chapter : option Z;
  Session : option Z;
  Folder : string
}.

(** ** [sorted] with a key *)

(** Python's sort is stable and ascending; [insert_keyed] puts a new item
    in front of the items with an equal key, which is where an item that
    came earlier in the input belongs. *)
Fixpoint insert_keyed {A : Type} (k : Z) (x : A) (l : list (Z * A))
  : list (Z * A) :=
  match l with
  | [] => [(k, x)]
  | (k', y) :: l' =>
      if k <=? k' then (k, x) :: (k', y) :: l'
      else (k', y) :: insert_keyed k x l'
  end.

Fixpoint sort_keyed {A : Type} (l : list (Z * A)) : list (Z * A) :=
  match l with
  | [] => []
  | (k, x) :: l' => insert_keyed k x (sort_keyed l')
  end.

(** [sorted(items, key=...)], given the keys of the items.  With fewer than
    two items nothing is compared; otherwise every item takes part in a
    comparison, and comparing [None] raises [TypeError]. *)
Definition py_sorted {A : Type} (keys : list (option Z)) (items : list A)
  : result (list A) :=
  match items with
  | [] | [_] => Ok items
  | _ =>
      match mapM id keys with
      | Some ks => Ok (sort_keyed (zip ks items)).*2
      | None => Raise TypeError
      end
  end.

(** ** Timeline reconstructor *)

(** One round of the [for] loop of [process_files_in_session], given the
    loop variables [start_time] and [prev_duration]: the dictionary it
    appends, whose [Start Time] is the new value of [start_time].  Each of
    the constructions and additions can raise. *)
Definition loop_body (fm : file_meta) (start_time : option datetime)
    (prev_duration : Q) : result timeline_entry :=
  start_time ←
    match start_time with
    | None => Ok (creation_time fm)
    | Some t => delta ← timedelta_seconds prev_duration; add t delta
    end;
  delta ← timedelta_seconds (duration fm);
  stop_time ← add start_time delta;
  delta ← timedelta_seconds (duration fm);
  mret {| Filename := file fm;
          Start_Time := start_time;
          Stop_Time := stop_time;
          Duration := str_timedelta delta;
          Chapter := chapter fm;
          Session := session fm;
          Folder := folder fm |}.

(** The [for] loop; an exception ends it and leaves no result. *)
Fixpoint timeline_loop (sorted_files : list file_meta)
    (start_time : option datetime) (prev_duration : Q)
  : result (list timeline_entry) :=
  match sorted_files with
  | [] => Ok []
  | fm :: rest =>
      entry ← loop_body fm start_time prev_duration;
      results ← timeline_loop rest (Some (Start_Time entry)) (duration fm);
      mret (entry :: results)
  end.

Definition process_files_in_session (files : list file_meta)
  : result (list timeline_entry) :=
  sorted_files ← py_sorted (chapter <$> files) files;
  timeline_loop sorted_files None 0%Q.

(** ** Session grouper *)

(** [grouped_files] is a Python dictionary, which keeps its keys in the
    order of first insertion: an association list with distinct keys. *)
Fixpoint dict_append (key : string) (fm : file_meta)
    (grouped_files : list (string * list file_meta))
  : list (string * list file_meta) :=
  match grouped_files with
  | [] => [(key, [fm])]
  | (k, members) :: rest =>
      if String.eqb k key then (k, members ++ [fm]) :: rest
      else (k, members) :: dict_append key fm rest
  end.

Definition session_key (fm : file_meta) : string :=
  strftime_Ymd_HMS (creation_time fm).

Definition group_files_by_session (files_metadata : list file_meta)
  : list (string * list file_meta) :=
  fold_left (fun grouped_files fm =>
               dict_append (session_key fm) fm grouped_files)
            files_metadata [].

(** ** Paths and the directory scan *)

Module PosixPath.

(** [b.startswith('/')] *)
Definition is_absolute (b : string) : bool :=
  match b with
  | String c _ => Ascii.eqb c "/"
  | EmptyString => false
  end.

(** [os.path.join(a, b)] *)
Definition join (a b : string) : string :=
  if is_absolute b then b
  else if String.eqb a EmptyString || Str.endswith a "/" then a +:+ b
  else a +:+ "/" +:+ b.

Fixpoint has_sep (p : string) : bool :=
  match p with
  | EmptyString => false
  | String c p' => Ascii.eqb c "/" || has_sep p'
  end.

(** The part of [p] after its last ['/']: [os.path.basename(p)]. *)
Fixpoint basename (p : string) : string :=
  match p with
  | EmptyString => EmptyString
  | String c p' =>
      if has_sep p' then basename p'
      else if Ascii.eqb c "/" then p'
      else p
  end.

(** [s.rstrip('/')] *)
Fixpoint rstrip_sep (s : string) : string :=
  match s with
  | EmptyString => EmptyString
  | String c s' =>
      match rstrip_sep s' with
      | EmptyString =>
          if Ascii.eqb c "/" then EmptyString else String c EmptyString
      | r => String c r
      end
  end.

(** [os.path.dirname(p)]: what precedes the base name, without its
    trailing separators unless it consists of separators only. *)
Definition dirname (p : string) : string :=
  let head := substring 0 (String.length p - String.length (basename p)) p in
  match rstrip_sep head with
  | EmptyString => head
  | r => r
  end.

End PosixPath.

(** A directory tree as [os.listdir] and [os.walk] see it: the entries of
    a directory that exists and can be listed, in listing order.  An entry
    is a regular file (or a link to one), a directory with its own
    entries, or something else: a link that leads nowhere, a FIFO, a
    socket, a device.  A directory that [os.walk] does not enter (a link to
    a directory, a directory that cannot be listed) is a directory without
    entries. *)
#[warnings="-register-all"]
Inductive fs_node : Type :=
| File (name : string)
| Dir (name : string) (entries : list fs_node)
| Other (name : string).

Definition node_name (n : fs_node) : string :=
  match n with
  | File name => name
  | Dir name _ => name
  | Other name => name
  end.

(** [os.path.isfile] *)
Definition is_file (n : fs_node) : bool :=
  match n with
  | File _ => true
  | Dir _ _ => false
  | Other _ => false
  end.

(** [entry.is_dir()], by which [os.walk] tells [dirs] from [files] *)
Definition is_dir (n : fs_node) : bool :=
  match n with
  | File _ => false
  | Dir _ _ => true
  | Other _ => false
  end.

(** The [files] component of a triple produced by [os.walk]: whatever is
    not a directory. *)
Definition files_of (entries : list fs_node) : list string :=
  node_name <$> filter (fun n => is_dir n = false) entries.

(** [os.walk(top)], top-down, without the unused [dirs] component. *)
Fixpoint walk_node (parent : string) (n : fs_node) : list (string * list string) :=
  match n with
  | File _ => []
  | Other _ => []
  | Dir name entries =>
      let root := PosixPath.join parent name in
      (root, files_of entries) :: flat_map (walk_node root) entries
  end.

Definition walk (top : string) (entries : list fs_node)
  : list (string * list string) :=
  (top, files_of entries) :: flat_map (walk_node top) entries.

Definition is_some {A : Type} (o : option A) : bool :=
  match o with
  | Some _ => true
  | None => false
  end.

Definition list_mp4_files_in_dir (directory : string) (entries : list fs_node)
    (recursive : bool) : list string :=
  if recursive then
    flat_map (fun '(root, files) =>
      flat_map (fun file =>
        if Str.endswith file ".MP4" then
          let '(chapter, session) := parse_filename file in
          if is_some chapter && is_some session
          then [PosixPath.join root file]
          else []
        else []) files)
      (walk directory entries)
  else
    flat_map (fun n =>
      if is_file n && Str.endswith (node_name n) ".MP4"
      then [PosixPath.join directory (node_name n)]
      else []) entries.

(** ** Metadata collection and orchestration *)

Section Pipeline.

(** The metadata probe ([ffmpeg.probe] followed by the parsing of its
    [creation_time] and [duration] fields) and [os.path.relpath] are
    external to the program. *)
Variable get_creation_time_and_duration : string -> result (datetime * Q).
Variable relpath : string -> string -> string.

(** The [for] loop of [get_file_metadata].  The first component is the
    list of paths handed to the probe, in call order; the second is the
    value of [files_metadata], or the exception that ended the loop. *)
Fixpoint metadata_loop (directory : string) (paths : list string)
  : list string * result (list file_meta) :=
  match paths with
  | [] => ([], Ok [])
  | file_path :: rest =>
      match get_creation_time_and_duration file_path with
      | Raise e => ([file_path], Raise e)
      | Ok (creation_time, duration_sec) =>
          let filename := PosixPath.basename file_path in
          let folder_path := relpath (PosixPath.dirname file_path) directory in
          let '(chapter, session) := parse_filename filename in
          let fm := {| file := filename;
                       creation_time := creation_time;
                       duration := duration_sec;
                       chapter := chapter;
                       session := session;
                       folder := folder_path |} in
          let '(probed, files_metadata) := metadata_loop directory rest in
          (file_path :: probed, cons fm <$> files_metadata)
      end
  end.

Definition get_file_metadata (directory : string) (entries : list fs_node)
    (recursive : bool) : list string * result (list file_meta) :=
  metadata_loop directory (list_mp4_files_in_dir directory entries recursive).

(** The loop of [process_videos] over [grouped_files.values()]. *)
Fixpoint process_sessions (sessions : list (list file_meta))
  : result (list timeline_entry) :=
  match sessions with
  | [] => Ok []
  | session_files :: rest =>
      session_results ← process_files_in_session session_files;
      final_results ← process_sessions rest;
      mret (session_results ++ final_results)
  end.

(** [process_videos], up to the rows handed to the data frame. *)
Definition process_videos (directory : string) (entries : list fs_node)
    (recursive : bool) : result (list timeline_entry) :=
  files_metadata ← (get_file_metadata directory entries recursive).2;
  let grouped_files := group_files_by_session files_metadata in
  process_sessions (grouped_files.*2).

End Pipeline.

(** ** The reconstructor over a store of Python objects

    Lists and dictionaries are mutable objects reached through references.
    The store maps a reference to the object it denotes; a list object
    holds references to its items. *)
Module Store.

Definition loc := positive.

Inductive pyobj : Type :=
| PyList (items : list loc)
| PyMeta (fm : file_meta)
| PyEntry (e : timeline_entry).

Abbreviation store := (gmap loc pyobj).

(** A computation reads and writes the store, and returns a value or
    raises; the store survives an exception. *)
Definition ST (A : Type) : Type := store -> result A * store.

#[global] Instance ST_ret : MRet ST := fun A a σ => (Ok a, σ).
#[global] Instance ST_bind : MBind ST := fun A B k m σ =>
  match m σ with
  | (Ok a, σ') => k a σ'
  | (Raise e, σ') => (Raise e, σ')
  end.

Definition lift {A : Type} (r : result A) : ST A := fun σ => (r, σ).

(** A new object gets a reference not in use. *)
Definition alloc (o : pyobj) : ST loc := fun σ =>
  let l := fresh (dom σ) in (Ok l, <[l:=o]> σ).

Definition read_list (l : loc) : ST (list loc) := fun σ =>
  match σ !! l with
  | Some (PyList items) => (Ok items, σ)
  | _ => (Raise BadReference, σ)
  end.

Definition read_meta (l : loc) : ST file_meta := fun σ =>
  match σ !! l with
  | Some (PyMeta fm) => (Ok fm, σ)
  | _ => (Raise BadReference, σ)
  end.

(** [lst.append(x)]: the list object is changed in place. *)
Definition list_append (lst x : loc) : ST unit := fun σ =>
  match σ !! lst with
  | Some (PyList items) => (Ok tt, <[lst:=PyList (items ++ [x])]> σ)
  | _ => (Raise BadReference, σ)
  end.

Fixpoint read_metas (items : list loc) : ST (list file_meta) :=
  match items with
  | [] => mret []
  | l :: rest =>
      fm ← read_meta l;
      fms ← read_metas rest;
      mret (fm :: fms)
  end.

(** The [for] loop, over the items of [sorted_files]; each round builds a
    new dictionary and appends a reference to it to [results].  When a
    round raises, the dictionaries of the rounds before it stay where they
    are. *)
Fixpoint timeline_loop_st (sorted_files : list loc) (results : loc)
    (start_time : option datetime) (prev_duration : Q) : ST unit :=
  match sorted_files with
  | [] => mret tt
  | file_meta :: rest =>
      fm ← read_meta file_meta;
      e ← lift (loop_body fm start_time prev_duration);
      entry ← alloc (PyEntry e);
      _ ← list_append results entry;
      timeline_loop_st rest results (Some (Start_Time e)) (duration fm)
  end.

(** [process_files_in_session] on a reference to the list [files]; the
    result is a reference to the list [results]. *)
Definition process_files_in_session_st (files : loc) : ST loc :=
  items ← read_list files;
  metas ← read_metas items;
  sorted_items ← lift (py_sorted (chapter <$> metas) items);
  sorted_files ← alloc (PyList sorted_items);
  results ← alloc (PyList []);
  _ ← timeline_loop_st sorted_items results None 0%Q;
  mret results.

(** What a list of references denotes in a store. *)
Definition holds_metas (σ : store) (items : list loc) (fms : list file_meta)
  : Prop :=
  Forall2 (fun l fm => σ !! l = Some (PyMeta fm)) items fms.

Definition holds_entries (σ : store) (items : list loc)
    (es : list timeline_entry) : Prop :=
  Forall2 (fun l e => σ !! l = Some (PyEntry e)) items es.

(** [files] refers to a list of dictionaries with the values [fms]. *)
Definition session_at (σ : store) (files : loc) (fms : list file_meta) : Prop :=
  exists items, σ !! files = Some (PyList items) /\ holds_metas σ items fms.

(** [results] refers to a list of dictionaries with the values [es]. *)
Definition results_at (σ : store) (results : loc) (es : list timeline_entry)
  : Prop :=
  exists items, σ !! results = Some (PyList items) /\ holds_entries σ items es.

End Store.

(** ** Vocabulary of the properties *)

Import Store.

Ltac zdiv := Z.div_mod_to_equations; lia.

(** Order of decorated items by key. *)
Definition key_le {A : Type} (a b : Z * A) : Prop := a.1 <= b.1.

(** Decorated items with equal keys and related values. *)
Definition keyed_rel {A B : Type} (R : A -> B -> Prop)
    (p : Z * A) (q : Z * B) : Prop :=
  p.1 = q.1 /\ R p.2 q.2.

(** The grouping loop started from a dictionary [d]. *)
Definition group_from (d : list (string * list file_meta))
    (l : list file_meta) : list (string * list file_meta) :=
  fold_left (fun grouped_files fm =>
               dict_append (session_key fm) fm grouped_files) l d.

(** Ascending order of records by chapter index. *)
Definition chapter_le (a b : file_meta) : Prop :=
  match chapter a, chapter b with
  | Some x, Some y => x <= y
  | _, _ => False
  end.

(** The first instant after the last [datetime], 10000-01-01T00:00:00. *)
Definition datetime_end : Z := MAXORDINAL * us_per_day.

(** What the floating-point multiplication of a fraction by a million can
    be off by: half a unit in the last place of a double below [2 ** 20]. *)
Definition float_slack : Q := 1 # 17179869184.

(** How an entry relates to the record it was made from, in terms of the
    values alone: four fields are copied, the entry lasts as long as the
    record says, to the nearest microsecond, and [Duration] is the text of
    the time from start to stop. *)
Definition entry_of (fm : file_meta) (e : timeline_entry) : Prop :=
  Filename e = file fm
  /\ Chapter e = chapter fm
  /\ Session e = session fm
  /\ Folder e = folder fm
  /\ Duration e = str_timedelta (Stop_Time e - Start_Time e)
  /\ (Qabs (inject_Z (Stop_Time e - Start_Time e)
            - duration fm * inject_Z us_per_second)
      <= (1 # 2) + float_slack)%Q.

(** The same relation with the length of the entry as the constructor of
    [timedelta] computes it. *)
Definition made_from (fm : file_meta) (e : timeline_entry) : Prop :=
  Filename e = file fm
  /\ Chapter e = chapter fm
  /\ Session e = session fm
  /\ Folder e = folder fm
  /\ Duration e = str_timedelta (microseconds (duration fm))
  /\ Stop_Time e = Start_Time e + microseconds (duration fm).

(** The entries of a list of records laid end to end from [start] on, on
    a timeline without bounds. *)
Fixpoint timeline (l : list file_meta) (start : datetime)
  : list timeline_entry :=
  match l with
  | [] => []
  | fm :: rest =>
      let stop := start + microseconds (duration fm) in
      {| Filename := file fm;
         Start_Time := start;
         Stop_Time := stop;
         Duration := str_timedelta (microseconds (duration fm));
         Chapter := chapter fm;
         Session := session fm;
         Folder := folder fm |}
      :: timeline rest stop
  end.

(** Where the first round of the loop starts. *)
Definition loop_start (start_time : option datetime) (prev_duration : Q)
    (fm : file_meta) : datetime :=
  match start_time with
  | None => creation_time fm
  | Some t => t + microseconds prev_duration
  end.

(** The values [timedelta] and [+] accept. *)
Definition delta_ok (delta : timedelta) : Prop :=
  Z.abs (delta / us_per_day) <= MAX_DELTA_DAYS.

Definition datetime_ok (t : datetime) : Prop := 0 <= t < datetime_end.

(** The entry is one the loop can build: its length is a [timedelta] and
    its stop time a [datetime]. *)
Definition entry_ok (e : timeline_entry) : Prop :=
  delta_ok (Stop_Time e - Start_Time e) /\ datetime_ok (Stop_Time e).

(** What the loop variables must be like for a round to get its start
    time. *)
Definition start_ok (start_time : option datetime) (prev_duration : Q)
  : Prop :=
  match start_time with
  | None => True
  | Some t =>
      delta_ok (microseconds prev_duration)
      /\ datetime_ok (t + microseconds prev_duration)
  end.

(** Where a sorted session starts: at the creation time of its first
    record. *)
Definition session_start (sorted_files : list file_meta) : datetime :=
  default 0 (creation_time <$> head sorted_files).

(** The sum of the durations of a list of records, in seconds. *)
Definition total_duration (l : list file_meta) : Q :=
  foldr (fun fm acc => (duration fm + acc)%Q) 0%Q l.

(** A session that stays within the range of [datetime]: no duration is
    negative, every creation time is a [datetime], and so is every
    creation time moved on by the total duration of the session and one
    microsecond of rounding for each of its records. *)
Definition fits (files : list file_meta) : Prop :=
  Forall (fun fm =>
    (0 <= duration fm)%Q
    /\ 0 <= creation_time fm
    /\ (inject_Z (creation_time fm)
         + total_duration files * inject_Z us_per_second
         + inject_Z (Z.of_nat (length files))
        < inject_Z datetime_end)%Q) files.

(** A group of exactly [n] decimal digits. *)
Definition digit_group (n : nat) (g : string) : Prop :=
  String.length g = n /\ Str.all_digits g = true.

(** The accepted names in the words of the specification: the letters
    [GX], exactly two digits, exactly four digits, the extension [.MP4],
    and nothing else. *)
Definition conforming_name (s g1 g2 : string) : Prop :=
  digit_group 2 g1 /\ digit_group 4 g2 /\ s = "GX" +:+ g1 +:+ g2 +:+ ".MP4".

(** The same twelve characters somewhere inside [s], after [pre] and
    before [post]. *)
Definition occurs_at (s pre g1 g2 post : string) : Prop :=
  digit_group 2 g1 /\ digit_group 4 g2
  /\ s = pre +:+ "GX" +:+ g1 +:+ g2 +:+ ".MP4" +:+ post.

(** [m] is, item by item, a text of the pattern [pat]. *)
Fixpoint matches (pat : list atom) (m : string) : bool :=
  match pat, m with
  | [], EmptyString => true
  | a :: pat', String c m' => atom_matches a c && matches pat' m'
  | _, _ => false
  end.

(** The value stored under a key of the dictionary. *)
Fixpoint dict_get (key : string) (d : list (string * list file_meta))
  : option (list file_meta) :=
  match d with
  | [] => None
  | (k, members) :: rest =>
      if String.eqb k key then Some members else dict_get key rest
  end.

(** The record's creation time renders to [key]. *)
Definition same_key (key : string) (fm : file_meta) : Prop :=
  session_key fm = key.

#[global] Instance same_key_dec key fm : Decision (same_key key fm).
Proof. unfold same_key. apply _. Defined.

(** The month and the day of the month of day [n] of a year, as the tail
    of [ord2ymd] computes them. *)
Definition month_day (leapyear : bool) (n : Z) : Z * Z :=
  let month := Z.shiftr (n + 50) 5 in
  let preceding :=
    days_before_month_common month
    + (if (2 <? month) && leapyear then 1 else 0) in
  if n <? preceding then
    let month := month - 1 in
    let preceding :=
      preceding
      - (days_in_month_common month
         + (if (month =? 2) && leapyear then 1 else 0)) in
    (month, n - preceding + 1)
  else (month, n - preceding + 1).

Definition month_day_ok (leapyear : bool) (n : Z) : bool :=
  let '(m, d) := month_day leapyear n in
  (1 <=? m) && (m <=? 12) && (1 <=? d) && (d <=? 31)
  && (days_before_month_common m
      + (if (2 <? m) && leapyear then 1 else 0) + d =? n + 1).

(** [f] holds on the [n] integers from [start] on. *)
Fixpoint check_from (f : Z -> bool) (start : Z) (n : nat) : bool :=
  match n with
  | O => true
  | S n' => f start && check_from f (start + 1) n'
  end.

(** The datetimes of the years 1000 to 9999, whose year has four digits;
    for earlier years the rendering of [%Y] depends on the platform. *)
Definition valid_datetime (t : datetime) : Prop :=
  mk_datetime 1000 1 1 0 0 0 0 <= t < mk_datetime 10000 1 1 0 0 0 0.

(** File names as a directory listing returns them hold no separator. *)
Fixpoint names_ok (n : fs_node) : bool :=
  match n with
  | File name => negb (PosixPath.has_sep name)
  | Dir name entries => negb (PosixPath.has_sep name) && forallb names_ok entries
  | Other name => negb (PosixPath.has_sep name)
  end.

(** [σ'] still has every object of [σ], unchanged. *)
Definition keeps (σ σ' : store) : Prop :=
  forall l o, σ !! l = Some o -> σ' !! l = Some o.

(** Sample data: chapter [n] (below 10) of recording 7, created at
    2024-01-01T00:00:00. *)
Definition sample_chapter (n : Z) (seconds : Q) : file_meta :=
  {| file := "GX0" +:+ str_int n +:+ "0007.MP4";
     creation_time := mk_datetime 2024 1 1 0 0 0 0;
     duration := seconds;
     chapter := Some n;
     session := Some 7;
     folder := "." |}.

(** The same record, created one second later. *)
Definition next_second (fm : file_meta) : file_meta :=
  {| file := file fm;
     creation_time := creation_time fm + us_per_second;
     duration := duration fm;
     chapter := chapter fm;
     session := session fm;
     folder := folder fm |}.

(** A session of two chapters, out of order. *)
Definition sample_session : list file_meta :=
  [sample_chapter 2 (7 # 2); sample_chapter 1 (10 # 1)].

(** A store with one list of two records. *)
Definition sample_store : store :=
  <[1%positive:=PyList [2%positive; 3%positive]]>
    (<[2%positive:=PyMeta (sample_chapter 2 (7 # 2))]>
       (<[3%positive:=PyMeta (sample_chapter 1 (10 # 1))]> ∅)).

(** ** Vocabulary of the further properties *)

(** The time taken by a list of chapters: the sum of their durations in
    microseconds, each as [timedelta] makes it. *)
Definition elapsed (l : list file_meta) : timedelta :=
  foldr (fun fm acc => microseconds (duration fm) + acc) 0 l.

(** The chapter of a record that has one. *)
Definition chapter_key (fm : file_meta) : Z := default 0 (chapter fm).

(** The record has the chapter [c]. *)
Definition has_chapter (c : option Z) (fm : file_meta) : Prop := chapter fm = c.

#[global] Instance has_chapter_dec c fm : Decision (has_chapter c fm).
Proof. unfold has_chapter. apply _. Defined.

(** The entry shows the chapter [c]. *)
Definition shows_chapter (c : option Z) (e : timeline_entry) : Prop :=
  Chapter e = c.

#[global] Instance shows_chapter_dec c e : Decision (shows_chapter c e).
Proof. unfold shows_chapter. apply _. Defined.

(** The keys of a list in the order of their first occurrence. *)
Fixpoint first_occurrences (keys : list string) : list string :=
  match keys with
  | [] => []
  | k :: rest => k :: filter (fun k' => k' <> k) (first_occurrences rest)
  end.

(** The entry [n] lies in the directory with path [root], which is [top]
    (with the entries [entries]) or a directory below it. *)
Inductive in_tree : string -> list fs_node -> string -> fs_node -> Prop :=
| in_tree_here (top : string) (entries : list fs_node) (n : fs_node) :
    n ∈ entries -> in_tree top entries top n
| in_tree_below (top : string) (entries : list fs_node) (dname : string)
    (sub : list fs_node) (root : string) (n : fs_node) :
    Dir dname sub ∈ entries ->
    in_tree (PosixPath.join top dname) sub root n ->
    in_tree top entries root n.

(** The decoder accepts the base name of the path. *)
Definition decodable_path (path : string) : Prop :=
  is_Some (parse_filename (PosixPath.basename path)).1.

#[global] Instance decodable_path_dec path : Decision (decodable_path path).
Proof. unfold decodable_path. apply _. Defined.

(** The scan of the sub-directories of a directory, one after the other. *)
Definition scan_below (directory : string) (entries : list fs_node)
  : list string :=
  flat_map (fun n =>
    match n with
    | Dir name sub =>
        list_mp4_files_in_dir (PosixPath.join directory name) sub true
    | _ => []
    end) entries.

(** The record [get_file_metadata] builds for a path the probe answered
    with the time [t] and the duration [d]. *)
Definition record_of (relpath : string -> string -> string)
    (directory path : string) (t : datetime) (d : Q) : file_meta :=
  {| file := PosixPath.basename path;
     creation_time := t;
     duration := d;
     chapter := (parse_filename (PosixPath.basename path)).1;
     session := (parse_filename (PosixPath.basename path)).2;
     folder := relpath (PosixPath.dirname path) directory |}.

(** ** The command line

    What [process_videos] and [main] do besides computing the entries:
    writing the output file and printing.  The renderings of pandas and
    [json] are external and taken as given; writing a file is taken to
    succeed.  The data frame is the list of its rows. *)

(** The files written so far, by path, and the texts printed so far. *)
Record world : Type := {
  written : gmap string string;
  stdout : list string
}.

(** The namespace returned by [parse_args]; [output] is [None] when the
    option is absent. *)
Record args : Type := {
  folder_arg : string;
  recursive_arg : bool;
  json_arg : bool;
  output_arg : option string
}.

(** [if out_file:], the truth value of an optional string: [None] and the
    empty string are false. *)
Definition truthy (o : option string) : option string :=
  match o with
  | Some EmptyString => None
  | Some path => Some path
  | None => None
  end.

(** Opening [path] for writing and writing [text]: the file then holds
    [text] and nothing else. *)
Definition write_file (path text : string) (w : world) : world :=
  {| written := <[path:=text]> (written w); stdout := stdout w |}.

(** [print(text)] *)
Definition print (text : string) (w : world) : world :=
  {| written := written w; stdout := stdout w ++ [text] |}.

Section CommandLine.

Variable get_creation_time_and_duration : string -> result (datetime * Q).
Variable relpath : string -> string -> string.

(** The values of [json.loads]. *)
Variable json_value : Type.
(** [df.to_csv(index=False)], the text written whether pandas is given
    the path or the opened file *)
Variable to_csv : list timeline_entry -> string.
(** [json.loads(df.to_json(orient="records", date_format="iso"))] *)
Variable to_json_records : list timeline_entry -> json_value.
(** [json.dumps(v, ensure_ascii=False, indent=4)], the text [json.dump]
    writes *)
Variable json_dumps : json_value -> string.
(** [df.to_string(index=False)] *)
Variable to_string : list timeline_entry -> string.

(** What [process_videos] returns: the parsed JSON records when
    [json_output] is set, the data frame otherwise. *)
Definition returned (json_output : bool) : Type :=
  if json_output then json_value else list timeline_entry.

(** [process_videos] with its effect: the data frame is written to
    [out_file] as CSV whenever [out_file] is true, whatever [json_output]
    says. *)
Definition process_videos_io (directory : string) (entries : list fs_node)
    (recursive json_output : bool) (out_file : option string) (w : world)
  : result (returned json_output) * world :=
  match process_videos get_creation_time_and_duration relpath
          directory entries recursive with
  | Raise e => (Raise e, w)
  | Ok final_results =>
      let df := final_results in
      let w :=
        match truthy out_file with
        | Some path => write_file path (to_csv df) w
        | None => w
        end in
      (Ok (match json_output return returned json_output with
           | true => to_json_records df
           | false => df
           end), w)
  end.

(** The text [main] writes to the output file. *)
Definition file_text (json : bool) : returned json -> string :=
  match json return returned json -> string with
  | true => json_dumps
  | false => to_csv
  end.

(** The text [main] prints. *)
Definition screen_text (json : bool) : returned json -> string :=
  match json return returned json -> string with
  | true => json_dumps
  | false => to_string
  end.

Definition main (a : args) (entries : list fs_node) (w : world)
  : result unit * world :=
  match process_videos_io (folder_arg a) entries (recursive_arg a)
          (json_arg a) (output_arg a) w with
  | (Raise e, w) => (Raise e, w)
  | (Ok results, w) =>
      match truthy (output_arg a) with
      | Some path => (Ok tt, write_file path (file_text (json_arg a) results) w)
      | None => (Ok tt, print (screen_text (json_arg a) results) w)
      end
  end.

End CommandLine.

Definition sample_args (json : bool) (output : option string) : args :=
  {| folder_arg := "videos"; recursive_arg := false;
     json_arg := json; output_arg := output |}.

Definition sample_probe (path : string) : result (datetime * Q) :=
  Ok (mk_datetime 2024 1 1 0 0 0 0, 10 # 1).

Definition empty_world : world := {| written := ∅; stdout := [] |}.

(** * Properties *)

(** ** Evaluation checks *)

Example parse_filename_ex1 : parse_filename "GX010042.MP4" = (Some 1, Some 42).
Proof. reflexivity. Qed.

Example parse_filename_ex2 : parse_filename "GX010042.mp4" = (None, None).
Proof. reflexivity. Qed.

Example parse_filename_ex3 : parse_filename "old_GX120007.MP4" = (Some 12, Some 7).
Proof. reflexivity. Qed.

Example strftime_ex :
  strftime_Ymd_HMS (mk_datetime 2024 2 29 23 59 58 123456) = "2024-02-29 23:59:58".
Proof. vm_compute. reflexivity. Qed.

Example str_timedelta_ex1 :
  str_timedelta <$> timedelta_seconds (10 # 1) = Ok "0:00:10".
Proof. vm_compute. reflexivity. Qed.

Example str_timedelta_ex2 :
  str_timedelta <$> timedelta_seconds (-5 # 1) = Ok "-1 day, 23:59:55".
Proof. vm_compute. reflexivity. Qed.

Example str_timedelta_ex3 :
  str_timedelta <$> timedelta_seconds (180003 # 2) = Ok "1 day, 1:00:01.500000".
Proof. vm_compute. reflexivity. Qed.

(** The float [2.5e-06]: its product with a million is rounded to the
    double [2.5], a tie, which goes to the even [2]. *)
Example microseconds_ex1 :
  microseconds (5902958103587057 # 2361183241434822606848) = 2.
Proof. vm_compute. reflexivity. Qed.

(** The float [14.5844445] *)
Example microseconds_ex2 :
  microseconds (4105156175975355 # 281474976710656) = 14584444.
Proof. vm_compute. reflexivity. Qed.

(** The float [-1.5e-06] *)
Example microseconds_ex3 :
  microseconds (-1770887431076117 # 1180591620717411303424) = -2.
Proof. vm_compute. reflexivity. Qed.

Example timedelta_seconds_ex :
  timedelta_seconds (1000000000000000 # 1) = Raise OverflowError.
Proof. vm_compute. reflexivity. Qed.

Example add_ex1 :
  add (mk_datetime 9999 12 31 23 59 59 0) 999999
  = Ok (mk_datetime 9999 12 31 23 59 59 999999).
Proof. vm_compute. reflexivity. Qed.

Example add_ex2 :
  add (mk_datetime 9999 12 31 23 59 59 0) 10000000 = Raise OverflowError.
Proof. vm_compute. reflexivity. Qed.

Example add_ex3 :
  add (mk_datetime 1 1 1 0 0 0 0) (-5000000) = Raise OverflowError.
Proof. vm_compute. reflexivity. Qed.

Example basename_ex : PosixPath.basename "/data/cam/GX010042.MP4" = "GX010042.MP4".
Proof. reflexivity. Qed.

Example dirname_ex : PosixPath.dirname "/data/cam//GX010042.MP4" = "/data/cam".
Proof. reflexivity. Qed.

(** ** Sorting by key *)

Section SortKeyed.
Context {A : Type}.
Implicit Types (k : Z) (x : A) (l : list (Z * A)).

Lemma insert_keyed_perm k x l : insert_keyed k x l ≡ₚ (k, x) :: l.
Proof.
  induction l as [|[k' y] l IH]; simpl; [done|].
  destruct (k <=? k'); [done|].
  rewrite IH. apply perm_swap.
Qed.

Lemma sort_keyed_perm l : sort_keyed l ≡ₚ l.
Proof.
  induction l as [|[k x] l IH]; simpl; [done|].
  by rewrite insert_keyed_perm, IH.
Qed.

Lemma insert_keyed_sorted k x l :
  StronglySorted key_le l -> StronglySorted key_le (insert_keyed k x l).
Proof.
  induction 1 as [|[k' y] l Hl IH Hall]; simpl.
  - repeat constructor.
  - destruct (Z.leb_spec k k') as [Hle|Hgt].
    + constructor; [by constructor|].
      constructor; [done|].
      eapply Forall_impl; [exact Hall|].
      intros [k'' z]; unfold key_le; simpl; lia.
    + constructor; [done|].
      rewrite insert_keyed_perm. constructor; [|done].
      unfold key_le; simpl; lia.
Qed.

Lemma sort_keyed_sorted l : StronglySorted key_le (sort_keyed l).
Proof.
  induction l as [|[k x] l IH]; simpl; [constructor|].
  by apply insert_keyed_sorted.
Qed.

(** Sorting a list that is in order already changes nothing. *)
Lemma sort_keyed_id l : StronglySorted key_le l -> sort_keyed l = l.
Proof.
  induction 1 as [|[k x] l Hl IH Hall]; simpl; [done|].
  rewrite IH. destruct l as [|[k' y] l]; simpl; [done|].
  apply Forall_cons in Hall as [Hk _]. unfold key_le in Hk; simpl in Hk.
  by destruct (Z.leb_spec k k'); [|lia].
Qed.

End SortKeyed.

Lemma mapM_id_Some (ks : list Z) : mapM id (Some <$> ks) = Some ks.
Proof.
  apply mapM_Some. induction ks; simpl; constructor; auto.
Qed.

(** With all keys present [sorted] succeeds: the outcome is the input
    rearranged, and its keys ascend. *)
Lemma py_sorted_Ok {A : Type} (ks : list Z) (items : list A) :
  length ks = length items ->
  exists dec,
    py_sorted (Some <$> ks) items = Ok (dec.*2)
    /\ dec ≡ₚ zip ks items
    /\ StronglySorted key_le dec.
Proof.
  intros Hlen. unfold py_sorted.
  destruct items as [|x [|y items]].
  - exists []. destruct ks; [|done]. repeat split; [done|constructor].
  - destruct ks as [|k [|? ?]]; try done.
    exists [(k, x)]. repeat split; [done|repeat constructor].
  - rewrite mapM_id_Some.
    exists (sort_keyed (zip ks (x :: y :: items))).
    split; [done|]. split; [apply sort_keyed_perm|apply sort_keyed_sorted].
Qed.

Lemma py_sorted_perm {A : Type} (keys : list (option Z)) (items sorted : list A) :
  length keys = length items ->
  py_sorted keys items = Ok sorted -> sorted ≡ₚ items.
Proof.
  intros Hlen. unfold py_sorted.
  destruct items as [|x [|y items]]; try by intros [= <-].
  destruct (mapM id keys) as [ks|] eqn:Hks; [|done].
  intros [= <-]. apply length_mapM in Hks.
  rewrite sort_keyed_perm. rewrite snd_zip; [done|]. lia.
Qed.

Lemma py_sorted_raises {A : Type} (keys : list (option Z)) (items : list A) :
  (py_sorted keys items = Raise TypeError <->
   (2 <= length items)%nat /\ None ∈ keys)
  /\ (forall e, py_sorted keys items = Raise e -> e = TypeError)
  /\ ((length items <= 1)%nat -> py_sorted keys items = Ok items).
Proof.
  unfold py_sorted. destruct items as [|x [|y items]]; cbn [length].
  - repeat split; try done. intros [? _]. lia.
  - repeat split; try done. intros [? _]. lia.
  - destruct (mapM id keys) as [ks|] eqn:Hks.
    + repeat split; try done; try lia.
      intros (_ & Hin). apply mapM_Some in Hks.
      apply list_elem_of_lookup in Hin as [i Hi].
      by destruct (Forall2_lookup_l _ _ _ _ _ Hks Hi) as (k & _ & Hk).
    + repeat split; try lia; try by intros ? [= <-].
      apply mapM_None, Exists_exists in Hks as (k & Hin & Hnone).
      simpl in Hnone. by subst k.
Qed.

(** ** Rounding and the arithmetic of floats *)

Lemma round_half_even_error (q : Q) :
  (Qabs (inject_Z (round_half_even q) - q) <= 1 # 2)%Q.
Proof.
  destruct q as [n d]. apply Qabs_Qle_condition.
  unfold round_half_even. cbn [Qnum Qden].
  pose proof (Z.div_mod n (Z.pos d) ltac:(lia)) as Hdm.
  pose proof (Z.mod_pos_bound n (Z.pos d) ltac:(lia)) as Hr.
  set (f := n / Z.pos d) in *. set (r := n mod Z.pos d) in *.
  destruct (Z.compare_spec (2 * r) (Z.pos d)) as [He|Hl|Hg];
    [destruct (Z.even f)|..];
    unfold Qle, Qminus, Qplus, Qopp, inject_Z; cbn [Qnum Qden]; nia.
Qed.

Lemma round_half_even_nonneg (q : Q) :
  (0 <= q)%Q -> 0 <= round_half_even q.
Proof.
  intros Hq. unfold round_half_even.
  assert (0 <= Qnum q) as Hp.
  { destruct q as [n d]. unfold Qle in Hq. simpl in *. lia. }
  assert (0 <= Qnum q / Z.pos (Qden q)) by (apply Z.div_pos; lia).
  destruct (2 * (Qnum q mod Z.pos (Qden q)) ?= Z.pos (Qden q)); try lia.
  destruct (Z.even _); lia.
Qed.

Lemma pow2_pos (k : Z) : (0 < pow2 k)%Q.
Proof.
  unfold pow2. destruct (Z.leb_spec 0 k).
  - unfold Qlt, inject_Z. simpl. pose proof (Z.pow_pos_nonneg 2 k). lia.
  - reflexivity.
Qed.

Lemma pow2_mono (j k : Z) : j <= k -> (pow2 j <= pow2 k)%Q.
Proof.
  intros Hjk. unfold pow2.
  destruct (Z.leb_spec 0 j), (Z.leb_spec 0 k); try lia.
  - unfold Qle, inject_Z. simpl.
    pose proof (Z.pow_le_mono_r 2 j k). lia.
  - unfold Qle, inject_Z. simpl.
    pose proof (Z.pow_pos_nonneg 2 k ltac:(lia) ltac:(lia)).
    pose proof (Z.pow_pos_nonneg 2 (- j) ltac:(lia) ltac:(lia)).
    rewrite Z2Pos.id by lia. nia.
  - unfold Qle. simpl.
    pose proof (Z.pow_pos_nonneg 2 (- k) ltac:(lia) ltac:(lia)).
    pose proof (Z.pow_pos_nonneg 2 (- j) ltac:(lia) ltac:(lia)).
    rewrite !Z2Pos.id by lia.
    pose proof (Z.pow_le_mono_r 2 (- k) (- j)). lia.
Qed.

Lemma leading_bit_below (q : Q) (e : Z) :
  0 <= e -> (Qabs q < pow2 e)%Q -> leading_bit q < e.
Proof.
  intros He Hq. unfold leading_bit.
  set (k := Z.log2 (Z.abs (Qnum q)) - Z.log2 (Z.pos (Qden q))).
  destruct (Qle_bool (pow2 k) (Qabs q)) eqn:Hk.
  - apply Qle_bool_iff in Hk.
    destruct (Z.lt_ge_cases k e) as [|Hge]; [done|].
    pose proof (pow2_mono e k Hge) as Hm. exfalso.
    apply (Qlt_irrefl (Qabs q)). eapply Qlt_le_trans; [exact Hq|].
    eapply Qle_trans; [exact Hm|exact Hk].
  - assert (k <= e); [|lia]. subst k.
    destruct q as [n d]. cbn [Qnum Qden] in *.
    assert (Z.abs n < 2 ^ e * Z.pos d) as Hn.
    { unfold pow2 in Hq. rewrite (proj2 (Z.leb_le 0 e) He) in Hq.
      unfold Qlt, Qabs, inject_Z in Hq. cbn [Qnum Qden] in Hq. lia. }
    destruct (Z.eq_dec n 0) as [->|Hn0].
    { change (Z.log2 (Z.abs 0)) with 0.
      pose proof (Z.log2_nonneg (Z.pos d)). lia. }
    assert (Z.log2 (Z.abs n) <= Z.log2 (Z.pos d * 2 ^ e)) as Hlog
      by (apply Z.log2_le_mono; lia).
    rewrite Z.log2_mul_pow2 in Hlog by lia. lia.
Qed.

Lemma round_double_error (q : Q) :
  (Qabs q < inject_Z (2 ^ 20))%Q ->
  (Qabs (round_double q - q) <= float_slack)%Q.
Proof.
  intros Hq. unfold round_double.
  destruct (Qeq_bool q 0) eqn:H0.
  - apply Qeq_bool_iff in H0. rewrite H0. by vm_compute.
  - set (s := Z.max (leading_bit q - 52) (-1074)).
    assert (s <= -33) as Hs.
    { pose proof (leading_bit_below q 20 ltac:(lia) Hq). lia. }
    pose proof (pow2_pos s) as Hpos.
    pose proof (pow2_mono s (-33) Hs) as Hle.
    change (pow2 (-33)) with (1 # 8589934592)%Q in Hle.
    set (ulp := pow2 s) in *.
    pose proof (round_half_even_error (q / ulp)) as Hr.
    set (m := inject_Z (round_half_even (q / ulp))) in *.
    assert (q == q / ulp * ulp)%Q as Hx by (field; lra).
    set (x := (q / ulp)%Q) in *.
    apply Qabs_Qle_condition in Hr. apply Qabs_Qle_condition.
    unfold float_slack. clearbody m x ulp. clear -Hr Hx Hpos Hle. nra.
Qed.

Lemma trunc_fraction (q : Q) :
  (Qabs (q - inject_Z (trunc q)) < 1)%Q
  /\ ((0 <= q)%Q -> 0 <= trunc q /\ (0 <= q - inject_Z (trunc q))%Q).
Proof.
  destruct q as [n d]. unfold trunc. cbn [Qnum Qden].
  pose proof (Z.quot_rem' n (Z.pos d)) as Hqr.
  assert (Z.abs (Z.rem n (Z.pos d)) < Z.pos d) as Hr.
  { pose proof (Z.rem_bound_abs n (Z.pos d) ltac:(lia)). lia. }
  set (t := Z.quot n (Z.pos d)) in *. set (r := Z.rem n (Z.pos d)) in *.
  split.
  - apply Qabs_Qlt_condition.
    unfold Qlt, Qminus, Qplus, Qopp, inject_Z. cbn [Qnum Qden]. nia.
  - intros Hq. unfold Qle in Hq. cbn [Qnum Qden] in Hq.
    assert (0 <= n) as Hn by lia.
    pose proof (Z.quot_pos n (Z.pos d) Hn ltac:(lia)).
    pose proof (Z.rem_nonneg n (Z.pos d) ltac:(lia) Hn).
    split; [done|].
    unfold Qle, Qminus, Qplus, Qopp, inject_Z. cbn [Qnum Qden].
    fold t r in H, H0. nia.
Qed.

(** The constructor of [timedelta] is off by at most half a microsecond
    and the error of its one floating-point multiplication. *)
Lemma microseconds_accuracy (seconds : Q) :
  (Qabs (inject_Z (microseconds seconds) - seconds * inject_Z us_per_second)
   <= (1 # 2) + float_slack)%Q.
Proof.
  unfold microseconds.
  destruct (trunc_fraction seconds) as [Hfrac _].
  set (i := trunc seconds) in *.
  set (f := (seconds - inject_Z i)%Q) in *.
  assert (Qabs (f * inject_Z us_per_second) < inject_Z (2 ^ 20))%Q as Hsmall.
  { apply Qabs_Qlt_condition in Hfrac. apply Qabs_Qlt_condition.
    change (inject_Z us_per_second) with (1000000 # 1)%Q.
    change (inject_Z (2 ^ 20)) with (1048576 # 1)%Q. lra. }
  pose proof (round_double_error _ Hsmall) as Hd.
  set (p := round_double (f * inject_Z us_per_second)) in *.
  pose proof (round_half_even_error p) as Hr.
  rewrite inject_Z_plus, inject_Z_mult.
  apply Qabs_Qle_condition in Hd, Hr. apply Qabs_Qle_condition.
  assert (seconds == inject_Z i + f)%Q as Hs by (unfold f; ring).
  change (inject_Z us_per_second) with (1000000 # 1)%Q in *.
  unfold float_slack in *.
  set (r := inject_Z (round_half_even p)) in *.
  set (ii := inject_Z i) in *.
  clearbody r p ii f. clear -Hd Hr Hs. lra.
Qed.

Lemma microseconds_nonneg (seconds : Q) :
  (0 <= seconds)%Q -> 0 <= microseconds seconds.
Proof.
  intros Hs. pose proof (microseconds_accuracy seconds) as Ha.
  apply Qabs_Qle_condition in Ha as [Ha _].
  assert (-1 < inject_Z (microseconds seconds))%Q as Hlt.
  { change (inject_Z us_per_second) with (1000000 # 1)%Q in Ha.
    unfold float_slack in Ha. lra. }
  unfold Qlt, inject_Z in Hlt. simpl in Hlt. lia.
Qed.

(** A duration that is a whole number of microseconds is converted
    exactly. *)
Lemma microseconds_exact (seconds : Q) (k : Z) :
  (seconds * inject_Z us_per_second == inject_Z k)%Q ->
  microseconds seconds = k.
Proof.
  intros Hk. pose proof (microseconds_accuracy seconds) as Ha.
  rewrite Hk in Ha. apply Qabs_Qle_condition in Ha as [Hl Hu].
  unfold float_slack in *.
  assert (-1 < inject_Z (microseconds seconds) - inject_Z k < 1)%Q as [H1 H2]
    by (split; lra).
  unfold Qlt, Qminus, Qplus, Qopp, inject_Z in H1, H2.
  cbn [Qnum Qden] in H1, H2. lia.
Qed.

(** ** The timeline loop *)

Lemma result_bind_Ok {A B : Type} (m : result A) (k : A -> result B) (b : B) :
  m ≫= k = Ok b <-> exists a, m = Ok a /\ k a = Ok b.
Proof.
  unfold mbind, result_bind. destruct m as [a|e].
  - split; [by exists a|]. by intros (? & [= <-] & ?).
  - split; [done|]. by intros (? & ? & ?).
Qed.

Lemma result_bind_Raise {A B : Type} (m : result A) (k : A -> result B)
    (e : exn) :
  m ≫= k = Raise e <-> m = Raise e \/ exists a, m = Ok a /\ k a = Raise e.
Proof.
  unfold mbind, result_bind. destruct m as [a|e'].
  - split; [intros H; right; by exists a|].
    by intros [?|(? & [= <-] & ?)].
  - split; [intros [= ->]; by left|]. by intros [[= ->]|(? & ? & ?)].
Qed.

Lemma timedelta_seconds_Ok (seconds : Q) (delta : timedelta) :
  timedelta_seconds seconds = Ok delta <->
  delta = microseconds seconds /\ delta_ok delta.
Proof.
  unfold timedelta_seconds, delta_ok.
  destruct (Z.leb_spec (Z.abs (microseconds seconds / us_per_day))
              MAX_DELTA_DAYS).
  - split; [by intros [= <-]|]. by intros [-> _].
  - split; [done|]. intros [-> ?]. lia.
Qed.

Lemma timedelta_seconds_Raise (seconds : Q) (e : exn) :
  timedelta_seconds seconds = Raise e -> e = OverflowError.
Proof.
  unfold timedelta_seconds. by destruct (_ <=? _); intros [= <-].
Qed.

Lemma add_Ok (t t' : datetime) (delta : timedelta) :
  add t delta = Ok t' <-> t' = t + delta /\ datetime_ok (t + delta).
Proof.
  unfold add, datetime_ok, datetime_end, MAXORDINAL, us_per_day,
    us_per_second.
  destruct (Z.leb_spec 1 ((t + delta) / (86400 * 1000000) + 1)),
           (Z.leb_spec ((t + delta) / (86400 * 1000000) + 1) 3652059);
    simpl; (split; [intros [= <-]|intros [-> ?]]); try done;
    try (split; [done|]); zdiv.
Qed.

Lemma add_Raise (t : datetime) (delta : timedelta) (e : exn) :
  add t delta = Raise e -> e = OverflowError.
Proof.
  unfold add. by destruct (_ && _); intros [= <-].
Qed.

(** A round of the loop returns when its start time and its stop time
    are in range; the entry then starts where the loop has got to and
    lasts the record's duration. *)
Lemma loop_body_Ok (fm : file_meta) start_time prev_duration
    (e : timeline_entry) :
  loop_body fm start_time prev_duration = Ok e <->
  start_ok start_time prev_duration
  /\ entry_ok e
  /\ Start_Time e = loop_start start_time prev_duration fm
  /\ made_from fm e.
Proof.
  unfold loop_body, entry_ok, made_from.
  set (start := loop_start start_time prev_duration fm).
  assert (forall s,
            match start_time with
            | None => Ok (creation_time fm)
            | Some t => delta ← timedelta_seconds prev_duration; add t delta
            end = Ok s <->
            start_ok start_time prev_duration /\ s = start) as Hstart.
  { intros s. unfold start, start_ok, loop_start.
    destruct start_time as [t|].
    - rewrite result_bind_Ok. split.
      + intros (d & [-> Hd]%timedelta_seconds_Ok & [-> Ht]%add_Ok). done.
      + intros ([Hd Ht] & ->). exists (microseconds prev_duration).
        split; [by apply timedelta_seconds_Ok|by apply add_Ok].
    - split; [by intros [= <-]|]. by intros [_ ->]. }
  rewrite result_bind_Ok. split.
  - intros (s & [Hs ->]%Hstart & H).
    apply result_bind_Ok in H as (d & [-> Hd]%timedelta_seconds_Ok & H).
    apply result_bind_Ok in H as (stop & [-> Hstop]%add_Ok & H).
    apply result_bind_Ok in H as (d' & [-> _]%timedelta_seconds_Ok & H).
    injection H as <-. cbn [Start_Time Stop_Time Filename Chapter Session
                              Folder Duration].
    replace (start + microseconds (duration fm) - start)
      with (microseconds (duration fm)) by lia.
    done.
  - intros (Hs & [Hd Hstop] & Hst & Hf & Hc & Hse & Hfo & Hdu & Hsp).
    exists start. split; [by apply Hstart|].
    rewrite Hsp, Hst in Hd, Hstop.
    replace (start + microseconds (duration fm) - start)
      with (microseconds (duration fm)) in Hd by lia.
    apply result_bind_Ok. exists (microseconds (duration fm)).
    split; [by apply timedelta_seconds_Ok|].
    apply result_bind_Ok. exists (start + microseconds (duration fm)).
    split; [by apply add_Ok|].
    apply result_bind_Ok. exists (microseconds (duration fm)).
    split; [by apply timedelta_seconds_Ok|].
    destruct e. simpl in *. by subst.
Qed.

Lemma loop_body_Raise (fm : file_meta) start_time prev_duration (e : exn) :
  loop_body fm start_time prev_duration = Raise e -> e = OverflowError.
Proof.
  unfold loop_body. intros H.
  apply result_bind_Raise in H as [H|(s & _ & H)].
  - destruct start_time as [t|]; [|done].
    apply result_bind_Raise in H as [H|(d & _ & H)];
      [by eapply timedelta_seconds_Raise|by eapply add_Raise].
  - apply result_bind_Raise in H as [H|(d & _ & H)];
      [by eapply timedelta_seconds_Raise|].
    apply result_bind_Raise in H as [H|(stop & _ & H)];
      [by eapply add_Raise|].
    apply result_bind_Raise in H as [H|(d' & _ & H)];
      [by eapply timedelta_seconds_Raise|done].
Qed.

Lemma timeline_made_from (l : list file_meta) (start : datetime) :
  Forall2 made_from l (timeline l start).
Proof.
  revert start. induction l as [|fm l IH]; intros start; simpl; constructor;
    [|apply IH].
  by repeat split.
Qed.



Lemma elapsed_take_S (l : list file_meta) (i : nat) (fm : file_meta) :
  l !! i = Some fm ->
  elapsed (take (S i) l) = elapsed (take i l) + microseconds (duration fm).
Proof.
  revert i. induction l as [|x l IH]; intros [|i]; simpl; try done.
  - intros [= ->]. simpl. lia.
  - intros Hi. specialize (IH i Hi). simpl in IH. lia.
Qed.

Lemma elapsed_take_mono (l : list file_meta) (i j : nat) :
  Forall (fun fm => 0 <= microseconds (duration fm)) l ->
  (i <= j)%nat -> elapsed (take i l) <= elapsed (take j l).
Proof.
  intros Hl. revert i j.
  induction Hl as [|x l Hx Hl IH]; intros i j Hij.
  - by rewrite !take_nil.
  - destruct i as [|i], j as [|j]; simpl; try lia.
    + assert (0 <= elapsed (take j l)); [|lia].
      specialize (IH 0%nat j ltac:(lia)). by rewrite take_0 in IH.
    + specialize (IH i j ltac:(lia)). lia.
Qed.

Lemma elapsed_perm (l l' : list file_meta) :
  l ≡ₚ l' -> elapsed l = elapsed l'.
Proof. induction 1; simpl; lia. Qed.

(** Where entry [i] lies: at the start plus the durations of the records
    before it. *)
Lemma timeline_closed (l : list file_meta) :
  forall (start : datetime) (i : nat) (e : timeline_entry),
    timeline l start !! i = Some e ->
    exists fm,
      l !! i = Some fm /\ made_from fm e
      /\ Start_Time e = start + elapsed (take i l).
Proof.
  induction l as [|x l IH]; intros start i e; simpl; [done|].
  destruct i as [|i]; simpl.
  - intros [= <-]. exists x. simpl. repeat split; try done. lia.
  - intros Hi. destruct (IH _ _ _ Hi) as (fm & Hl & Hent & Hs).
    exists fm. split; [done|]. split; [done|]. rewrite Hs. lia.
Qed.

Lemma made_from_entry_of (fm : file_meta) (e : timeline_entry) :
  made_from fm e -> entry_of fm e.
Proof.
  intros (Hf & Hc & Hs & Hfo & Hdu & Hst).
  assert (Stop_Time e - Start_Time e = microseconds (duration fm)) as Hlen
    by lia.
  unfold entry_of. rewrite Hlen. repeat split; try done.
  apply microseconds_accuracy.
Qed.

(** The loop returns exactly when every round finds its times in range,
    and then with the entries laid end to end. *)
Lemma timeline_loop_Ok (l : list file_meta) :
  forall start_time prev_duration (results : list timeline_entry),
    timeline_loop l start_time prev_duration = Ok results <->
    match l with
    | [] => results = []
    | fm :: _ =>
        start_ok start_time prev_duration
        /\ results = timeline l (loop_start start_time prev_duration fm)
        /\ Forall entry_ok results
    end.
Proof.
  induction l as [|fm l IH]; intros st pd results; simpl.
  - split; [by intros [= <-]|by intros ->].
  - rewrite result_bind_Ok. split.
    + intros (e & (Hs & He & Hst & Hm)%loop_body_Ok & H).
      apply result_bind_Ok in H as (rest & Hrest & [= <-]).
      apply IH in Hrest.
      assert (e = {| Filename := file fm;
                     Start_Time := loop_start st pd fm;
                     Stop_Time := loop_start st pd fm
                                  + microseconds (duration fm);
                     Duration := str_timedelta (microseconds (duration fm));
                     Chapter := chapter fm;
                     Session := session fm;
                     Folder := folder fm |}) as Heq.
      { destruct Hm as (? & ? & ? & ? & ? & Hstop). rewrite Hst in Hstop.
        destruct e. simpl in *. by subst. }
      clear Hm Hst. subst e. split; [done|]. destruct l as [|fm' l].
      * subst rest. split; [done|]. by constructor.
      * destruct Hrest as (_ & -> & Hall). split; [done|by constructor].
    + intros (Hs & -> & Hall). apply Forall_cons in Hall as [He Hall].
      eexists. split.
      { apply loop_body_Ok. split; [done|]. split; [exact He|].
        split; [done|]. by repeat split. }
      apply result_bind_Ok. eexists. split; [|done].
      apply IH. cbn [Start_Time]. destruct l as [|fm' l]; [done|].
      split; [|done].
      unfold start_ok. destruct He as [Hd Ht]. cbn [Start_Time Stop_Time] in *.
      replace (loop_start st pd fm + microseconds (duration fm)
               - loop_start st pd fm)
        with (microseconds (duration fm)) in Hd by lia.
      done.
Qed.

Lemma timeline_loop_Raise (l : list file_meta) :
  forall start_time prev_duration (e : exn),
    timeline_loop l start_time prev_duration = Raise e -> e = OverflowError.
Proof.
  induction l as [|fm l IH]; intros st pd e; simpl; [done|].
  intros [H|(entry & _ & H)]%result_bind_Raise.
  - by eapply loop_body_Raise.
  - apply result_bind_Raise in H as [H|(rest & _ & H)]; [by eapply IH|done].
Qed.

Lemma chapters_sorted (dec : list (Z * file_meta)) :
  Forall (fun p => chapter p.2 = Some p.1) dec ->
  StronglySorted key_le dec ->
  StronglySorted chapter_le (dec.*2).
Proof.
  intros Hkeys Hs. induction Hs as [|[k fm] dec Hs IH Hall]; simpl.
  - constructor.
  - apply Forall_cons in Hkeys as [Hk Hkeys]. simpl in Hk.
    constructor; [by apply IH|].
    rewrite Forall_fmap. rewrite Forall_forall in Hall, Hkeys.
    apply Forall_forall. intros [k' fm'] Hin. simpl.
    specialize (Hall _ Hin). specialize (Hkeys _ Hin).
    unfold chapter_le, key_le in *. simpl in *. by rewrite Hk, Hkeys.
Qed.

Lemma chapters_present (files : list file_meta) :
  Forall (fun fm => is_Some (chapter fm)) files ->
  exists ks, chapter <$> files = Some <$> ks
    /\ length ks = length files
    /\ Forall (fun p => chapter p.2 = Some p.1) (zip ks files).
Proof.
  induction 1 as [|fm files [k Hk] _ (ks & Heq & Hlen & Hall)].
  - by exists [].
  - exists (k :: ks). rewrite !fmap_cons, Hk, Heq. simpl. rewrite Hlen.
    repeat split. by constructor.
Qed.

Lemma sorted_files_Ok (files : list file_meta) :
  Forall (fun fm => is_Some (chapter fm)) files ->
  exists sorted_files,
    py_sorted (chapter <$> files) files = Ok sorted_files
    /\ sorted_files ≡ₚ files
    /\ StronglySorted chapter_le sorted_files.
Proof.
  intros (ks & Heq & Hlen & Hall)%chapters_present.
  destruct (py_sorted_Ok ks files Hlen) as (dec & Hs & Hperm & Hsorted).
  exists (dec.*2). rewrite Heq. split; [done|]. split.
  - rewrite Hperm. by rewrite snd_zip by lia.
  - apply chapters_sorted; [|done]. by rewrite Hperm.
Qed.

(** ** Timeline reconstruction *)

(** Whenever the reconstructor returns, [sorted] has returned and the
    entries are those of the sorted records laid end to end from the
    creation time of the first; each of them is in range. *)
Lemma process_files_in_session_inv (files : list file_meta)
    (results : list timeline_entry) :
  process_files_in_session files = Ok results <->
  exists sorted_files,
    py_sorted (chapter <$> files) files = Ok sorted_files
    /\ results = timeline sorted_files (session_start sorted_files)
    /\ Forall entry_ok results.
Proof.
  unfold process_files_in_session. rewrite result_bind_Ok.
  split; intros (sorted_files & Hs & H); exists sorted_files;
    (split; [done|]).
  - apply timeline_loop_Ok in H. destruct sorted_files as [|fm l].
    + subst. by split.
    + by destruct H as (_ & -> & ?).
  - apply timeline_loop_Ok. destruct sorted_files as [|fm l].
    + by destruct H as [-> _].
    + by destruct H as [-> ?].
Qed.

Lemma process_files_in_session_Raise (files : list file_meta) (e : exn) :
  process_files_in_session files = Raise e ->
  (e = TypeError /\ py_sorted (chapter <$> files) files = Raise TypeError)
  \/ (e = OverflowError
      /\ exists sorted_files,
           py_sorted (chapter <$> files) files = Ok sorted_files).
Proof.
  unfold process_files_in_session.
  intros [H|(sorted_files & Hs & H)]%result_bind_Raise.
  - left. pose proof H as ->%py_sorted_raises. done.
  - right. apply timeline_loop_Raise in H. eauto.
Qed.

(** Whenever the reconstructor returns, its entries are made one for one
    from a rearrangement of its input. *)
Lemma process_files_in_session_entries (files : list file_meta)
    (results : list timeline_entry) :
  process_files_in_session files = Ok results ->
  exists sorted_files,
    sorted_files ≡ₚ files /\ Forall2 made_from sorted_files results.
Proof.
  intros (sorted_files & Hs & -> & _)%process_files_in_session_inv.
  exists sorted_files. split.
  - eapply py_sorted_perm; [|done]. by rewrite length_fmap.
  - apply timeline_made_from.
Qed.

(** The sum of the rounded durations exceeds the sum of the durations by
    less than a microsecond for each record. *)
Lemma elapsed_le_total (l : list file_meta) :
  (inject_Z (elapsed l)
   <= total_duration l * inject_Z us_per_second
      + inject_Z (Z.of_nat (length l)))%Q.
Proof.
  induction l as [|fm l IH]; [by vm_compute|].
  cbn [elapsed total_duration foldr length].
  fold (elapsed l). fold (total_duration l).
  rewrite Nat2Z.inj_succ. unfold Z.succ. rewrite !inject_Z_plus.
  pose proof (microseconds_accuracy (duration fm)) as Ha.
  apply Qabs_Qle_condition in Ha as [_ Ha].
  change (inject_Z us_per_second) with (1000000 # 1)%Q in *.
  change (inject_Z 1) with 1%Q.
  unfold float_slack in Ha.
  set (u := inject_Z (microseconds (duration fm))) in *.
  set (el := inject_Z (elapsed l)) in *.
  set (n := inject_Z (Z.of_nat (length l))) in *.
  clearbody u el n. lra.
Qed.

Lemma elapsed_nonneg (l : list file_meta) :
  Forall (fun fm => 0 <= microseconds (duration fm)) l -> 0 <= elapsed l.
Proof. induction 1; simpl; lia. Qed.

(** A session that fits gives entries that are all in range, in whatever
    order its records are taken. *)
Lemma fits_entries_ok (files sorted_files : list file_meta) :
  fits files -> sorted_files ≡ₚ files ->
  Forall entry_ok (timeline sorted_files (session_start sorted_files)).
Proof.
  intros Hfit Hperm.
  assert (Forall (fun fm => 0 <= microseconds (duration fm)) sorted_files)
    as Hpos.
  { rewrite Hperm. eapply Forall_impl; [exact Hfit|].
    intros fm (Hd & _). by apply microseconds_nonneg. }
  assert (0 <= session_start sorted_files
          /\ session_start sorted_files + elapsed sorted_files < datetime_end)
    as [Hs0 Hend].
  { destruct sorted_files as [|first l]; [by vm_compute|].
    change (session_start (first :: l)) with (creation_time first).
    assert (first ∈ files) as Hin by (rewrite <- Hperm; constructor).
    unfold fits in Hfit. rewrite Forall_forall in Hfit.
    destruct (Hfit _ Hin) as (_ & H0 & Hlt). split; [done|].
    rewrite (elapsed_perm _ _ Hperm).
    pose proof (elapsed_le_total files) as Hle.
    assert (inject_Z (creation_time first + elapsed files)
            < inject_Z datetime_end)%Q as Hq
      by (rewrite inject_Z_plus; lra).
    unfold Qlt, inject_Z in Hq. simpl in Hq. lia. }
  apply Forall_lookup. intros i e Hi.
  destruct (timeline_closed _ _ _ _ Hi) as (fm & Hfm & Hm & Hst).
  destruct Hm as (_ & _ & _ & _ & _ & Hstop).
  pose proof (elapsed_take_S _ _ _ Hfm) as HS.
  pose proof (elapsed_take_mono sorted_files 0 i Hpos ltac:(lia)) as H0i.
  pose proof (elapsed_take_mono sorted_files (S i) (length sorted_files)
                Hpos) as HSn.
  rewrite take_0 in H0i. rewrite firstn_all in HSn.
  assert (S i <= length sorted_files)%nat as Hlen
    by (apply lookup_lt_Some in Hfm; lia).
  specialize (HSn Hlen). simpl in H0i.
  rewrite Forall_forall in Hpos.
  pose proof (Hpos fm ltac:(by eapply list_elem_of_lookup_2)) as Hu.
  unfold entry_ok, delta_ok, datetime_ok.
  replace (Stop_Time e - Start_Time e) with (microseconds (duration fm))
    by lia.
  split; [|lia].
  assert (microseconds (duration fm) < datetime_end) as Hlt by lia.
  unfold datetime_end, MAXORDINAL, MAX_DELTA_DAYS, us_per_day,
    us_per_second in *.
  zdiv.
Qed.

(** A session that fits gets its entries as soon as [sorted] returns. *)
Lemma process_files_in_session_fits (files sorted_files : list file_meta) :
  fits files ->
  py_sorted (chapter <$> files) files = Ok sorted_files ->
  process_files_in_session files
  = Ok (timeline sorted_files (session_start sorted_files)).
Proof.
  intros Hfit Hs. apply process_files_in_session_inv.
  exists sorted_files. split; [done|]. split; [done|].
  apply (fits_entries_ok files); [done|].
  eapply py_sorted_perm; [|done]. by rewrite length_fmap.
Qed.


Lemma sample_session_fits : fits sample_session.
Proof. repeat constructor; by vm_compute. Defined.



(** An entry made from a record whose duration is negative by a
    microsecond or more stops before it starts, whatever else the session
    holds. *)
Lemma negative_timedelta_entry (fm : file_meta) (e : timeline_entry) :
  entry_of fm e ->
  (duration fm <= - (1 # 1000000))%Q ->
  Stop_Time e < Start_Time e.
Proof.
  intros (_ & _ & _ & _ & _ & Ha) Hneg.
  apply Qabs_Qle_condition in Ha as [_ Ha].
  change (inject_Z us_per_second) with (1000000 # 1)%Q in Ha.
  unfold float_slack in Ha.
  assert (inject_Z (Stop_Time e - Start_Time e) < 0)%Q as Hlt by lra.
  unfold Qlt, inject_Z in Hlt. simpl in Hlt. lia.
Qed.

(** A duration that is a whole number of microseconds is added as it
    is. *)
Lemma entry_of_exact (fm : file_meta) (e : timeline_entry) (k : Z) :
  entry_of fm e ->
  (duration fm * inject_Z us_per_second == inject_Z k)%Q ->
  Stop_Time e = Start_Time e + k.
Proof.
  intros (_ & _ & _ & _ & _ & Ha) Hk. rewrite Hk in Ha.
  apply Qabs_Qle_condition in Ha as [Hl Hu].
  unfold float_slack in *.
  assert (-1 < inject_Z (Stop_Time e - Start_Time e) - inject_Z k < 1)%Q
    as [H1 H2] by (split; lra).
  unfold Qlt, Qminus, Qplus, Qopp, inject_Z in H1, H2.
  cbn [Qnum Qden] in H1, H2. lia.
Qed.

(** C3. There is a record with a negative duration on which
    [process_files_in_session] raises nothing and returns an entry whose
    stop time lies strictly before its start time. *)
Theorem negative_duration_propagates :
  exists fm e,
    (duration fm < 0)%Q
    /\ process_files_in_session [fm] = Ok [e]
    /\ Stop_Time e < Start_Time e.
Proof.
  exists (sample_chapter 0 (-5 # 1)). eexists.
  split; [reflexivity|]. split; [vm_compute; reflexivity|]. reflexivity.
Qed.

(** C7. Scenario A: chapter 0 lasts 10 seconds and was created at
    2024-01-01T00:00:00, chapter 1 lasts 5 seconds.  Whatever the other
    fields and the order in which the two records arrive, chapter 0 runs
    from 00:00:00 to 00:00:10 and chapter 1 from 00:00:10 to 00:00:15. *)
Theorem scenario_two_chapters (f0 f1 d0 d1 : string) (s0 s1 : option Z)
    (t1 : datetime) :
  let c0 := {| file := f0; creation_time := mk_datetime 2024 1 1 0 0 0 0;
               duration := 10 # 1; chapter := Some 0; session := s0;
               folder := d0 |} in
  let c1 := {| file := f1; creation_time := t1;
               duration := 5 # 1; chapter := Some 1; session := s1;
               folder := d1 |} in
  let e0 := {| Filename := f0;
               Start_Time := mk_datetime 2024 1 1 0 0 0 0;
               Stop_Time := mk_datetime 2024 1 1 0 0 10 0;
               Duration := "0:00:10";
               Chapter := Some 0; Session := s0; Folder := d0 |} in
  let e1 := {| Filename := f1;
               Start_Time := mk_datetime 2024 1 1 0 0 10 0;
               Stop_Time := mk_datetime 2024 1 1 0 0 15 0;
               Duration := "0:00:05";
               Chapter := Some 1; Session := s1; Folder := d1 |} in
  process_files_in_session [c0; c1] = Ok [e0; e1]
  /\ process_files_in_session [c1; c0] = Ok [e0; e1]
  /\ strftime_Ymd_HMS (Start_Time e0) = "2024-01-01 00:00:00"
  /\ strftime_Ymd_HMS (Stop_Time e0) = "2024-01-01 00:00:10"
  /\ strftime_Ymd_HMS (Start_Time e1) = "2024-01-01 00:00:10"
  /\ strftime_Ymd_HMS (Stop_Time e1) = "2024-01-01 00:00:15".
Proof.
  intros c0 c1 e0 e1. repeat apply conj; vm_compute; reflexivity.
Qed.

(** ** Name decoding *)

Lemma match_prefix_Some (pat : list atom) (s m : string) :
  match_prefix pat s = Some m <->
  matches pat m = true /\ exists post, s = m +:+ post.
Proof.
  revert s m. induction pat as [|a pat IH]; intros s m; simpl.
  - split.
    + intros [= <-]. split; [done|]. by exists s.
    + intros [Hm _]. by destruct m.
  - split.
    + destruct s as [|c s]; [done|].
      destruct (atom_matches a c) eqn:Ha; [|done].
      destruct (match_prefix pat s) as [m'|] eqn:Hm'; [|done].
      intros [= <-]. apply IH in Hm' as [Hm' [post ->]].
      simpl. rewrite Ha, Hm'. split; [done|]. by exists post.
    + intros [Hm [post ->]]. destruct m as [|c m]; [done|].
      apply andb_prop in Hm as [Ha Hm]. simpl. rewrite Ha.
      assert (match_prefix pat (m +:+ post) = Some m) as ->; [|done].
      apply IH. split; [done|]. by exists post.
Qed.

Lemma matches_pattern (m : string) :
  matches pattern m = true <->
  exists g1 g2, digit_group 2 g1 /\ digit_group 4 g2
    /\ m = "GX" +:+ g1 +:+ g2 +:+ ".MP4".
Proof.
  split.
  - unfold pattern. intros H.
    repeat (destruct m as [|? m]; [discriminate H|];
            apply andb_prop in H as [? H]).
    destruct m; [|discriminate H].
    repeat match goal with
           | E : atom_matches (Lit _) _ = true |- _ =>
               apply Ascii.eqb_eq in E; subst
           | E : atom_matches Digit _ = true |- _ => simpl in E
           end.
    match goal with
    | |- context [String _ (String _ (String ?d1 (String ?d2 (String ?d3
           (String ?d4 (String ?d5 (String ?d6 _)))))))] =>
        exists (String d1 (String d2 EmptyString)),
          (String d3 (String d4 (String d5 (String d6 EmptyString))))
    end.
    unfold digit_group; simpl.
    repeat match goal with E : Str.is_digit _ = true |- _ => rewrite E; clear E end.
    done.
  - intros (g1 & g2 & [Hl1 Hd1] & [Hl2 Hd2] & ->).
    do 3 (destruct g1 as [|? g1]; try discriminate Hl1).
    do 5 (destruct g2 as [|? g2]; try discriminate Hl2).
    simpl in *.
    repeat match goal with
           | E : _ && _ = true |- _ => apply andb_prop in E as [? ?]
           end.
    repeat match goal with E : Str.is_digit _ = true |- _ => rewrite E; clear E end.
    done.
Qed.

Lemma match_here_occurs (s g1 g2 : string) :
  match_here s = Some (g1, g2) <->
  exists post, occurs_at s EmptyString g1 g2 post.
Proof.
  unfold match_here, occurs_at. split.
  - destruct (match_prefix pattern s) as [m|] eqn:Hm; [|done].
    apply match_prefix_Some in Hm as [Hm [post ->]].
    apply matches_pattern in Hm as (h1 & h2 & [Hl1 Hd1] & [Hl2 Hd2] & ->).
    do 3 (destruct h1 as [|? h1]; try discriminate Hl1).
    do 5 (destruct h2 as [|? h2]; try discriminate Hl2).
    simpl. intros [= <- <-]. by exists post.
  - intros (post & [Hl1 Hd1] & [Hl2 Hd2] & ->). simpl.
    assert (match_prefix pattern ("GX" +:+ g1 +:+ g2 +:+ ".MP4" +:+ post)
            = Some ("GX" +:+ g1 +:+ g2 +:+ ".MP4")) as Hm.
    { apply match_prefix_Some. split.
      - apply matches_pattern. by exists g1, g2.
      - exists post.
        do 3 (destruct g1 as [|? g1]; try discriminate Hl1).
        do 5 (destruct g2 as [|? g2]; try discriminate Hl2).
        done. }
    simpl in Hm. rewrite Hm.
    do 3 (destruct g1 as [|? g1]; try discriminate Hl1).
    do 5 (destruct g2 as [|? g2]; try discriminate Hl2).
    done.
Qed.

(** Facts about strings used below. *)
Section StringFacts.
Implicit Types (a b p s : string).

Lemma str_app_cons (c : ascii) a b : String c a +:+ b = String c (a +:+ b).
Proof. reflexivity. Qed.

Lemma str_app_nil_l a : EmptyString +:+ a = a.
Proof. reflexivity. Qed.

Lemma str_length_app a b :
  String.length (a +:+ b) = (String.length a + String.length b)%nat.
Proof.
  induction a as [|c a IH]; [done|].
  rewrite str_app_cons. simpl. by rewrite IH.
Qed.

Lemma str_app_assoc a b s : (a +:+ b) +:+ s = a +:+ (b +:+ s).
Proof.
  induction a as [|c a IH]; [done|].
  rewrite !str_app_cons. by rewrite IH.
Qed.

Lemma str_app_nil_r a : a +:+ EmptyString = a.
Proof.
  induction a as [|c a IH]; [done|].
  rewrite str_app_cons. by rewrite IH.
Qed.

Lemma str_app_inj a a' b b' :
  String.length a = String.length a' ->
  a +:+ b = a' +:+ b' -> a = a' /\ b = b'.
Proof.
  revert a'. induction a as [|c a IH]; intros [|c' a']; try done.
  rewrite !str_app_cons. simpl.
  intros [= Hlen] [= -> Heq]. destruct (IH _ Hlen Heq) as [-> ->]. done.
Qed.

Lemma substring_full s : substring 0 (String.length s) s = s.
Proof. induction s as [|c s IH]; simpl; [done|]. by rewrite IH. Qed.

Lemma substring_app_r p s (m : nat) :
  substring (String.length p) m (p +:+ s) = substring 0 m s.
Proof.
  induction p as [|c p IH]; [done|].
  rewrite str_app_cons. simpl. apply IH.
Qed.

Lemma substring_split s (k : nat) :
  (k <= String.length s)%nat ->
  s = substring 0 k s +:+ substring k (String.length s - k) s.
Proof.
  revert k. induction s as [|c s IH]; intros [|k] Hk; simpl in *;
    try done; try lia.
  - by rewrite str_app_nil_l, substring_full.
  - rewrite str_app_cons. by rewrite <- IH by lia.
Qed.

Lemma endswith_app s suffix :
  Str.endswith s suffix = true <-> exists p, s = p +:+ suffix.
Proof.
  unfold Str.endswith. split.
  - intros [Hle Heq]%andb_prop.
    apply Nat.leb_le in Hle. apply String.eqb_eq in Heq.
    exists (substring 0 (String.length s - String.length suffix) s).
    pose proof (substring_split s (String.length s - String.length suffix))
      as Hsplit.
    replace (String.length s - (String.length s - String.length suffix))%nat
      with (String.length suffix) in Hsplit by lia.
    rewrite Heq in Hsplit. apply Hsplit. lia.
  - intros [p ->]. rewrite str_length_app.
    apply andb_true_intro. split; [apply Nat.leb_le; lia|].
    apply String.eqb_eq.
    replace (String.length p + String.length suffix - String.length suffix)%nat
      with (String.length p) by lia.
    by rewrite substring_app_r, substring_full.
Qed.

End StringFacts.

Lemma re_search_None (s : string) :
  re_search s = None <-> forall pre g1 g2 post, ~ occurs_at s pre g1 g2 post.
Proof.
  induction s as [|c s IH]; simpl.
  - split; [|done]. intros _ pre g1 g2 post (_ & _ & H).
    by destruct pre.
  - destruct (match_here (String c s)) as [[h1 h2]|] eqn:Hm.
    + split; [done|]. intros H. exfalso.
      apply match_here_occurs in Hm as [post Hocc]. by eapply H.
    + rewrite IH. split.
      * intros H [|c' pre] g1 g2 post Hocc.
        -- assert (match_here (String c s) = Some (g1, g2)) as Hs
             by (apply match_here_occurs; by exists post).
           congruence.
        -- destruct Hocc as (Hg1 & Hg2 & [= -> ->]).
           by eapply (H pre g1 g2 post).
      * intros H pre g1 g2 post (Hg1 & Hg2 & ->).
        by eapply (H (String c pre) g1 g2 post).
Qed.

(** [re_search] returns the groups of the leftmost occurrence. *)
Lemma re_search_leftmost (s pre g1 g2 post : string) :
  occurs_at s pre g1 g2 post ->
  (forall pre' g1' g2' post', occurs_at s pre' g1' g2' post' ->
     (String.length pre <= String.length pre')%nat) ->
  re_search s = Some (g1, g2).
Proof.
  revert s. induction pre as [|c pre IH]; intros s Hocc Hleft.
  - assert (match_here s = Some (g1, g2)) as Hm
      by (apply match_here_occurs; by exists post).
    destruct s; [by cbv in Hm|]. simpl. by rewrite Hm.
  - destruct Hocc as (Hg1 & Hg2 & ->).
    change (String c pre +:+ ?r) with (String c (pre +:+ r)).
    simpl.
    destruct (match_here (String c (pre +:+ "GX" +:+ g1 +:+ g2 +:+ ".MP4" +:+ post)))
      as [[h1 h2]|] eqn:Hm.
    + apply match_here_occurs in Hm as [post' Hocc'].
      specialize (Hleft _ _ _ _ Hocc'). simpl in Hleft. lia.
    + apply IH; [done|].
      intros pre' g1' g2' post' (Hg1' & Hg2' & Heq).
      assert (S (String.length pre) <= String.length (String c pre'))%nat;
        [|simpl in *; lia].
      apply (Hleft (String c pre') g1' g2' post').
      repeat split; try apply Hg1'; try apply Hg2'.
      exact (f_equal (String c) Heq).
Qed.

Lemma re_search_Some (s g1 g2 : string) :
  re_search s = Some (g1, g2) ->
  exists pre post,
    occurs_at s pre g1 g2 post
    /\ forall pre' g1' g2' post', occurs_at s pre' g1' g2' post' ->
         (String.length pre <= String.length pre')%nat.
Proof.
  induction s as [|c s IH]; simpl.
  - done.
  - destruct (match_here (String c s)) as [m|] eqn:Hm.
    + intros [= ->]. apply match_here_occurs in Hm as [post Hocc].
      exists EmptyString, post. split; [done|]. simpl; lia.
    + intros (pre & post & (Hg1 & Hg2 & ->) & Hleft)%IH.
      exists (String c pre), post. split; [done|].
      intros [|c' pre'] g1' g2' post' Hocc'.
      * assert (match_here
                  (String c (pre +:+ "GX" +:+ g1 +:+ g2 +:+ ".MP4" +:+ post))
                = Some (g1', g2')) as Hs
          by (apply match_here_occurs; by exists post').
        congruence.
      * destruct Hocc' as (Hg1' & Hg2' & [= -> Heq]).
        simpl. apply le_n_S. by eapply (Hleft pre' g1' g2' post').
Qed.

(** The numeric value of a group of [n] digits lies below [10 ^ n]: a
    chapter is between 0 and 99, a session between 0 and 9999. *)
Lemma int_acc_range (s : string) :
  Str.all_digits s = true ->
  forall acc,
    acc * 10 ^ Z.of_nat (String.length s) <= Str.int_acc acc s
    < (acc + 1) * 10 ^ Z.of_nat (String.length s).
Proof.
  induction s as [|c s IH]; intros Hd acc; simpl.
  - simpl. lia.
  - simpl in Hd. apply andb_prop in Hd as [Hc Hd].
    specialize (IH Hd (10 * acc + Str.digit_value c)).
    assert (0 <= Str.digit_value c <= 9) as Hv.
    { unfold Str.is_digit in Hc. unfold Str.digit_value.
      apply andb_prop in Hc as [H1 H2].
      apply Nat.leb_le in H1, H2. lia. }
    rewrite Nat2Z.inj_succ, Z.pow_succ_r by lia.
    assert (0 < 10 ^ Z.of_nat (String.length s)) by (apply Z.pow_pos_nonneg; lia).
    nia.
Qed.

Lemma int_digit_group_range (n : nat) (g : string) :
  digit_group n g -> 0 <= Str.int g < 10 ^ Z.of_nat n.
Proof.
  intros [<- Hd]. pose proof (int_acc_range g Hd 0) as H.
  unfold Str.int. lia.
Qed.

Lemma parse_filename_Some (s : string) (c n : Z) :
  parse_filename s = (Some c, Some n) <->
  exists g1 g2, re_search s = Some (g1, g2) /\ c = Str.int g1 /\ n = Str.int g2.
Proof.
  unfold parse_filename. destruct (re_search s) as [[g1 g2]|]; split.
  - intros [= <- <-]. by exists g1, g2.
  - by intros (h1 & h2 & [= <- <-] & -> & ->).
  - done.
  - by intros (h1 & h2 & ? & _).
Qed.

Lemma parse_filename_None (s : string) :
  parse_filename s = (None, None) <-> re_search s = None.
Proof.
  unfold parse_filename. by destruct (re_search s) as [[g1 g2]|].
Qed.

(** A twelve-character name whose last four characters are not [.MP4]
    holds no occurrence of the pattern. *)
Lemma wrong_extension_no_occurrence (g1 g2 ext pre h1 h2 post : string) :
  digit_group 2 g1 -> digit_group 4 g2 ->
  String.length ext = 4%nat -> ext <> ".MP4" ->
  ~ occurs_at ("GX" +:+ g1 +:+ g2 +:+ ext) pre h1 h2 post.
Proof.
  intros [Hg1 _] [Hg2 _] Hext Hne ([Hh1 _] & [Hh2 _] & Heq).
  pose proof (f_equal String.length Heq) as Hlen.
  rewrite !str_length_app in Hlen. simpl in Hlen.
  destruct pre; [|simpl in Hlen; lia].
  rewrite str_app_nil_l in Heq.
  apply str_app_inj in Heq as [_ Heq]; [|done].
  apply str_app_inj in Heq as [_ Heq]; [|congruence].
  apply str_app_inj in Heq as [_ Heq]; [|congruence].
  destruct post; [|simpl in Hlen; lia].
  by rewrite str_app_nil_r in Heq.
Qed.

(** C2, as the code has it, for names of 8-bit characters (code points
    below 256, where the digits are ['0'] to ['9']).  [parse_filename]
    searches its argument for the pattern instead of matching the whole of
    it.  A name of exactly
    the form GX, two digits, four digits, [.MP4] is decoded to the numeric
    values of its two digit groups; more generally the groups of the
    leftmost occurrence of that form inside the string are decoded; the
    string is decoded exactly when it holds an occurrence and reported
    unparseable exactly when it holds none; in particular a twelve-character
    name that differs from the form in its extension only is unparseable. *)
Theorem parse_filename_search (s : string) :
  (forall g1 g2, conforming_name s g1 g2 ->
     parse_filename s = (Some (Str.int g1), Some (Str.int g2)))
  /\ (forall pre g1 g2 post,
        occurs_at s pre g1 g2 post ->
        (forall pre' g1' g2' post', occurs_at s pre' g1' g2' post' ->
           (String.length pre <= String.length pre')%nat) ->
        parse_filename s = (Some (Str.int g1), Some (Str.int g2)))
  /\ ((exists pre g1 g2 post, occurs_at s pre g1 g2 post) <->
      (exists c n, parse_filename s = (Some c, Some n)))
  /\ ((forall pre g1 g2 post, ~ occurs_at s pre g1 g2 post) <->
      parse_filename s = (None, None))
  /\ (forall g1 g2 ext,
        digit_group 2 g1 -> digit_group 4 g2 ->
        String.length ext = 4%nat -> ext <> ".MP4" ->
        s = "GX" +:+ g1 +:+ g2 +:+ ext ->
        parse_filename s = (None, None)).
Proof.
  assert (forall pre g1 g2 post,
            occurs_at s pre g1 g2 post ->
            (forall pre' g1' g2' post', occurs_at s pre' g1' g2' post' ->
               (String.length pre <= String.length pre')%nat) ->
            parse_filename s = (Some (Str.int g1), Some (Str.int g2))) as Hleft.
  { intros pre g1 g2 post Hocc Hl. apply parse_filename_Some.
    exists g1, g2. split; [|done]. by eapply re_search_leftmost. }
  split; [|split; [exact Hleft|split; [|split]]].
  - intros g1 g2 (Hg1 & Hg2 & ->).
    apply (Hleft EmptyString g1 g2 EmptyString).
    + split; [done|]. split; [done|].
      by rewrite str_app_nil_l, !str_app_nil_r.
    + intros; simpl; lia.
  - split.
    + intros (pre & g1 & g2 & post & Hocc).
      destruct (re_search s) as [[h1 h2]|] eqn:Hs.
      * exists (Str.int h1), (Str.int h2). apply parse_filename_Some. eauto.
      * exfalso. eapply re_search_None; eauto.
    + intros (c & n & (g1 & g2 & Hs & _)%parse_filename_Some).
      apply re_search_Some in Hs as (pre & post & Hocc & _). eauto.
  - rewrite parse_filename_None. symmetry. apply re_search_None.
  - intros g1 g2 ext Hg1 Hg2 Hext Hne ->.
    apply parse_filename_None, re_search_None.
    intros pre h1 h2 post. by apply wrong_extension_no_occurrence.
Qed.

Lemma parse_filename_search_witness :
  conforming_name "GX010042.MP4" "01" "0042"
  /\ parse_filename "GX010042.MP4" = (Some 1, Some 42).
Proof.
  assert (conforming_name "GX010042.MP4" "01" "0042") as H
    by (repeat split; reflexivity).
  split; [exact H|].
  exact (proj1 (parse_filename_search "GX010042.MP4") "01" "0042" H).
Defined.

(** C2, as the specification has it, fails: a longer name that merely
    contains the twelve characters is decoded as well. *)
Lemma parse_filename_accepts_longer_name :
  (~ exists g1 g2, conforming_name "old_GX120007.MP4" g1 g2)
  /\ parse_filename "old_GX120007.MP4" = (Some 12, Some 7).
Proof.
  split; [|reflexivity].
  intros (g1 & g2 & _ & _ & H). discriminate H.
Qed.

(** C10. [parse_filename] returns two integers or [(None, None)], never a
    mixed pair; so the chapter is present exactly when the session is, and
    the caller's test of both is the test of the chapter alone. *)
Theorem parse_filename_both_or_neither (s : string) :
  ((exists c n, parse_filename s = (Some c, Some n))
   \/ parse_filename s = (None, None))
  /\ (is_Some (parse_filename s).1 <-> is_Some (parse_filename s).2)
  /\ (let '(chapter, session) := parse_filename s in
      is_some chapter && is_some session = is_some chapter).
Proof.
  unfold parse_filename. destruct (re_search s) as [[g1 g2]|]; simpl.
  - split; [left; eauto|]. split; [|done]. split; eauto.
  - split; [by right|]. split; [|done].
    split; intros [? ?]; done.
Qed.

(** ** Session grouping *)

Section Grouping.
Implicit Types (d : list (string * list file_meta)) (l : list file_meta).

Lemma dict_get_append key k fm d :
  dict_get key (dict_append k fm d) =
  if decide (k = key) then Some (default [] (dict_get key d) ++ [fm])
  else dict_get key d.
Proof.
  induction d as [|[k' ms] d IH]; simpl.
  - destruct (String.eqb_spec k key), (decide (k = key)); done.
  - destruct (String.eqb_spec k' k) as [->|Hne]; simpl.
    + destruct (String.eqb_spec k key), (decide (k = key)); done.
    + destruct (String.eqb_spec k' key) as [->|Hne'].
      * by destruct (decide (k = key)); [subst|].
      * apply IH.
Qed.

Lemma dict_append_keys k fm d :
  (dict_append k fm d).*1 = if decide (k ∈ d.*1) then d.*1 else d.*1 ++ [k].
Proof.
  induction d as [|[k' ms] d IH]; [done|].
  cbn [dict_append]. rewrite fmap_cons. cbn [fst].
  destruct (String.eqb_spec k' k) as [->|Hne].
  - rewrite fmap_cons. cbn [fst].
    destruct (decide (k ∈ k :: d.*1)) as [|Hn]; [done|].
    exfalso. apply Hn. constructor.
  - rewrite fmap_cons, IH. cbn [fst].
    destruct (decide (k ∈ d.*1)) as [Hin|Hn],
             (decide (k ∈ k' :: d.*1)) as [Hin'|Hn']; try done.
    + exfalso. apply Hn'. by constructor.
    + apply elem_of_cons in Hin' as [->|?]; done.
Qed.

Lemma dict_append_NoDup k fm d : NoDup d.*1 -> NoDup (dict_append k fm d).*1.
Proof.
  intros Hd. rewrite dict_append_keys.
  destruct (decide (k ∈ d.*1)); [done|].
  apply NoDup_app. repeat split; [done| |apply NoDup_singleton].
  intros x Hx ->%list_elem_of_singleton. done.
Qed.

Lemma dict_append_concat k fm d :
  concat (dict_append k fm d).*2 ≡ₚ fm :: concat d.*2.
Proof.
  induction d as [|[k' ms] d IH]; simpl; [done|].
  destruct (String.eqb k' k); simpl.
  - rewrite <- app_assoc. simpl.
    by rewrite <- Permutation_middle.
  - rewrite IH. by rewrite <- Permutation_middle.
Qed.

Lemma dict_get_elem_of key ms d :
  NoDup d.*1 -> (key, ms) ∈ d -> dict_get key d = Some ms.
Proof.
  induction d as [|[k' ms'] d IH]; simpl; intros Hnd Hin.
  - by apply elem_of_nil in Hin.
  - apply NoDup_cons in Hnd as [Hk' Hnd].
    apply elem_of_cons in Hin as [[= <- <-]|Hin].
    + by rewrite String.eqb_refl.
    + destruct (String.eqb_spec k' key) as [->|_]; [|by apply IH].
      exfalso. apply Hk'. apply list_elem_of_fmap. by exists (key, ms).
Qed.

Lemma dict_get_Some key ms d : dict_get key d = Some ms -> (key, ms) ∈ d.
Proof.
  induction d as [|[k' ms'] d IH]; simpl; [done|].
  destruct (String.eqb_spec k' key) as [->|_].
  - intros [= ->]. constructor.
  - intros H. constructor. by apply IH.
Qed.

Lemma group_from_cons d fm l :
  group_from d (fm :: l) = group_from (dict_append (session_key fm) fm d) l.
Proof. reflexivity. Qed.

Lemma group_from_NoDup d l : NoDup d.*1 -> NoDup (group_from d l).*1.
Proof.
  revert d. induction l as [|fm l IH]; intros d Hd; [done|].
  rewrite group_from_cons. apply IH. by apply dict_append_NoDup.
Qed.

Lemma group_from_concat d l : concat (group_from d l).*2 ≡ₚ concat d.*2 ++ l.
Proof.
  revert d. induction l as [|fm l IH]; intros d.
  - by rewrite app_nil_r.
  - rewrite group_from_cons, IH, dict_append_concat.
    by rewrite <- Permutation_middle.
Qed.

Lemma group_from_get key d l :
  dict_get key (group_from d l) =
  match dict_get key d, filter (same_key key) l with
  | None, [] => None
  | o, ms => Some (default [] o ++ ms)
  end.
Proof.
  revert d. induction l as [|fm l IH]; intros d.
  - rewrite filter_nil. unfold group_from; simpl.
    destruct (dict_get key d); [|done]. by rewrite app_nil_r.
  - rewrite group_from_cons, IH, dict_get_append, filter_cons.
    destruct (decide (session_key fm = key)) as [Heq|Hne];
      destruct (decide (same_key key fm)) as [Hs|Hs]; try done.
    destruct (dict_get key d); simpl; [|done].
    by rewrite <- app_assoc.
Qed.

End Grouping.

(** ** The grouping key *)

Lemma digit_char_inj (a b : Z) :
  0 <= a < 10 -> 0 <= b < 10 -> digit_char a = digit_char b -> a = b.
Proof.
  intros Ha Hb H. apply (f_equal nat_of_ascii) in H. unfold digit_char in H.
  rewrite !nat_ascii_embedding in H by lia. lia.
Qed.

Lemma pad2_inj (a b : Z) :
  0 <= a < 100 -> 0 <= b < 100 -> pad2 a = pad2 b -> a = b.
Proof.
  intros Ha Hb [= H1 H2].
  apply digit_char_inj in H1; [|zdiv..].
  apply digit_char_inj in H2; [|zdiv..]. zdiv.
Qed.

Lemma pad4_inj (a b : Z) :
  0 <= a < 10000 -> 0 <= b < 10000 -> pad4 a = pad4 b -> a = b.
Proof.
  intros Ha Hb [= H1 H2 H3 H4].
  apply digit_char_inj in H1; [|zdiv..].
  apply digit_char_inj in H2; [|zdiv..].
  apply digit_char_inj in H3; [|zdiv..].
  apply digit_char_inj in H4; [|zdiv..]. zdiv.
Qed.

(** Two equal renderings agree field by field. *)
Lemma strftime_fields (t t' : datetime) :
  strftime_Ymd_HMS t = strftime_Ymd_HMS t' ->
  pad4 (ord2ymd (whole_seconds t / 86400 + 1)).1.1
    = pad4 (ord2ymd (whole_seconds t' / 86400 + 1)).1.1
  /\ pad2 (ord2ymd (whole_seconds t / 86400 + 1)).1.2
    = pad2 (ord2ymd (whole_seconds t' / 86400 + 1)).1.2
  /\ pad2 (ord2ymd (whole_seconds t / 86400 + 1)).2
    = pad2 (ord2ymd (whole_seconds t' / 86400 + 1)).2
  /\ whole_seconds t mod 86400 = whole_seconds t' mod 86400.
Proof.
  unfold strftime_Ymd_HMS.
  generalize (whole_seconds t) (whole_seconds t'). intros s s' H.
  destruct (ord2ymd (s / 86400 + 1)) as [[y m] d].
  destruct (ord2ymd (s' / 86400 + 1)) as [[y' m'] d']. simpl.
  apply str_app_inj in H as [Hy H]; [|done].
  apply str_app_inj in H as [_ H]; [|done].
  apply str_app_inj in H as [Hm H]; [|done].
  apply str_app_inj in H as [_ H]; [|done].
  apply str_app_inj in H as [Hd H]; [|done].
  apply str_app_inj in H as [_ H]; [|done].
  apply str_app_inj in H as [Hh H]; [|done].
  apply str_app_inj in H as [_ H]; [|done].
  apply str_app_inj in H as [Hmi H]; [|done].
  apply str_app_inj in H as [_ Hs]; [|done].
  assert (0 <= s mod 86400 < 86400) by (apply Z.mod_pos_bound; lia).
  assert (0 <= s' mod 86400 < 86400) by (apply Z.mod_pos_bound; lia).
  apply pad2_inj in Hh; [|zdiv..].
  apply pad2_inj in Hmi; [|zdiv..].
  apply pad2_inj in Hs; [|zdiv..].
  repeat split; try done. zdiv.
Qed.

(** The key discards the sub-second part of the creation time. *)
Lemma strftime_truncates (t : datetime) :
  strftime_Ymd_HMS t = strftime_Ymd_HMS (whole_seconds t * us_per_second).
Proof.
  unfold strftime_Ymd_HMS.
  replace (whole_seconds (whole_seconds t * us_per_second))
    with (whole_seconds t); [done|].
  unfold whole_seconds, us_per_second. by rewrite Z.div_mul.
Qed.

Lemma strftime_same_second (t t' : datetime) :
  whole_seconds t = whole_seconds t' ->
  strftime_Ymd_HMS t = strftime_Ymd_HMS t'.
Proof. unfold strftime_Ymd_HMS. by intros ->. Qed.

(** One second later the key is another one. *)
Lemma strftime_next_second (t : datetime) :
  strftime_Ymd_HMS t <> strftime_Ymd_HMS (t + us_per_second).
Proof.
  intros (_ & _ & _ & H)%strftime_fields.
  unfold whole_seconds, us_per_second in H.
  replace (t + 1000000) with (t + 1 * 1000000) in H by lia.
  rewrite Z.div_add in H by lia. zdiv.
Qed.

(** *** The calendar: [ord2ymd] has [ymd2ord] as its inverse

    The year follows from the digits of the ordinal by arithmetic; the
    month and the day are checked for each of the 365 positions in a
    common and in a leap year. *)

Lemma check_from_spec (f : Z -> bool) (n : nat) : forall start r,
  check_from f start n = true -> start <= r < start + Z.of_nat n -> f r = true.
Proof.
  induction n as [|n IH]; simpl; intros start r H Hr; [lia|].
  apply andb_prop in H as [H1 H2].
  destruct (Z.eq_dec r start) as [->|]; [assumption|].
  apply (IH (start + 1)); [assumption|lia].
Qed.

Lemma month_day_checked (leapyear : bool) :
  check_from (month_day_ok leapyear) 0 365 = true.
Proof. destruct leapyear; vm_compute; reflexivity. Qed.

Lemma month_day_spec (leapyear : bool) (n : Z) :
  0 <= n < 365 ->
  let '(m, d) := month_day leapyear n in
  1 <= m <= 12 /\ 1 <= d <= 31
  /\ days_before_month_common m
     + (if (2 <? m) && leapyear then 1 else 0) + d = n + 1.
Proof.
  intros Hn.
  pose proof (check_from_spec _ _ 0 n (month_day_checked leapyear)) as Hok.
  unfold month_day_ok in Hok. destruct (month_day leapyear n) as [m d].
  specialize (Hok ltac:(lia)).
  repeat (apply andb_prop in Hok as [Hok ?]).
  repeat match goal with
         | H : (_ <=? _) = true |- _ => apply Z.leb_le in H
         | H : (_ =? _) = true |- _ => apply Z.eqb_eq in H
         end.
  lia.
Qed.

(** The digits of an ordinal in the mixed radix 400 years, 100 years,
    4 years, 1 year. *)
Lemma ordinal_digits (ordinal : Z) :
  let n0 := ordinal - 1 in
  let n400 := n0 / DI400Y in
  let n100 := n0 mod DI400Y / DI100Y in
  let n4 := n0 mod DI400Y mod DI100Y / DI4Y in
  let n1 := n0 mod DI400Y mod DI100Y mod DI4Y / 365 in
  let n := n0 mod DI400Y mod DI100Y mod DI4Y mod 365 in
  ordinal = 146097 * n400 + 36524 * n100 + 1461 * n4 + 365 * n1 + n + 1
  /\ 0 <= n100 <= 4 /\ 0 <= n4 <= 24 /\ 0 <= n1 <= 4 /\ 0 <= n < 365
  /\ (n100 = 4 -> n4 = 0 /\ n1 = 0 /\ n = 0)
  /\ (n1 = 4 -> n = 0)
  /\ (n4 = 24 -> n100 <> 4 -> n1 <> 4).
Proof.
  unfold DI400Y, DI100Y, DI4Y. cbv zeta. zdiv.
Qed.

Lemma ord2ymd_unfold (ordinal : Z) :
  let n0 := ordinal - 1 in
  let n400 := n0 / DI400Y in
  let n100 := n0 mod DI400Y / DI100Y in
  let n4 := n0 mod DI400Y mod DI100Y / DI4Y in
  let n1 := n0 mod DI400Y mod DI100Y mod DI4Y / 365 in
  let n := n0 mod DI400Y mod DI100Y mod DI4Y mod 365 in
  let year := n400 * 400 + 1 + n100 * 100 + n4 * 4 + n1 in
  ord2ymd ordinal =
  if (n1 =? 4) || (n100 =? 4) then (year - 1, 12, 31)
  else
    let leapyear := (n1 =? 3) && (negb (n4 =? 24) || (n100 =? 3)) in
    (year, (month_day leapyear n).1, (month_day leapyear n).2).
Proof.
  cbv zeta. unfold ord2ymd, month_day.
  repeat match goal with
         | |- context [if ?b then _ else _] => destruct b
         end; reflexivity.
Qed.

Ltac split_eqb :=
  repeat match goal with
         | |- context [?a =? ?b] =>
             destruct (Z.eqb_spec a b); cbn [andb orb negb]
         end.

Lemma ord2ymd_correct (ordinal : Z) :
  ymd2ord (ord2ymd ordinal).1.1 (ord2ymd ordinal).1.2 (ord2ymd ordinal).2
  = ordinal
  /\ (1 <= ordinal <= 3652059 -> 1 <= (ord2ymd ordinal).1.1 <= 9999)
  /\ 1 <= (ord2ymd ordinal).1.2 <= 12
  /\ 1 <= (ord2ymd ordinal).2 <= 31.
Proof.
  rewrite ord2ymd_unfold.
  pose proof (ordinal_digits ordinal) as Hd. cbv zeta in Hd.
  set (n400 := (ordinal - 1) / DI400Y) in *.
  set (n100 := (ordinal - 1) mod DI400Y / DI100Y) in *.
  set (n4 := (ordinal - 1) mod DI400Y mod DI100Y / DI4Y) in *.
  set (n1 := (ordinal - 1) mod DI400Y mod DI100Y mod DI4Y / 365) in *.
  set (n := (ordinal - 1) mod DI400Y mod DI100Y mod DI4Y mod 365) in *.
  clearbody n400 n100 n4 n1 n.
  destruct Hd as (Hord & H100 & H4 & H1 & Hn & Hs100 & Hs1 & Hs4).
  destruct ((n1 =? 4) || (n100 =? 4)) eqn:Hspecial; cbn [fst snd].
  - unfold ymd2ord, days_before_month, days_before_year, is_leap.
    change (days_before_month_common 12) with 334.
    apply orb_prop in Hspecial.
    assert (n1 = 4 \/ n100 = 4) as Hsp by lia. clear Hspecial.
    repeat split; try lia.
    + destruct Hsp as [-> | ->].
      * specialize (Hs1 eq_refl). subst n.
        replace (2 <? 12) with true by reflexivity. cbn [andb].
        assert (n100 <> 4 /\ n4 <> 24) as [? ?] by lia.
        split_eqb; zdiv.
      * destruct (Hs100 eq_refl) as (-> & -> & ->).
        replace (2 <? 12) with true by reflexivity. cbn [andb].
        split_eqb; zdiv.
  - apply orb_false_elim in Hspecial as [Hn1 Hn100].
    apply Z.eqb_neq in Hn1, Hn100.
    set (leapyear := (n1 =? 3) && (negb (n4 =? 24) || (n100 =? 3))).
    pose proof (month_day_spec leapyear n Hn) as Hmd.
    destruct (month_day leapyear n) as [m d]. cbn [fst snd].
    destruct Hmd as (Hm & Hday & Hsum).
    assert (is_leap (n400 * 400 + 1 + n100 * 100 + n4 * 4 + n1) = leapyear)
      as Hleap.
    { unfold is_leap, leapyear.
      destruct (Z.eqb_spec n1 3) as [->|?], (Z.eqb_spec n4 24) as [->|?],
               (Z.eqb_spec n100 3) as [->|?]; cbn [andb orb negb];
        repeat match goal with
               | |- context [?a =? 0] =>
                   let H := fresh in
                   destruct (Z.eqb_spec a 0) as [H|H]; cbn [andb orb negb]
               end; try reflexivity; exfalso; zdiv. }
    unfold ymd2ord, days_before_month, days_before_year. rewrite Hleap.
    repeat split; try lia.
    zdiv.
Qed.

(** For dates with a four-digit year the key determines the whole
    second. *)
Lemma strftime_inj (t t' : datetime) :
  valid_datetime t -> valid_datetime t' ->
  strftime_Ymd_HMS t = strftime_Ymd_HMS t' ->
  whole_seconds t = whole_seconds t'.
Proof.
  unfold valid_datetime.
  change (mk_datetime 1000 1 1 0 0 0 0) with 31525372800000000.
  change (mk_datetime 10000 1 1 0 0 0 0) with 315537897600000000.
  intros Ht Ht' (Hy & Hm & Hd & Hs)%strftime_fields.
  assert (1 <= whole_seconds t / 86400 + 1 <= 3652059) as Hn
    by (unfold whole_seconds, us_per_second; zdiv).
  assert (1 <= whole_seconds t' / 86400 + 1 <= 3652059) as Hn'
    by (unfold whole_seconds, us_per_second; zdiv).
  destruct (ord2ymd_correct (whole_seconds t / 86400 + 1))
    as (Hr & Hyr & ? & ?).
  destruct (ord2ymd_correct (whole_seconds t' / 86400 + 1))
    as (Hr' & Hyr' & ? & ?).
  specialize (Hyr Hn). specialize (Hyr' Hn').
  apply pad4_inj in Hy; [|lia..].
  apply pad2_inj in Hm; [|lia..].
  apply pad2_inj in Hd; [|lia..].
  rewrite Hy, Hm, Hd, Hr' in Hr. zdiv.
Qed.

(** C5. [group_files_by_session] puts every record into exactly one
    group.  The keys of the groups are distinct; the group under a key is
    not empty and holds, in input order, exactly the records whose creation
    time renders to that key; the groups together are a rearrangement of
    the input.  The key is the creation time with its sub-second part
    discarded: records within the same whole second share a group, records
    of different whole seconds (in years of four digits) never do, and
    records one second apart never do. *)
Theorem group_files_by_session_partition (files_metadata : list file_meta) :
  let grouped_files := group_files_by_session files_metadata in
  NoDup grouped_files.*1
  /\ (forall key members, (key, members) ∈ grouped_files ->
        members <> []
        /\ members = filter (same_key key) files_metadata)
  /\ (forall fm, fm ∈ files_metadata ->
        exists members,
          (session_key fm, members) ∈ grouped_files /\ fm ∈ members)
  /\ concat grouped_files.*2 ≡ₚ files_metadata
  /\ (forall fm,
        session_key fm
        = strftime_Ymd_HMS (whole_seconds (creation_time fm) * us_per_second))
  /\ (forall a b key members,
        (key, members) ∈ grouped_files -> a ∈ members -> b ∈ files_metadata ->
        whole_seconds (creation_time a) = whole_seconds (creation_time b) ->
        b ∈ members)
  /\ (forall a b key members,
        (key, members) ∈ grouped_files -> a ∈ members -> b ∈ members ->
        valid_datetime (creation_time a) -> valid_datetime (creation_time b) ->
        whole_seconds (creation_time a) = whole_seconds (creation_time b))
  /\ (forall a b key members,
        (key, members) ∈ grouped_files -> a ∈ members ->
        creation_time b = creation_time a + us_per_second ->
        b ∉ members).
Proof.
  intros grouped_files.
  assert (NoDup grouped_files.*1) as Hnd by by apply (group_from_NoDup []), NoDup_nil.
  assert (forall key members, (key, members) ∈ grouped_files ->
            members <> [] /\ members = filter (same_key key) files_metadata)
    as Hgroups.
  { intros key members Hin.
    apply dict_get_elem_of in Hin; [|done].
    unfold grouped_files, group_files_by_session in Hin.
    fold (group_from [] files_metadata) in Hin.
    rewrite group_from_get in Hin. simpl in Hin.
    destruct (filter (same_key key) files_metadata); [done|].
    by injection Hin as <-. }
  assert (forall fm key members, (key, members) ∈ grouped_files ->
            fm ∈ members <-> session_key fm = key /\ fm ∈ files_metadata)
    as Hmem.
  { intros fm key members Hin. destruct (Hgroups _ _ Hin) as [_ ->].
    exact (list_elem_of_filter (same_key key) files_metadata fm). }
  split; [done|]. split; [done|]. split; [|split; [|split; [|split; [|split]]]].
  - intros fm Hfm.
    destruct (dict_get (session_key fm) grouped_files) as [members|] eqn:Hget.
    + apply dict_get_Some in Hget. exists members. split; [done|].
      by apply (Hmem _ _ _ Hget).
    + exfalso. unfold grouped_files, group_files_by_session in Hget.
      fold (group_from [] files_metadata) in Hget.
      rewrite group_from_get in Hget. simpl in Hget.
      destruct (filter (same_key (session_key fm)) files_metadata) eqn:Hf;
        [|done].
      assert (fm ∈ filter (same_key (session_key fm)) files_metadata) as Hin
        by (by apply (list_elem_of_filter (same_key (session_key fm)))).
      rewrite Hf in Hin. by apply elem_of_nil in Hin.
  - apply (group_from_concat [] files_metadata).
  - intros fm. apply strftime_truncates.
  - intros a b key members Hin Ha Hb Hsec.
    apply (Hmem _ _ _ Hin). apply (Hmem _ _ _ Hin) in Ha as [<- _].
    split; [|done]. unfold session_key. symmetry.
    by apply strftime_same_second.
  - intros a b key members Hin Ha Hb Hva Hvb.
    apply (Hmem _ _ _ Hin) in Ha as [Hka _].
    apply (Hmem _ _ _ Hin) in Hb as [Hkb _].
    apply strftime_inj; [done..|]. unfold session_key in *. congruence.
  - intros a b key members Hin Ha Hct Hb.
    apply (Hmem _ _ _ Hin) in Ha as [Hka _].
    apply (Hmem _ _ _ Hin) in Hb as [Hkb _].
    unfold session_key in *. rewrite Hct in Hkb.
    apply (strftime_next_second (creation_time a)). congruence.
Qed.

Lemma group_files_by_session_partition_witness :
  let a := sample_chapter 0 (10 # 1) in
  exists members,
    (session_key a, members) ∈ group_files_by_session [a; next_second a]
    /\ a ∈ members.
Proof.
  intros a.
  apply (proj1 (proj2 (proj2
           (group_files_by_session_partition [a; next_second a])))).
  constructor.
Defined.

(** Scenario B, evaluated: two files created one second apart end up in
    two sessions. *)
Example scenario_one_second_apart :
  let a := sample_chapter 0 (10 # 1) in
  group_files_by_session [a; next_second a]
  = [("2024-01-01 00:00:00", [a]); ("2024-01-01 00:00:01", [next_second a])].
Proof. vm_compute. reflexivity. Qed.

(** ** The directory scan *)

Lemma str_app_inj_r (a a' b b' : string) :
  String.length b = String.length b' ->
  a +:+ b = a' +:+ b' -> a = a' /\ b = b'.
Proof.
  intros Hlen Heq. apply str_app_inj; [|done].
  apply (f_equal String.length) in Heq. rewrite !str_length_app in Heq. lia.
Qed.

Lemma endswith_MP4_not_mp4 (s : string) :
  Str.endswith s ".MP4" = true -> Str.endswith s ".mp4" = false.
Proof.
  intros [p ->]%endswith_app.
  destruct (Str.endswith (p +:+ ".MP4") ".mp4") eqn:H; [|done].
  apply endswith_app in H as [p' H].
  by apply str_app_inj_r in H as [_ [=]].
Qed.

Lemma join_suffix (a b : string) : exists p, PosixPath.join a b = p +:+ b.
Proof.
  unfold PosixPath.join.
  destruct (PosixPath.is_absolute b); [by exists EmptyString|].
  destruct (String.eqb a EmptyString || Str.endswith a "/"); [by exists a|].
  exists (a +:+ "/"). by rewrite str_app_assoc.
Qed.

Lemma join_endswith (a b suffix : string) :
  Str.endswith b suffix = true ->
  Str.endswith (PosixPath.join a b) suffix = true.
Proof.
  intros [q ->]%endswith_app. destruct (join_suffix a (q +:+ suffix)) as [p ->].
  apply endswith_app. exists (p +:+ q). by rewrite str_app_assoc.
Qed.

Lemma has_sep_app (a b : string) :
  PosixPath.has_sep (a +:+ b) = PosixPath.has_sep a || PosixPath.has_sep b.
Proof.
  induction a as [|c a IH]; [done|].
  rewrite str_app_cons. simpl. by rewrite IH, orb_assoc.
Qed.

Lemma basename_no_sep (s : string) :
  PosixPath.has_sep s = false -> PosixPath.basename s = s.
Proof.
  destruct s as [|c s]; [done|]. simpl.
  intros [Hc Hs]%orb_false_elim. by rewrite Hs, Hc.
Qed.

Lemma basename_app (a b : string) :
  PosixPath.has_sep b = false ->
  PosixPath.basename (a +:+ b) = PosixPath.basename a +:+ b.
Proof.
  intros Hb. induction a as [|c a IH].
  - by rewrite str_app_nil_l, basename_no_sep.
  - rewrite str_app_cons. simpl. rewrite has_sep_app, Hb, orb_false_r.
    destruct (PosixPath.has_sep a); [done|].
    by destruct (Ascii.eqb c "/").
Qed.

Lemma basename_endswith (p suffix : string) :
  PosixPath.has_sep suffix = false ->
  Str.endswith p suffix = true ->
  Str.endswith (PosixPath.basename p) suffix = true.
Proof.
  intros Hs [q ->]%endswith_app. rewrite basename_app by done.
  apply endswith_app. by eexists.
Qed.

(** Every path the scan lists ends in [.MP4], in both modes. *)
Lemma list_mp4_files_in_dir_MP4 (directory : string) (entries : list fs_node)
    (recursive : bool) (path : string) :
  path ∈ list_mp4_files_in_dir directory entries recursive ->
  Str.endswith path ".MP4" = true.
Proof.
  unfold list_mp4_files_in_dir. rewrite list_elem_of_In.
  destruct recursive.
  - intros ([root files] & _ & (file & _ & Hin)%in_flat_map)%in_flat_map.
    destruct (Str.endswith file ".MP4") eqn:Hext; [|done].
    destruct (parse_filename file) as [chapter session].
    destruct (is_some chapter && is_some session); [|done].
    destruct Hin as [<-|[]]. by apply join_endswith.
  - intros (n & _ & Hin)%in_flat_map.
    destruct (is_file n && Str.endswith (node_name n) ".MP4") eqn:Hn; [|done].
    apply andb_prop in Hn as [_ Hext].
    destruct Hin as [<-|[]]. by apply join_endswith.
Qed.

Section PipelineFacts.
Variable get_creation_time_and_duration : string -> result (datetime * Q).
Variable relpath : string -> string -> string.

Local Abbreviation loop := (metadata_loop get_creation_time_and_duration relpath).

(** The probe is called on listed paths only. *)
Lemma metadata_loop_probed (directory : string) (paths : list string)
    (path : string) :
  path ∈ (loop directory paths).1 -> path ∈ paths.
Proof.
  induction paths as [|p paths IH]; simpl; [done|].
  destruct (get_creation_time_and_duration p) as [[t d]|e]; simpl.
  - destruct (parse_filename (PosixPath.basename p)) as [c s].
    destruct (loop directory paths) as [probed r]. simpl in *.
    intros [->|Hin]%elem_of_cons; [constructor|].
    constructor. by apply IH.
  - intros ->%list_elem_of_singleton. constructor.
Qed.

(** Every record carries the base name of a listed path, decoded by
    [parse_filename]. *)
Lemma metadata_loop_records (directory : string) (paths : list string)
    (files_metadata : list file_meta) (fm : file_meta) :
  (loop directory paths).2 = Ok files_metadata ->
  fm ∈ files_metadata ->
  exists path, path ∈ paths
    /\ file fm = PosixPath.basename path
    /\ (chapter fm, session fm) = parse_filename (PosixPath.basename path).
Proof.
  revert files_metadata.
  induction paths as [|p paths IH]; simpl; intros fms.
  - intros [= <-] Hin. by apply elem_of_nil in Hin.
  - destruct (get_creation_time_and_duration p) as [[t d]|e]; simpl; [|done].
    destruct (parse_filename (PosixPath.basename p)) as [c s] eqn:Hp.
    destruct (loop directory paths) as [probed r]. simpl in *.
    destruct r as [fms'|e]; simpl; [|done].
    intros [= <-] [->|Hin]%elem_of_cons.
    + exists p. simpl. split; [constructor|]. by rewrite Hp.
    + destruct (IH _ eq_refl Hin) as (path & Hpath & Hfile).
      exists path. split; [by constructor|done].
Qed.

End PipelineFacts.

Lemma process_sessions_entries (sessions : list (list file_meta))
    (results : list timeline_entry) (e : timeline_entry) :
  process_sessions sessions = Ok results ->
  e ∈ results ->
  exists fm, fm ∈ concat sessions /\ made_from fm e.
Proof.
  revert results. induction sessions as [|files sessions IH]; simpl.
  - intros results [= <-] Hin. by apply elem_of_nil in Hin.
  - intros results.
    destruct (process_files_in_session files) as [rs|] eqn:Hrs; [|done].
    destruct (process_sessions sessions) as [rest|]; [|done].
    intros [= <-] [Hin|Hin]%elem_of_app.
    + apply process_files_in_session_entries in Hrs as (sf & Hperm & Hall).
      apply list_elem_of_lookup in Hin as [i Hi].
      destruct (Forall2_lookup_r _ _ _ _ _ Hall Hi) as (fm & Hfm & Hent).
      exists fm. split; [|done]. apply elem_of_app. left.
      rewrite <- Hperm. by eapply list_elem_of_lookup_2.
    + destruct (IH _ eq_refl Hin) as (fm & Hfm & Hent).
      exists fm. split; [|done]. apply elem_of_app. by right.
Qed.

(** C8. A file whose name ends in lowercase [.mp4] leaves no trace, in
    either scan mode: no listed path and no probed path ends in [.mp4], and
    no record, no member of a session and no timeline entry carries such a
    name. *)
Theorem lowercase_extension_excluded
    (get_creation_time_and_duration : string -> result (datetime * Q))
    (relpath : string -> string -> string)
    (directory : string) (entries : list fs_node) (recursive : bool)
    (name : string) :
  Str.endswith name ".mp4" = true ->
  let listed := list_mp4_files_in_dir directory entries recursive in
  let scan :=
    get_file_metadata get_creation_time_and_duration relpath
      directory entries recursive in
  (forall root, PosixPath.join root name ∉ listed)
  /\ (forall root, PosixPath.join root name ∉ scan.1)
  /\ (forall files_metadata, scan.2 = Ok files_metadata ->
        (forall fm, fm ∈ files_metadata -> file fm <> name)
        /\ (forall key members fm,
              (key, members) ∈ group_files_by_session files_metadata ->
              fm ∈ members -> file fm <> name))
  /\ (forall results,
        process_videos get_creation_time_and_duration relpath
          directory entries recursive = Ok results ->
        forall e, e ∈ results -> Filename e <> name).
Proof.
  intros Hname listed scan.
  assert (forall path, path ∈ listed -> Str.endswith path ".mp4" = false)
    as Hlisted.
  { intros path Hin. by eapply endswith_MP4_not_mp4, list_mp4_files_in_dir_MP4. }
  assert (forall root, PosixPath.join root name ∉ listed) as H1.
  { intros root Hin. apply Hlisted in Hin.
    by rewrite join_endswith in Hin. }
  assert (forall files_metadata fm, scan.2 = Ok files_metadata ->
            fm ∈ files_metadata -> file fm <> name) as H3.
  { intros fms fm Hscan Hfm Heq.
    destruct (metadata_loop_records _ _ _ _ _ _ Hscan Hfm)
      as (path & Hpath & Hfile & _).
    apply list_mp4_files_in_dir_MP4 in Hpath.
    apply (basename_endswith _ ".MP4" eq_refl) in Hpath.
    apply endswith_MP4_not_mp4 in Hpath. congruence. }
  assert (forall files_metadata key members fm, scan.2 = Ok files_metadata ->
            (key, members) ∈ group_files_by_session files_metadata ->
            fm ∈ members -> fm ∈ files_metadata) as Hgrouped.
  { intros fms key members fm _ Hin Hfm.
    rewrite <- (group_from_concat [] fms). simpl.
    apply list_elem_of_In, in_concat. exists members.
    split; apply list_elem_of_In; [|done].
    apply list_elem_of_fmap. by exists (key, members). }
  split; [done|]. split; [|split].
  - intros root Hin. apply (H1 root).
    by eapply metadata_loop_probed.
  - intros fms Hscan. split; [by eauto|].
    intros key members fm Hin Hfm. eapply H3; [done|]. by eapply Hgrouped.
  - intros results. unfold process_videos. fold scan.
    destruct scan.2 as [fms|] eqn:Hscan; [|done]. simpl.
    intros Hres e He.
    destruct (process_sessions_entries _ _ _ Hres He) as (fm & Hfm & Hent).
    destruct Hent as (-> & _). eapply H3; [done|].
    by rewrite <- (group_from_concat [] fms).
Qed.

Lemma lowercase_extension_excluded_witness :
  Str.endswith "ABCDEFGH.mp4" ".mp4" = true
  /\ forall root,
       PosixPath.join root "ABCDEFGH.mp4"
       ∉ list_mp4_files_in_dir "videos"
           [File "ABCDEFGH.mp4"; File "GX010007.MP4"] false.
Proof.
  split; [reflexivity|].
  apply (lowercase_extension_excluded
           (fun _ => Raise ProbeError) (fun a _ => a)
           "videos" [File "ABCDEFGH.mp4"; File "GX010007.MP4"] false
           "ABCDEFGH.mp4").
  reflexivity.
Defined.

(** *** Names the decoder rejects *)

Lemma fs_node_nested_ind (P : fs_node -> Prop) :
  (forall name, P (File name)) ->
  (forall name entries, Forall P entries -> P (Dir name entries)) ->
  (forall name, P (Other name)) ->
  forall n, P n.
Proof.
  intros HF HD HO. fix IH 1. intros [name|name entries|name];
    [apply HF| |apply HO].
  apply HD. induction entries as [|n entries IHe]; constructor.
  - apply IH.
  - apply IHe.
Qed.

Lemma files_of_names (entries : list fs_node) (f : string) :
  forallb names_ok entries = true -> f ∈ files_of entries ->
  PosixPath.has_sep f = false.
Proof.
  unfold files_of. intros Hok (n & -> & Hn)%list_elem_of_fmap.
  apply list_elem_of_filter in Hn as [Hfile Hn].
  rewrite forallb_forall in Hok. apply list_elem_of_In, Hok in Hn.
  destruct n; [|done|]; simpl in *; by apply negb_true_iff.
Qed.

Lemma walk_node_names (n : fs_node) : forall parent root files f,
  names_ok n = true ->
  In (root, files) (walk_node parent n) -> f ∈ files ->
  PosixPath.has_sep f = false.
Proof.
  induction n as [name|name entries IH|name] using fs_node_nested_ind;
    intros parent root files f Hok Hin Hf; [done| |done].
  simpl in Hok, Hin. apply andb_prop in Hok as [_ Hok].
  destruct Hin as [[= <- <-]|Hin]; [by eapply files_of_names|].
  apply in_flat_map in Hin as (n & Hn & Hin).
  rewrite Forall_forall in IH. rewrite forallb_forall in Hok.
  eapply (IH n); [by apply list_elem_of_In|by apply Hok|done..].
Qed.

Lemma walk_names (top : string) (entries : list fs_node) root files f :
  forallb names_ok entries = true ->
  In (root, files) (walk top entries) -> f ∈ files ->
  PosixPath.has_sep f = false.
Proof.
  intros Hok [[= <- <-]|Hin] Hf; [by eapply files_of_names|].
  apply in_flat_map in Hin as (n & Hn & Hin).
  rewrite forallb_forall in Hok.
  eapply walk_node_names; [by apply Hok|done..].
Qed.

Lemma basename_sep_end (a : string) :
  PosixPath.basename (a +:+ "/") = EmptyString.
Proof.
  induction a as [|c a IH]; [done|].
  rewrite str_app_cons. simpl. rewrite has_sep_app. simpl.
  by rewrite orb_true_r.
Qed.

Lemma basename_join (a b : string) :
  PosixPath.has_sep b = false -> PosixPath.basename (PosixPath.join a b) = b.
Proof.
  intros Hb. unfold PosixPath.join.
  destruct (PosixPath.is_absolute b) eqn:Hp.
  { destruct b as [|c b]; [done|]. simpl in Hp, Hb. by rewrite Hp in Hb. }
  destruct (String.eqb_spec a EmptyString) as [->|_]; simpl.
  { by rewrite str_app_nil_l, basename_no_sep. }
  destruct (Str.endswith a "/") eqn:Ha.
  - apply endswith_app in Ha as [p ->].
    by rewrite basename_app, basename_sep_end.
  - rewrite <- str_app_assoc. by rewrite basename_app, basename_sep_end.
Qed.

(** In the recursive scan every listed path is a decoded name joined to
    its directory. *)
Lemma list_mp4_files_recursive (directory : string) (entries : list fs_node)
    (path : string) :
  forallb names_ok entries = true ->
  path ∈ list_mp4_files_in_dir directory entries true ->
  exists c s, parse_filename (PosixPath.basename path) = (Some c, Some s).
Proof.
  intros Hok. unfold list_mp4_files_in_dir. rewrite list_elem_of_In.
  intros ([root files] & Hw & (file & Hfile & Hin)%in_flat_map)%in_flat_map.
  destruct (Str.endswith file ".MP4"); [|done].
  destruct (parse_filename file) as [[c|] [s|]] eqn:Hp; try done.
  destruct Hin as [<-|[]].
  rewrite basename_join; [by eauto|].
  eapply walk_names; [done..|]. by apply list_elem_of_In.
Qed.

(** The recursive scan keeps the invariant: every record it builds has a
    chapter and a session. *)
Lemma recursive_scan_records_decoded
    (get_creation_time_and_duration : string -> result (datetime * Q))
    (relpath : string -> string -> string)
    (directory : string) (entries : list fs_node)
    (files_metadata : list file_meta) (fm : file_meta) :
  forallb names_ok entries = true ->
  (get_file_metadata get_creation_time_and_duration relpath
     directory entries true).2 = Ok files_metadata ->
  fm ∈ files_metadata ->
  is_Some (chapter fm) /\ is_Some (session fm).
Proof.
  intros Hok Hscan Hfm.
  destruct (metadata_loop_records _ _ _ _ _ _ Hscan Hfm)
    as (path & Hpath & _ & Hparse).
  destruct (list_mp4_files_recursive _ _ _ Hok Hpath) as (c & s & Hcs).
  rewrite Hcs in Hparse. injection Hparse as -> ->. eauto.
Qed.

(** C4, evaluated where it fails.  The non-recursive scan lists a file by
    its extension alone; for a name the decoder rejects, a record with
    neither chapter nor session is built and travels on to the output:
    whatever the probe answers, [process_videos] returns an entry without
    chapter and session unless the times are out of range, and it does
    return for a time before the year 9999 and a duration of at most a
    day.  The recursive scan of the same directory drops the file. *)
Theorem nonrecursive_scan_keeps_rejected_name
    (relpath : string -> string -> string) (t : datetime) (d : Q) :
  let probe := fun _ : string => Ok (t, d) in
  let placeholder :=
    {| file := "HOLIDAY.MP4"; creation_time := t; duration := d;
       chapter := None; session := None;
       folder := relpath "videos" "videos" |} in
  parse_filename "HOLIDAY.MP4" = (None, None)
  /\ get_file_metadata probe relpath "videos" [File "HOLIDAY.MP4"] false
     = (["videos/HOLIDAY.MP4"], Ok [placeholder])
  /\ get_file_metadata probe relpath "videos" [File "HOLIDAY.MP4"] true
     = ([], Ok [])
  /\ match process_videos probe relpath "videos" [File "HOLIDAY.MP4"] false
     with
     | Ok results =>
         exists e,
           results = [e]
           /\ Filename e = "HOLIDAY.MP4" /\ Chapter e = None
           /\ Session e = None /\ Start_Time e = t
     | Raise ex => ex = OverflowError
     end
  /\ ((0 <= d <= 86400)%Q -> 0 <= t < mk_datetime 9999 1 1 0 0 0 0 ->
      exists e,
        process_videos probe relpath "videos" [File "HOLIDAY.MP4"] false
        = Ok [e]).
Proof.
  intros probe placeholder.
  split; [reflexivity|]. split; [reflexivity|]. split; [reflexivity|].
  assert (process_videos probe relpath "videos" [File "HOLIDAY.MP4"] false
          = (results ← process_files_in_session [placeholder];
             mret (results ++ []))) as -> by reflexivity.
  split.
  - destruct (process_files_in_session [placeholder]) as [results|ex] eqn:Hr;
      simpl.
    + apply process_files_in_session_inv in Hr as (sf & [= <-] & -> & _).
      rewrite app_nil_r. eexists. split; [reflexivity|]. by repeat split.
    + by apply process_files_in_session_Raise in Hr as [[_ [=]]|[-> _]].
  - intros [Hd0 Hd1] [Ht0 Ht1].
    rewrite (process_files_in_session_fits [placeholder] [placeholder]);
      [by eexists| |done].
    repeat constructor; [done..|]. simpl.
    change (inject_Z us_per_second) with (1000000 # 1)%Q.
    assert (inject_Z t < inject_Z (mk_datetime 9999 1 1 0 0 0 0))%Q as Hq
      by (unfold Qlt, inject_Z; simpl; lia).
    change (inject_Z (mk_datetime 9999 1 1 0 0 0 0))
      with (315506361600000000 # 1)%Q in Hq.
    change (inject_Z datetime_end) with (315537897600000000 # 1)%Q.
    change (inject_Z (Z.of_nat 1)) with 1%Q. lra.
Qed.

(** ** The reconstructor over the store *)

Lemma keeps_refl σ : keeps σ σ.
Proof. by intros l o. Qed.

Lemma alloc_fresh (σ : store) : σ !! fresh (dom σ) = None.
Proof. apply not_elem_of_dom, is_fresh. Qed.

Lemma keeps_alloc (σ0 σ : store) (o : pyobj) :
  keeps σ0 σ -> keeps σ0 (<[fresh (dom σ):=o]> σ).
Proof.
  intros Hk l o' Hl. rewrite lookup_insert_ne; [by apply Hk|].
  intros <-. apply Hk in Hl. by rewrite alloc_fresh in Hl.
Qed.

Lemma keeps_update (σ0 σ : store) (l : loc) (o : pyobj) :
  σ0 !! l = None -> keeps σ0 σ -> keeps σ0 (<[l:=o]> σ).
Proof.
  intros Hnew Hk l' o' Hl. rewrite lookup_insert_ne; [by apply Hk|].
  intros <-. congruence.
Qed.

Lemma read_metas_store (items : list loc) (σ : store) :
  (read_metas items σ).2 = σ.
Proof.
  induction items as [|l items IH]; [done|].
  simpl. unfold mbind, ST_bind, read_meta.
  destruct (σ !! l) as [[| |]|]; try done. simpl.
  specialize IH. destruct (read_metas items σ) as [[fms|e] σ'];
    simpl in *; by subst.
Qed.

Lemma read_metas_Ok (items : list loc) (fms : list file_meta) (σ : store) :
  holds_metas σ items fms -> read_metas items σ = (Ok fms, σ).
Proof.
  induction 1 as [|l fm items fms Hl _ IH]; [done|].
  simpl. unfold mbind, ST_bind, read_meta. by rewrite Hl, IH.
Qed.

(** The loop leaves alone whatever existed before [results] did. *)
Lemma timeline_loop_st_keeps (items : list loc) (results : loc) :
  forall (σ0 σ : store) start_time prev_duration,
    σ0 !! results = None -> keeps σ0 σ ->
    keeps σ0 (timeline_loop_st items results start_time prev_duration σ).2.
Proof.
  induction items as [|l items IH]; intros σ0 σ st pd Hres Hk; [done|].
  simpl. unfold mbind, ST_bind, read_meta.
  destruct (σ !! l) as [[| fm |]|]; try done.
  unfold lift. destruct (loop_body fm st pd) as [entry|ex]; [|done].
  unfold alloc, list_append.
  set (e := fresh (dom σ)). set (σ1 := <[e:=_]> σ).
  assert (keeps σ0 σ1) as Hk1 by by apply keeps_alloc.
  destruct (σ1 !! results) as [[acc| |]|]; try done.
  apply IH; [done|]. by apply keeps_update.
Qed.

Lemma timeline_loop_st_cons (l : loc) (items : list loc) (results : loc)
    start_time prev_duration (σ : store) (fm : file_meta) :
  σ !! l = Some (PyMeta fm) ->
  timeline_loop_st (l :: items) results start_time prev_duration σ
  = match loop_body fm start_time prev_duration with
    | Raise ex => (Raise ex, σ)
    | Ok entry =>
        let e := fresh (dom σ) in
        let σ1 := <[e:=PyEntry entry]> σ in
        match σ1 !! results with
        | Some (PyList acc) =>
            timeline_loop_st items results (Some (Start_Time entry))
              (duration fm) (<[results:=PyList (acc ++ [e])]> σ1)
        | _ => (Raise BadReference, σ1)
        end
    end.
Proof.
  intros Hl. simpl.
  unfold mbind, ST_bind, read_meta, lift, alloc, list_append. rewrite Hl.
  destruct (loop_body fm start_time prev_duration) as [entry|ex]; [|done].
  simpl. by destruct (_ !! results) as [[| |]|].
Qed.

(** On a well-formed session the loop on the store does what the loop on
    values does.  When that returns, it appends to [results] references to
    new dictionaries that hold its entries; when that raises, it raises
    the same exception. *)
Lemma timeline_loop_st_run (items : list loc) :
  forall (fms : list file_meta) (σ : store) (results : loc) (acc : list loc)
         start_time prev_duration,
    holds_metas σ items fms ->
    σ !! results = Some (PyList acc) ->
    match timeline_loop fms start_time prev_duration with
    | Ok es =>
        exists σ' new,
          timeline_loop_st items results start_time prev_duration σ
          = (Ok tt, σ')
          /\ σ' !! results = Some (PyList (acc ++ new))
          /\ holds_entries σ' new es
          /\ (forall l, l ∈ new -> σ !! l = None)
          /\ (forall l o, l <> results -> σ !! l = Some o -> σ' !! l = Some o)
    | Raise e =>
        exists σ',
          timeline_loop_st items results start_time prev_duration σ
          = (Raise e, σ')
    end.
Proof.
  induction items as [|l items IH]; intros fms σ results acc st pd Hm Hres;
    inversion Hm as [|? fm ? fms' Hl Hrest]; subst.
  - exists σ, []. rewrite app_nil_r. repeat split; try done.
    + constructor.
    + by intros l ?%elem_of_nil.
  - rewrite (timeline_loop_st_cons _ _ _ _ _ _ _ Hl). cbn [timeline_loop].
    destruct (loop_body fm st pd) as [entry|ex];
      cbn [mbind result_bind]; [|by eexists].
    cbv zeta. set (e := fresh (dom σ)).
    assert (σ !! e = None) as He by apply alloc_fresh.
    assert (e <> results) as Hne by congruence.
    rewrite lookup_insert_ne, Hres by done.
    set (σ2 := <[results:=PyList (acc ++ [e])]> (<[e:=PyEntry entry]> σ)).
    assert (forall l o, l <> results -> σ !! l = Some o -> σ2 !! l = Some o)
      as Hσ2.
    { intros l' o Hl' Ho. unfold σ2.
      rewrite !lookup_insert_ne; [done|congruence|done]. }
    assert (holds_metas σ2 items fms') as Hrest2.
    { eapply Forall2_impl; [exact Hrest|]. intros l' fm' Hl'.
      apply Hσ2; [congruence|done]. }
    assert (σ2 !! results = Some (PyList (acc ++ [e]))) as Hres2
      by (unfold σ2; by rewrite lookup_insert_eq).
    pose proof (IH fms' σ2 results (acc ++ [e]) (Some (Start_Time entry))
                  (duration fm) Hrest2 Hres2) as Hrun.
    destruct (timeline_loop fms' (Some (Start_Time entry)) (duration fm))
      as [es|ex]; cbn [mret result_ret]; [|exact Hrun].
    destruct Hrun as (σ' & new & Hrun & Hres' & Hent & Hnew & Hkeep).
    exists σ', (e :: new). rewrite Hrun.
    split; [done|]. split; [by rewrite Hres', <- app_assoc|].
    assert (forall l, l ∈ new -> l <> e /\ l <> results /\ σ !! l = None) as Hn.
    { intros l' Hin. specialize (Hnew _ Hin). unfold σ2 in Hnew.
      destruct (decide (l' = results)) as [->|?];
        [by rewrite lookup_insert_eq in Hnew|].
      rewrite lookup_insert_ne in Hnew by done.
      destruct (decide (l' = e)) as [->|?];
        [by rewrite lookup_insert_eq in Hnew|].
      by rewrite lookup_insert_ne in Hnew. }
    split; [|split].
    + constructor; [|done].
      apply Hkeep; [done|]. unfold σ2.
      by rewrite lookup_insert_ne, lookup_insert_eq.
    + intros l' [->|Hin]%elem_of_cons; [done|]. by apply Hn.
    + intros l' o Hl' Ho. apply Hkeep; [done|]. by apply Hσ2.
Qed.

(** [sorted] treats related item lists alike: it looks at the keys only. *)
Section SortedParametric.
Context {A B : Type} (R : A -> B -> Prop).

Lemma insert_keyed_Forall2 k x y l l' :
  R x y -> Forall2 (keyed_rel R) l l' ->
  Forall2 (keyed_rel R) (insert_keyed k x l) (insert_keyed k y l').
Proof.
  intros Hxy. induction 1 as [|[k1 a] [k2 b] l l' [Hk Hab] Hl IH]; simpl.
  - by repeat constructor.
  - simpl in Hk. subst k2. destruct (k <=? k1).
    + by repeat constructor.
    + by repeat constructor.
Qed.

Lemma sort_keyed_Forall2 l l' :
  Forall2 (keyed_rel R) l l' -> Forall2 (keyed_rel R) (sort_keyed l) (sort_keyed l').
Proof.
  induction 1 as [|[k1 a] [k2 b] l l' [Hk Hab] Hl IH]; simpl; [constructor|].
  simpl in Hk. subst k2. by apply insert_keyed_Forall2.
Qed.

Lemma zip_keyed_Forall2 (ks : list Z) items items' :
  Forall2 R items items' -> Forall2 (keyed_rel R) (zip ks items) (zip ks items').
Proof.
  intros H. revert ks. induction H; intros [|k ks]; simpl; try constructor.
  - by split.
  - apply IHForall2.
Qed.

Lemma py_sorted_Forall2 (keys : list (option Z)) items items' :
  Forall2 R items items' ->
  match py_sorted keys items, py_sorted keys items' with
  | Ok s, Ok s' => Forall2 R s s'
  | Raise e, Raise e' => e = e'
  | _, _ => False
  end.
Proof.
  intros H. unfold py_sorted.
  destruct H as [|x x' ? ? Hx [|y y' items items' Hy H]].
  - constructor.
  - by repeat constructor.
  - destruct (mapM id keys) as [ks|]; [|done].
    apply Forall2_fmap.
    eapply Forall2_impl; [apply sort_keyed_Forall2, zip_keyed_Forall2|].
    + by repeat constructor.
    + by intros p q [_ ?].
Qed.

End SortedParametric.

Lemma ST_bind_run {A B : Type} (m : ST A) (k : A -> ST B) (σ : store) :
  (m ≫= k) σ =
  match m σ with
  | (Ok a, σ') => k a σ'
  | (Raise e, σ') => (Raise e, σ')
  end.
Proof. reflexivity. Qed.

Lemma process_files_in_session_st_keeps (files : loc) (σ : store) :
  keeps σ (process_files_in_session_st files σ).2.
Proof.
  unfold process_files_in_session_st, mbind, ST_bind, read_list.
  destruct (σ !! files) as [[items| |]|]; try apply keeps_refl.
  pose proof (read_metas_store items σ) as Hσ.
  destruct (read_metas items σ) as [[metas|e] σ1]; simpl in Hσ; subst σ1;
    [|apply keeps_refl].
  unfold lift.
  destruct (py_sorted (chapter <$> metas) items) as [sorted_items|e];
    [|apply keeps_refl].
  unfold alloc.
  set (σ1 := <[fresh (dom σ):=PyList sorted_items]> σ).
  set (results := fresh (dom σ1)).
  set (σ2 := <[results:=PyList []]> σ1).
  assert (keeps σ σ1) as H1 by apply keeps_alloc, keeps_refl.
  assert (σ !! results = None) as Hres.
  { destruct (σ !! results) as [o|] eqn:Ho; [|done].
    apply H1 in Ho. unfold results in Ho. by rewrite alloc_fresh in Ho. }
  pose proof (timeline_loop_st_keeps sorted_items results σ σ2 None 0%Q Hres)
    as Hk.
  destruct (timeline_loop_st sorted_items results None 0%Q σ2) as [[[]|e] σ'];
    apply Hk; by apply keeps_update.
Qed.

Lemma process_files_in_session_st_run (files : loc) (σ : store)
    (items : list loc) (fms : list file_meta) :
  σ !! files = Some (PyList items) -> holds_metas σ items fms ->
  process_files_in_session_st files σ
  = match py_sorted (chapter <$> fms) items with
    | Raise e => (Raise e, σ)
    | Ok sorted_items =>
        let σ1 := <[fresh (dom σ):=PyList sorted_items]> σ in
        let results := fresh (dom σ1) in
        match timeline_loop_st sorted_items results None 0%Q
                (<[results:=PyList []]> σ1) with
        | (Ok _, σ') => (Ok results, σ')
        | (Raise e, σ') => (Raise e, σ')
        end
    end.
Proof.
  intros Hfiles Hitems. unfold process_files_in_session_st.
  rewrite ST_bind_run. unfold read_list. rewrite Hfiles.
  rewrite ST_bind_run, (read_metas_Ok _ _ _ Hitems).
  rewrite ST_bind_run. unfold lift.
  destruct (py_sorted (chapter <$> fms) items) as [sorted_items|e]; [|done].
  rewrite ST_bind_run. unfold alloc at 1.
  rewrite ST_bind_run. unfold alloc at 1.
  rewrite ST_bind_run. cbv zeta.
  by destruct (timeline_loop_st _ _ _ _ _) as [[[]|e] σ'].
Qed.

Lemma process_files_in_session_st_spec (files : loc) (σ : store)
    (fms : list file_meta) :
  session_at σ files fms ->
  match process_files_in_session fms with
  | Ok es =>
      exists σ' results items,
        process_files_in_session_st files σ = (Ok results, σ')
        /\ σ !! results = None
        /\ σ' !! results = Some (PyList items)
        /\ holds_entries σ' items es
        /\ (forall l, l ∈ items -> σ !! l = None)
  | Raise e => exists σ', process_files_in_session_st files σ = (Raise e, σ')
  end.
Proof.
  intros (items & Hfiles & Hitems).
  rewrite (process_files_in_session_st_run _ _ _ _ Hfiles Hitems).
  pose proof (py_sorted_Forall2
                (fun l fm => σ !! l = Some (PyMeta fm))
                (chapter <$> fms) items fms Hitems) as Hsorted.
  unfold process_files_in_session.
  destruct (py_sorted (chapter <$> fms) items) as [sorted_items|e] eqn:Hs,
           (py_sorted (chapter <$> fms) fms) as [sorted_files|e'];
    try done; [|subst; by eexists].
  cbn [mbind result_bind]. cbv zeta.
  set (l1 := fresh (dom σ)).
  set (σ1 := <[l1:=PyList sorted_items]> σ).
  set (results := fresh (dom σ1)).
  set (σ2 := <[results:=PyList []]> σ1).
  assert (σ !! l1 = None) as Hl1 by apply alloc_fresh.
  assert (σ1 !! results = None) as Hr1 by apply alloc_fresh.
  assert (results <> l1) as Hne.
  { intros Heq. rewrite Heq in Hr1. unfold σ1 in Hr1.
    by rewrite lookup_insert_eq in Hr1. }
  assert (σ !! results = None) as Hres.
  { unfold σ1 in Hr1. by rewrite lookup_insert_ne in Hr1. }
  assert (forall l o, σ !! l = Some o -> σ2 !! l = Some o) as Hσ2.
  { intros l o Ho. unfold σ2, σ1.
    rewrite !lookup_insert_ne; [done|congruence..]. }
  assert (holds_metas σ2 sorted_items sorted_files) as Hm2.
  { eapply Forall2_impl; [exact Hsorted|]. intros l fm. apply Hσ2. }
  assert (σ2 !! results = Some (PyList [])) as Hres2
    by (unfold σ2; by rewrite lookup_insert_eq).
  pose proof (timeline_loop_st_run sorted_items sorted_files σ2 results []
                None 0%Q Hm2 Hres2) as Hloop.
  destruct (timeline_loop sorted_files None 0%Q) as [es|ex];
    [|destruct Hloop as [σ' ->]; by eexists].
  destruct Hloop as (σ' & new & Hrun & Hres' & Hent & Hnew & Hkeep).
  rewrite Hrun. exists σ', results, new.
  split; [done|]. split; [done|]. split; [done|]. split; [done|].
  intros l Hl. specialize (Hnew _ Hl).
  destruct (σ !! l) as [o|] eqn:Ho; [|done].
  apply Hσ2 in Ho. congruence.
Qed.

(** C9. [process_files_in_session] does not change its input.  Whatever
    the store and the reference it is called on, every object that existed
    before the call is the same after it, whether the call returns or
    raises.  On a list of records this means the list and each record read
    as before; the call sorts a copy, and what it returns is a new list of
    new dictionaries, holding the entries of the function on values. *)
Theorem process_files_in_session_st_frame (files : loc) (σ : store) :
  let r := (process_files_in_session_st files σ).1 in
  let σ' := (process_files_in_session_st files σ).2 in
  keeps σ σ'
  /\ forall fms, session_at σ files fms ->
       session_at σ' files fms
       /\ match r with
          | Ok results =>
              σ !! results = None
              /\ exists es items,
                   process_files_in_session fms = Ok es
                   /\ σ' !! results = Some (PyList items)
                   /\ holds_entries σ' items es
                   /\ (forall l, l ∈ items -> σ !! l = None)
          | Raise e => process_files_in_session fms = Raise e
          end.
Proof.
  intros r σ'.
  pose proof (process_files_in_session_st_keeps files σ) as Hk. fold σ' in Hk.
  split; [done|]. intros fms Hs. split.
  - destruct Hs as (items & Hfiles & Hitems). exists items. split; [by apply Hk|].
    eapply Forall2_impl; [exact Hitems|]. intros l fm. apply Hk.
  - pose proof (process_files_in_session_st_spec files σ fms Hs) as Hspec.
    subst r σ'.
    destruct (process_files_in_session fms) as [es|e].
    + destruct Hspec as (σ1 & results & items & -> & Hnew & Hres & Hent & Hfresh).
      simpl. split; [done|]. by exists es, items.
    + destruct Hspec as [σ1 ->]. done.
Qed.

(** C6. Running the reconstructor twice on the same input gives the same
    output.  The second call, made on the store the first one left, returns
    a different list object whose entries have the same values as those of
    the first call, which are still in place; if the first call raises, so
    does the second, with the same exception. *)
Theorem process_files_in_session_st_twice (files : loc) (σ : store)
    (fms : list file_meta) :
  session_at σ files fms ->
  let r1 := (process_files_in_session_st files σ).1 in
  let σ1 := (process_files_in_session_st files σ).2 in
  let r2 := (process_files_in_session_st files σ1).1 in
  let σ2 := (process_files_in_session_st files σ1).2 in
  match r1, r2 with
  | Ok results1, Ok results2 =>
      results1 <> results2
      /\ exists es,
           process_files_in_session fms = Ok es
           /\ results_at σ1 results1 es
           /\ results_at σ2 results2 es
           /\ results_at σ2 results1 es
  | Raise e1, Raise e2 => e1 = e2 /\ process_files_in_session fms = Raise e1
  | _, _ => False
  end.
Proof.
  intros Hs r1 σ1 r2 σ2.
  pose proof (process_files_in_session_st_spec files σ fms Hs) as H1.
  pose proof (process_files_in_session_st_keeps files σ) as Hk1. fold σ1 in Hk1.
  assert (session_at σ1 files fms) as Hs1.
  { destruct Hs as (items & Hfiles & Hitems). exists items.
    split; [by apply Hk1|].
    eapply Forall2_impl; [exact Hitems|]. intros l fm. apply Hk1. }
  pose proof (process_files_in_session_st_spec files σ1 fms Hs1) as H2.
  pose proof (process_files_in_session_st_keeps files σ1) as Hk2.
  fold σ2 in Hk2. subst r1 r2 σ2.
  destruct (process_files_in_session fms) as [es|e].
  - destruct H1 as (σ1' & res1 & items1 & Hrun1 & Hnew1 & Hres1 & Hent1 & _).
    destruct H2 as (σ2' & res2 & items2 & Hrun2 & Hnew2 & Hres2 & Hent2 & _).
    subst σ1. rewrite Hrun1 in *. simpl in *. rewrite Hrun2 in *. simpl in *.
    split; [congruence|]. exists es. split; [done|].
    split; [by exists items1|]. split; [by exists items2|].
    exists items1. split; [by apply Hk2|].
    eapply Forall2_impl; [exact Hent1|]. intros l e. apply Hk2.
  - destruct H1 as [σ1' Hrun1]. subst σ1. rewrite Hrun1 in *. simpl in *.
    destruct H2 as [σ2' ->]. done.
Qed.

(** Sorted input stays as it is: reconstruction of the sorted session is
    reconstruction of the session. *)
Lemma process_files_in_session_sorted (files sorted_files : list file_meta) :
  py_sorted (chapter <$> files) files = Ok sorted_files ->
  process_files_in_session sorted_files = process_files_in_session files.
Proof.
  intros Hs. unfold process_files_in_session. rewrite Hs.
  assert (py_sorted (chapter <$> sorted_files) sorted_files = Ok sorted_files)
    as ->; [|done].
  unfold py_sorted in Hs.
  destruct files as [|x [|y files]]; try by injection Hs as <-.
  destruct (mapM id (chapter <$> x :: y :: files)) as [ks|] eqn:Hks; [|done].
  injection Hs as <-.
  set (dec := sort_keyed (zip ks (x :: y :: files))).
  assert (length ks = length (x :: y :: files)) as Hlen.
  { apply length_mapM in Hks. by rewrite length_fmap in Hks. }
  assert (Forall (fun p => chapter p.2 = Some p.1) dec) as Hkeys.
  { unfold dec. rewrite sort_keyed_perm.
    apply mapM_Some in Hks. apply Forall2_fmap_l in Hks.
    clear -Hks. induction Hks; simpl; constructor; auto. }
  assert (chapter <$> dec.*2 = Some <$> dec.*1) as Hch.
  { clear -Hkeys. induction Hkeys as [|[k fm] dec Hk _ IH]; [done|].
    rewrite !fmap_cons. simpl in *. by rewrite Hk, IH. }
  unfold py_sorted. rewrite Hch, mapM_id_Some, zip_fst_snd.
  rewrite sort_keyed_id; [by destruct (dec.*2) as [|? [|? ?]]|].
  apply sort_keyed_sorted.
Qed.

Lemma sample_store_session : session_at sample_store 1%positive sample_session.
Proof.
  exists [2%positive; 3%positive]. split; [reflexivity|].
  repeat constructor.
Defined.

Lemma process_files_in_session_st_frame_witness :
  session_at sample_store 1%positive sample_session
  /\ session_at (process_files_in_session_st 1%positive sample_store).2
       1%positive sample_session.
Proof.
  split; [exact sample_store_session|].
  pose proof (process_files_in_session_st_frame 1%positive sample_store) as H.
  cbv zeta in H. destruct H as [_ H].
  destruct (H sample_session sample_store_session) as [H1 _].
  exact H1.
Defined.

Lemma process_files_in_session_st_twice_witness :
  session_at sample_store 1%positive sample_session
  /\ let r1 := (process_files_in_session_st 1%positive sample_store).1 in
     let σ1 := (process_files_in_session_st 1%positive sample_store).2 in
     let r2 := (process_files_in_session_st 1%positive σ1).1 in
     let σ2 := (process_files_in_session_st 1%positive σ1).2 in
     match r1, r2 with
     | Ok results1, Ok results2 =>
         results1 <> results2
         /\ exists es,
              process_files_in_session sample_session = Ok es
              /\ results_at σ1 results1 es
              /\ results_at σ2 results2 es
              /\ results_at σ2 results1 es
     | Raise e1, Raise e2 =>
         e1 = e2 /\ process_files_in_session sample_session = Raise e1
     | _, _ => False
     end.
Proof.
  split; [exact sample_store_session|].
  exact (process_files_in_session_st_twice
           1%positive sample_store sample_session sample_store_session).
Defined.

(** The first call on the sample store returns a new list. *)
Example sample_store_run :
  (process_files_in_session_st 1%positive sample_store).1 = Ok 5%positive.
Proof. vm_compute. reflexivity. Qed.



(** * Further properties *)

(** ** The reconstructor *)

(** The rounded durations add up to the durations, to within half a
    microsecond (and the error of a floating-point multiplication) for
    each record. *)
Lemma elapsed_accuracy (l : list file_meta) :
  (Qabs (inject_Z (elapsed l) - total_duration l * inject_Z us_per_second)
   <= inject_Z (Z.of_nat (length l)) * ((1 # 2) + float_slack))%Q.
Proof.
  induction l as [|fm l IH]; [by vm_compute|].
  cbn [elapsed total_duration foldr length].
  fold (elapsed l). fold (total_duration l).
  rewrite Nat2Z.inj_succ. unfold Z.succ. rewrite !inject_Z_plus.
  pose proof (microseconds_accuracy (duration fm)) as Ha.
  apply Qabs_Qle_condition in Ha, IH. apply Qabs_Qle_condition.
  change (inject_Z us_per_second) with (1000000 # 1)%Q in *.
  change (inject_Z 1) with 1%Q.
  unfold float_slack in *.
  set (u := inject_Z (microseconds (duration fm))) in *.
  set (el := inject_Z (elapsed l)) in *.
  set (n := inject_Z (Z.of_nat (length l))) in *.
  clearbody u el n. lra.
Qed.

(** X1. Start times in closed form.  When a session with every chapter
    present gets its entries, there are as many as records, and entry [i]
    is made from the [i]-th record in ascending chapter order; it starts
    at the creation time of the first sorted record plus the durations of
    the records before it, each as [timedelta] rounds it, and stops one
    duration later.  So it starts at the first creation time plus the sum
    of the preceding durations to within half a microsecond (and the error
    of a floating-point multiplication) for each preceding record.  The
    creation times of the other records play no part. *)
Theorem start_times_closed_form (files : list file_meta)
    (results : list timeline_entry) :
  Forall (fun fm => is_Some (chapter fm)) files ->
  process_files_in_session files = Ok results ->
  exists sorted_files,
    sorted_files ≡ₚ files
    /\ StronglySorted chapter_le sorted_files
    /\ length results = length files
    /\ forall (i : nat) (e : timeline_entry),
         results !! i = Some e ->
         exists first fm,
           head sorted_files = Some first
           /\ sorted_files !! i = Some fm
           /\ Filename e = file fm
           /\ Start_Time e = creation_time first + elapsed (take i sorted_files)
           /\ Stop_Time e
              = creation_time first + elapsed (take (S i) sorted_files)
           /\ (Qabs (inject_Z (Start_Time e - creation_time first)
                     - total_duration (take i sorted_files)
                       * inject_Z us_per_second)
               <= inject_Z (Z.of_nat i) * ((1 # 2) + float_slack))%Q.
Proof.
  intros (sorted_files & Hs & Hperm & Hsorted)%sorted_files_Ok
         (sf & Hs' & -> & _)%process_files_in_session_inv.
  assert (sf = sorted_files) as -> by congruence.
  exists sorted_files. split; [done|]. split; [done|].
  pose proof (timeline_made_from sorted_files (session_start sorted_files))
    as Hent.
  split; [by rewrite <- (Forall2_length _ _ _ Hent), Hperm|].
  intros i e Hi.
  destruct (timeline_closed _ _ _ _ Hi) as (fm & Hl & Hm & Hst).
  destruct sorted_files as [|first l] eqn:Hsf; [done|]. rewrite <- Hsf in *.
  assert (session_start sorted_files = creation_time first) as Hstart
    by by rewrite Hsf.
  rewrite Hstart in Hst.
  exists first, fm. split; [by rewrite Hsf|]. split; [done|].
  destruct Hm as (Hf & _ & _ & _ & _ & Hstop).
  split; [done|]. split; [done|]. split.
  - rewrite Hstop, Hst, (elapsed_take_S _ _ _ Hl). lia.
  - replace (Start_Time e - creation_time first)
      with (elapsed (take i sorted_files)) by lia.
    pose proof (elapsed_accuracy (take i sorted_files)) as Ha.
    rewrite length_take in Ha. apply lookup_lt_Some in Hl.
    by rewrite Nat.min_l in Ha by lia.
Qed.

Lemma start_times_closed_form_witness :
  exists sorted_files results,
    process_files_in_session sample_session = Ok results
    /\ sorted_files ≡ₚ sample_session
    /\ StronglySorted chapter_le sorted_files
    /\ length results = 2%nat.
Proof.
  pose proof (process_files_in_session_fits sample_session
                [sample_chapter 1 (10 # 1); sample_chapter 2 (7 # 2)]
                sample_session_fits eq_refl) as Hr.
  destruct (start_times_closed_form sample_session _
              ltac:(repeat constructor; simpl; eauto) Hr)
    as (sorted_files & Hp & Hs & Hl & _).
  exists sorted_files. eexists. split; [exact Hr|].
  exact (conj Hp (conj Hs Hl)).
Defined.

(** X2. When the reconstructor raises.  It raises [TypeError] exactly when
    the session has at least two records and one of them has no chapter,
    whatever the times; otherwise it raises nothing but [OverflowError].
    A session of one record gets its entry exactly when the record's
    duration is a [timedelta] and takes its creation time to a [datetime].
    A session that fits in the range of [datetime] gets its entries when
    it has fewer than two records, chapter or not, or a chapter for every
    record. *)
Theorem process_files_in_session_raises (files : list file_meta) :
  (process_files_in_session files = Raise TypeError <->
   (2 <= length files)%nat /\ exists fm, fm ∈ files /\ chapter fm = None)
  /\ (forall e, process_files_in_session files = Raise e ->
        e = TypeError \/ e = OverflowError)
  /\ (forall fm,
        (exists e, process_files_in_session [fm] = Ok [e]) <->
        delta_ok (microseconds (duration fm))
        /\ datetime_ok (creation_time fm + microseconds (duration fm)))
  /\ (fits files ->
      (length files <= 1)%nat \/ Forall (fun fm => is_Some (chapter fm)) files ->
      exists results, process_files_in_session files = Ok results).
Proof.
  destruct (py_sorted_raises (chapter <$> files) files) as (Hr & He & Hs).
  assert (None ∈ chapter <$> files <->
          exists fm, fm ∈ files /\ chapter fm = None) as Hnone.
  { rewrite list_elem_of_fmap. split; intros (fm & ? & ?); eauto. }
  assert (forall a b : Z, a + b - a = b) as Hcancel by (intros; lia).
  rewrite <- Hnone, <- Hr. split; [split|split; [|split]].
  - intros [[_ H]|[[=] _]]%process_files_in_session_Raise. done.
  - intros H. unfold process_files_in_session. by rewrite H.
  - intros e [[-> _]|[-> _]]%process_files_in_session_Raise; auto.
  - intros fm. split.
    + intros (e & (sf & [= <-] & Heq & Hok)%process_files_in_session_inv).
      injection Heq as ->.
      apply Forall_cons in Hok as [[Hd Ht] _].
      cbn [Start_Time Stop_Time] in Hd, Ht. by rewrite Hcancel in Hd.
    + intros [Hd Ht]. eexists. apply process_files_in_session_inv.
      exists [fm]. split; [done|]. split; [reflexivity|].
      cbn [timeline]. apply Forall_cons. split; [|constructor].
      split; cbn [Start_Time Stop_Time]; [by rewrite Hcancel|exact Ht].
  - intros Hfit [Hlen|Hall].
    + eexists. apply process_files_in_session_fits; [done|]. by apply Hs.
    + apply sorted_files_Ok in Hall as (sf & Hsf & _).
      eexists. by apply process_files_in_session_fits.
Qed.

(** Two sorted arrangements of the same items with distinct keys are the
    same list. *)
Lemma sorted_unique {A : Type} (l l' : list (Z * A)) :
  l ≡ₚ l' -> StronglySorted key_le l -> StronglySorted key_le l' ->
  NoDup l.*1 -> l = l'.
Proof.
  revert l'. induction l as [|a l IH]; intros l' Hp Hs Hs' Hnd.
  - by apply Permutation_nil in Hp.
  - destruct l' as [|b l'].
    { symmetry in Hp. by apply Permutation_nil in Hp. }
    apply StronglySorted_inv in Hs as [Hs Ha].
    apply StronglySorted_inv in Hs' as [Hs' Hb].
    rewrite fmap_cons in Hnd. apply NoDup_cons in Hnd as [Hna Hnd].
    assert (a = b) as <-.
    { assert (a ∈ b :: l') as Hin by (rewrite <- Hp; constructor).
      apply elem_of_cons in Hin as [?|Hin]; [done|].
      assert (b ∈ a :: l) as Hin' by (rewrite Hp; constructor).
      apply elem_of_cons in Hin' as [?|Hin']; [done|].
      rewrite Forall_forall in Ha, Hb.
      specialize (Ha b Hin'). specialize (Hb a Hin). unfold key_le in *.
      exfalso. apply Hna. apply list_elem_of_fmap. exists b.
      split; [lia|done]. }
    f_equal. apply IH; [by eapply Permutation_cons_inv|done..].
Qed.

Lemma zip_chapter_keys (files : list file_meta) (ks : list Z) :
  chapter <$> files = Some <$> ks ->
  zip ks files = (fun fm => (chapter_key fm, fm)) <$> files.
Proof.
  revert ks. induction files as [|fm files IH]; intros [|k ks]; try done.
  rewrite !fmap_cons. intros [= Hk Hks]. simpl.
  unfold chapter_key at 1. rewrite Hk. simpl. by rewrite IH.
Qed.

(** With every chapter present, what [sorted] returns: the records
    decorated with their chapters, in order of these. *)
Lemma sorted_files_decorated (files : list file_meta) :
  Forall (fun fm => is_Some (chapter fm)) files ->
  exists dec,
    py_sorted (chapter <$> files) files = Ok (dec.*2)
    /\ dec ≡ₚ (fun fm => (chapter_key fm, fm)) <$> files
    /\ StronglySorted key_le dec.
Proof.
  intros (ks & Heq & Hlen & _)%chapters_present.
  destruct (py_sorted_Ok ks files Hlen) as (dec & Hs & Hperm & Hsorted).
  exists dec. rewrite Heq. split; [done|]. split; [|done].
  by rewrite Hperm, (zip_chapter_keys _ _ Heq).
Qed.

(** X3. The order of the input does not matter.  When every record has a
    chapter and no two records share one, the session in any other order
    gives the same entries. *)
Theorem process_files_in_session_order_independent
    (files files' : list file_meta) :
  files ≡ₚ files' ->
  Forall (fun fm => is_Some (chapter fm)) files ->
  NoDup (chapter <$> files) ->
  process_files_in_session files' = process_files_in_session files.
Proof.
  intros Hp Hall Hnd.
  assert (Forall (fun fm => is_Some (chapter fm)) files') as Hall'
    by by rewrite <- Hp.
  destruct (sorted_files_decorated files Hall) as (dec & Hs & Hd & Hsd).
  destruct (sorted_files_decorated files' Hall') as (dec' & Hs' & Hd' & Hsd').
  unfold process_files_in_session. rewrite Hs, Hs'.
  assert (dec = dec') as ->; [|done].
  apply sorted_unique; [by rewrite Hd, Hd', Hp|done..|].
  rewrite Hd, <- list_fmap_compose.
  assert (NoDup (Some <$> ((fst ∘ (fun fm => (chapter_key fm, fm))) <$> files)))
    as Hnd'; [|by eapply NoDup_fmap_1].
  rewrite <- list_fmap_compose.
  erewrite list_fmap_ext; [exact Hnd|].
  intros i fm Hi. simpl. unfold chapter_key.
  rewrite Forall_forall in Hall.
  destruct (Hall fm) as [k Hk]; [by eapply list_elem_of_lookup_2|].
  by rewrite Hk.
Qed.

Lemma process_files_in_session_order_independent_witness :
  process_files_in_session (reverse sample_session)
  = process_files_in_session sample_session.
Proof.
  apply process_files_in_session_order_independent.
  - symmetry. apply reverse_Permutation.
  - repeat constructor; simpl; eauto.
  - apply (bool_decide_unpack _). vm_compute. reflexivity.
Defined.

Lemma insert_keyed_filter {A : Type} (k0 k : Z) (x : A) (l : list (Z * A)) :
  filter (fun p => p.1 = k0) (insert_keyed k x l)
  = filter (fun p => p.1 = k0) ((k, x) :: l).
Proof.
  induction l as [|[k' y] l IH]; simpl; [done|].
  destruct (Z.leb_spec k k') as [Hle|Hgt]; [done|].
  rewrite (filter_cons _ (k', y)), IH, !filter_cons. simpl.
  repeat case_decide; try done; lia.
Qed.

(** Sorting keeps the items of one key in their order. *)
Lemma sort_keyed_filter {A : Type} (k0 : Z) (l : list (Z * A)) :
  filter (fun p => p.1 = k0) (sort_keyed l) = filter (fun p => p.1 = k0) l.
Proof.
  induction l as [|[k x] l IH]; simpl; [done|].
  by rewrite insert_keyed_filter, !filter_cons, IH.
Qed.

Lemma decorated_filter (c : option Z) (dec : list (Z * file_meta)) :
  Forall (fun p => chapter p.2 = Some p.1) dec ->
  filter (has_chapter c) dec.*2
  = match c with
    | Some k => (filter (fun p => p.1 = k) dec).*2
    | None => []
    end.
Proof.
  induction 1 as [|[k fm] dec Hk _ IH]; [by destruct c|].
  rewrite fmap_cons, filter_cons, IH. simpl in *.
  destruct (decide (has_chapter c fm)) as [Hc|Hc];
    unfold has_chapter in Hc; rewrite Hk in Hc; destruct c as [k0|];
    try done.
  - injection Hc as <-. rewrite filter_cons. simpl. by case_decide.
  - rewrite filter_cons. simpl. case_decide; [congruence|done].
Qed.

Lemma py_sorted_stable (files sorted_files : list file_meta)
    (c : option Z) :
  py_sorted (chapter <$> files) files = Ok sorted_files ->
  filter (has_chapter c) sorted_files = filter (has_chapter c) files.
Proof.
  unfold py_sorted.
  destruct files as [|x [|y files]]; try by intros [= <-].
  destruct (mapM id _) as [ks|] eqn:Hks; [|done].
  intros [= <-].
  assert (chapter <$> x :: y :: files = Some <$> ks) as Heq.
  { apply mapM_Some, Forall2_fmap_l in Hks. clear -Hks.
    induction Hks as [|fm k l ks Hk _ IH]; [done|].
    rewrite !fmap_cons. simpl in Hk. by rewrite Hk, IH. }
  assert (Forall (fun p => chapter p.2 = Some p.1)
            (zip ks (x :: y :: files))) as Hall.
  { rewrite (zip_chapter_keys _ _ Heq). apply Forall_fmap, Forall_forall.
    intros fm Hfm. simpl. unfold chapter_key.
    assert (chapter fm ∈ Some <$> ks) as Hin
      by (rewrite <- Heq; by apply list_elem_of_fmap_2).
    apply list_elem_of_fmap in Hin as (k & -> & _). done. }
  assert (filter (has_chapter c) (x :: y :: files)
          = filter (has_chapter c) (zip ks (x :: y :: files)).*2) as ->.
  { rewrite snd_zip; [done|].
    apply (f_equal length) in Heq. rewrite !length_fmap in Heq. lia. }
  rewrite (decorated_filter c _ Hall).
  rewrite decorated_filter by by rewrite sort_keyed_perm.
  destruct c; [|done]. by rewrite sort_keyed_filter.
Qed.

Lemma entries_filter (c : option Z) (l : list file_meta)
    (r : list timeline_entry) :
  Forall2 made_from l r ->
  Forall2 made_from (filter (has_chapter c) l) (filter (shows_chapter c) r).
Proof.
  induction 1 as [|fm e l r Hm _ IH]; [constructor|].
  rewrite !filter_cons. pose proof Hm as (_ & Hc & _).
  destruct (decide (shows_chapter c e)) as [He|He],
           (decide (has_chapter c fm)) as [Hfm|Hfm];
    unfold shows_chapter, has_chapter in *; try congruence.
  by constructor.
Qed.

(** X4. Ties keep their order.  Records that share a chapter (or lack
    one) come out in the order in which they came in: for every chapter
    value, the entries showing it are made, one for one and in input
    order, from the records having it, so that each carries the file name,
    the folder, the session and the duration of its record. *)
Theorem process_files_in_session_stable (files : list file_meta)
    (results : list timeline_entry) (c : option Z) :
  process_files_in_session files = Ok results ->
  Forall2 entry_of (filter (has_chapter c) files)
    (filter (shows_chapter c) results).
Proof.
  intros (sorted_files & Hs & -> & _)%process_files_in_session_inv.
  rewrite <- (py_sorted_stable _ _ c Hs).
  eapply Forall2_impl; [|apply made_from_entry_of].
  apply entries_filter, timeline_made_from.
Qed.

Lemma process_files_in_session_stable_witness :
  let a := {| file := "GX010007.MP4";
              creation_time := mk_datetime 2024 1 1 0 0 0 0;
              duration := 7 # 2; chapter := Some 1; session := Some 7;
              folder := "card2" |} in
  let b := {| file := "GX010007.MP4";
              creation_time := mk_datetime 2024 1 1 0 0 0 0;
              duration := 10 # 1; chapter := Some 1; session := Some 7;
              folder := "card1" |} in
  exists ea eb,
    process_files_in_session [a; b] = Ok [ea; eb]
    /\ Folder ea = "card2" /\ Folder eb = "card1"
    /\ Forall2 entry_of (filter (has_chapter (Some 1)) [a; b])
         (filter (shows_chapter (Some 1)) [ea; eb]).
Proof.
  intros a b. eexists. eexists.
  split; [vm_compute; reflexivity|]. split; [reflexivity|].
  split; [reflexivity|].
  apply process_files_in_session_stable. vm_compute. reflexivity.
Defined.

(** X5. No overlap.  When no duration is negative and the reconstructor
    returns, every entry stops no earlier than it starts, and no later
    than any later entry starts. *)
Theorem timeline_monotone (files : list file_meta)
    (results : list timeline_entry) :
  Forall (fun fm => (0 <= duration fm)%Q) files ->
  process_files_in_session files = Ok results ->
  (forall i e, results !! i = Some e -> Start_Time e <= Stop_Time e)
  /\ (forall i j ei ej,
        (i < j)%nat -> results !! i = Some ei -> results !! j = Some ej ->
        Stop_Time ei <= Start_Time ej).
Proof.
  intros Hd (sorted_files & Hs & -> & _)%process_files_in_session_inv.
  assert (Forall (fun fm => 0 <= microseconds (duration fm)) sorted_files)
    as Hpos.
  { apply py_sorted_perm in Hs; [|by rewrite length_fmap].
    rewrite Hs. eapply Forall_impl; [exact Hd|].
    intros fm. apply microseconds_nonneg. }
  assert (forall i e,
            timeline sorted_files (session_start sorted_files) !! i = Some e ->
            exists fm,
              sorted_files !! i = Some fm
              /\ 0 <= microseconds (duration fm)
              /\ Start_Time e
                 = session_start sorted_files + elapsed (take i sorted_files)
              /\ Stop_Time e
                 = session_start sorted_files
                   + elapsed (take (S i) sorted_files)) as Hclosed.
  { intros i e Hi.
    destruct (timeline_closed _ _ _ _ Hi) as (fm & Hl & Hm & Hst).
    destruct Hm as (_ & _ & _ & _ & _ & Hstop).
    exists fm. split; [done|]. split.
    - rewrite Forall_forall in Hpos. apply Hpos.
      by eapply list_elem_of_lookup_2.
    - split; [done|]. rewrite Hstop, Hst, (elapsed_take_S _ _ _ Hl). lia. }
  split.
  - intros i e Hi.
    destruct (Hclosed _ _ Hi) as (fm & Hl & Hfm & Hst & Hstop).
    rewrite Hstop, Hst, (elapsed_take_S _ _ _ Hl). lia.
  - intros i j ei ej Hij Hi Hj.
    destruct (Hclosed _ _ Hi) as (_ & _ & _ & _ & ->).
    destruct (Hclosed _ _ Hj) as (_ & _ & _ & -> & _).
    assert (elapsed (take (S i) sorted_files) <= elapsed (take j sorted_files));
      [|lia].
    apply elapsed_take_mono; [done|lia].
Qed.

Lemma timeline_monotone_witness :
  exists e0 e1,
    process_files_in_session sample_session = Ok [e0; e1]
    /\ Start_Time e0 <= Stop_Time e0
    /\ Start_Time e1 <= Stop_Time e1
    /\ Stop_Time e0 <= Start_Time e1.
Proof.
  eexists. eexists. split; [vm_compute; reflexivity|].
  destruct (timeline_monotone sample_session _
              ltac:(repeat constructor; by vm_compute)
              ltac:(vm_compute; reflexivity)) as [H1 H2].
  split; [exact (H1 0%nat _ eq_refl)|].
  split; [exact (H1 1%nat _ eq_refl)|].
  exact (H2 0%nat 1%nat _ _ ltac:(lia) eq_refl eq_refl).
Defined.

(** ** The grouper *)

Lemma filter_everything {A : Type} (P : A -> Prop) `{!forall x, Decision (P x)}
    (l : list A) :
  (forall x, P x) -> filter P l = l.
Proof.
  intros HP. induction l as [|x l IH]; [done|].
  by rewrite filter_cons_True, IH.
Qed.

(** A dictionary is its keys together with what [dict_get] finds. *)
Lemma dict_determined (d : list (string * list file_meta)) :
  NoDup d.*1 ->
  d = (fun k => (k, default [] (dict_get k d))) <$> d.*1.
Proof.
  induction d as [|[k ms] d IH]; [done|].
  rewrite !fmap_cons. intros [Hk Hnd]%NoDup_cons. simpl.
  rewrite String.eqb_refl. simpl. f_equal.
  rewrite (IH Hnd) at 1. apply list_fmap_ext.
  intros i k' Hi. simpl.
  destruct (String.eqb_spec k k') as [->|_]; [|done].
  exfalso. apply Hk. by eapply list_elem_of_lookup_2.
Qed.

Lemma group_from_keys (l : list file_meta) :
  forall d,
    (group_from d l).*1
    = d.*1 ++ filter (fun k => k ∉ d.*1) (first_occurrences (session_key <$> l)).
Proof.
  induction l as [|fm l IH]; intros d.
  - by rewrite app_nil_r.
  - rewrite group_from_cons, IH, dict_append_keys, fmap_cons.
    simpl. rewrite filter_cons.
    destruct (decide (session_key fm ∈ d.*1)) as [Hin|Hnin].
    + destruct (decide (session_key fm ∉ d.*1)) as [Hn|_]; [by destruct Hn|].
      f_equal. rewrite list_filter_filter. apply list_filter_iff.
      intros k. split; [|by intros [? _]].
      intros Hk. split; [done|]. by intros ->.
    + destruct (decide (session_key fm ∉ d.*1)) as [_|Hn]; [|by destruct Hn].
      rewrite <- app_assoc. simpl. do 2 f_equal.
      rewrite list_filter_filter. apply list_filter_iff.
      intros k. rewrite elem_of_app, list_elem_of_singleton. tauto.
Qed.

(** X6. What the grouper returns.  The dictionary has one entry per
    distinct key, in the order in which the keys first occur in the input;
    the entry of a key holds the records with that key, in input order. *)
Theorem group_files_by_session_spec (files_metadata : list file_meta) :
  group_files_by_session files_metadata
  = (fun key => (key, filter (same_key key) files_metadata))
      <$> first_occurrences (session_key <$> files_metadata).
Proof.
  change (group_files_by_session files_metadata)
    with (group_from [] files_metadata).
  rewrite (dict_determined (group_from [] files_metadata))
    by apply group_from_NoDup, NoDup_nil_2.
  rewrite group_from_keys. simpl.
  rewrite filter_everything by (intros k; apply not_elem_of_nil).
  apply list_fmap_ext. intros i k _. simpl.
  rewrite group_from_get. simpl.
  by destruct (filter (same_key k) files_metadata).
Qed.


(** ** The directory scan and the metadata collection *)

Lemma walk_node_files (n : fs_node) : forall parent root files name,
  In (root, files) (walk_node parent n) -> name ∈ files ->
  exists dname sub m,
    n = Dir dname sub
    /\ in_tree (PosixPath.join parent dname) sub root m
    /\ is_dir m = false /\ node_name m = name.
Proof.
  induction n as [fname|dname entries IH|oname] using fs_node_nested_ind;
    intros parent root files name Hin Hname; [done| |done].
  simpl in Hin. destruct Hin as [[= <- <-]|Hin].
  - unfold files_of in Hname.
    apply list_elem_of_fmap in Hname as (m & -> & Hm).
    apply list_elem_of_filter in Hm as [Hf Hm].
    exists dname, entries, m. split; [done|]. split; [|done].
    by apply in_tree_here.
  - apply in_flat_map in Hin as (n & Hn & Hin).
    rewrite Forall_forall in IH.
    destruct (IH n ltac:(by apply list_elem_of_In) _ _ _ _ Hin Hname)
      as (dn & sub & m & -> & Htree & Hm).
    exists dname, entries, m. split; [done|]. split; [|done].
    eapply in_tree_below; [by apply list_elem_of_In|done].
Qed.

(** What [os.walk] reports as the files of a directory: the names of the
    entries of the tree that are not directories. *)
Lemma walk_files (top : string) (entries : list fs_node) (root name : string) :
  (exists files, In (root, files) (walk top entries) /\ name ∈ files)
  <-> exists m,
        in_tree top entries root m /\ is_dir m = false /\ node_name m = name.
Proof.
  split.
  - intros (files & [[= <- <-]|Hin] & Hname).
    + unfold files_of in Hname.
      apply list_elem_of_fmap in Hname as (m & -> & Hm).
      apply list_elem_of_filter in Hm as [Hf Hm].
      exists m. split; [by apply in_tree_here|done].
    + apply in_flat_map in Hin as (n & Hn & Hin).
      destruct (walk_node_files _ _ _ _ _ Hin Hname)
        as (dn & sub & m & -> & Ht & Hm).
      exists m. split; [|done].
      eapply in_tree_below; [by apply list_elem_of_In|done].
  - intros (m & Ht & Hd & <-).
    induction Ht as [top entries m Hin|top entries dname sub root m Hsub _ IH].
    + exists (files_of entries). split; [by left|].
      unfold files_of. apply list_elem_of_fmap. exists m.
      split; [done|]. by apply list_elem_of_filter.
    + destruct (IH Hd) as (files & Hw & Hn).
      exists files. split; [|done]. right.
      apply in_flat_map. exists (Dir dname sub).
      split; [by apply list_elem_of_In|]. exact Hw.
Qed.

(** X7. What the scan lists, for a directory that can be listed.  Without
    recursion: the regular files of the directory itself whose names end
    in [.MP4], and nothing from below it.  With recursion: the entries at
    any depth that are not directories (regular files, but also links that
    lead nowhere, FIFOs and the like) and whose names end in [.MP4] and
    are decoded.  Each is listed as its directory joined with its name. *)
Theorem list_mp4_files_in_dir_members (directory : string)
    (entries : list fs_node) (path : string) :
  (path ∈ list_mp4_files_in_dir directory entries false <->
   exists name,
     File name ∈ entries /\ Str.endswith name ".MP4" = true
     /\ path = PosixPath.join directory name)
  /\ (path ∈ list_mp4_files_in_dir directory entries true <->
      exists root n c s,
        in_tree directory entries root n
        /\ is_dir n = false
        /\ Str.endswith (node_name n) ".MP4" = true
        /\ parse_filename (node_name n) = (Some c, Some s)
        /\ path = PosixPath.join root (node_name n)).
Proof.
  unfold list_mp4_files_in_dir. rewrite !list_elem_of_In. split.
  - rewrite in_flat_map. split.
    + intros (n & Hn & Hin).
      destruct n as [name|name sub|name]; simpl in Hin; [|done..].
      destruct (Str.endswith name ".MP4") eqn:Hext; [|done].
      destruct Hin as [<-|[]]. exists name.
      split; [by apply list_elem_of_In|done].
    + intros (name & Hn & Hext & ->). exists (File name).
      split; [by apply list_elem_of_In|]. simpl. rewrite Hext. by left.
  - rewrite in_flat_map. split.
    + intros ([root files] & Hw & (name & Hname & Hin)%in_flat_map).
      destruct (Str.endswith name ".MP4") eqn:Hext; [|done].
      destruct (parse_filename name) as [[c|] [s|]] eqn:Hp; try done.
      destruct Hin as [<-|[]].
      destruct (proj1 (walk_files directory entries root name))
        as (n & Ht & Hd & <-).
      { exists files. split; [done|]. by apply list_elem_of_In. }
      by exists root, n, c, s.
    + intros (root & n & c & s & Ht & Hd & Hext & Hp & ->).
      destruct (proj2 (walk_files directory entries root (node_name n)))
        as (files & Hw & Hn); [by exists n|].
      exists (root, files). split; [done|].
      apply in_flat_map. exists (node_name n).
      split; [by apply list_elem_of_In|].
      rewrite Hext, Hp. by left.
Qed.

Lemma flat_map_flat_map {A B C : Type} (f : B -> list C) (g : A -> list B)
    (l : list A) :
  flat_map f (flat_map g l) = flat_map (fun x => flat_map f (g x)) l.
Proof.
  induction l as [|x l IH]; [done|].
  simpl. by rewrite flat_map_app, IH.
Qed.

Lemma decodable_name (directory name : string) :
  PosixPath.has_sep name = false ->
  decodable_path (PosixPath.join directory name) <->
  exists c s, parse_filename name = (Some c, Some s).
Proof.
  intros Hn. unfold decodable_path. rewrite (basename_join _ _ Hn).
  unfold parse_filename. destruct (re_search name) as [[g1 g2]|]; simpl.
  - split; [by eauto|by eexists].
  - split; [by intros [? [=]]|by intros (? & ? & [=])].
Qed.

Lemma entry_name_ok (entries : list fs_node) (n : fs_node) :
  forallb names_ok entries = true -> n ∈ entries ->
  PosixPath.has_sep (node_name n) = false.
Proof.
  intros Hok Hn. rewrite forallb_forall in Hok.
  apply list_elem_of_In, Hok in Hn.
  destruct n; simpl in *; [|apply andb_prop in Hn as [Hn _]|];
    by apply negb_true_iff.
Qed.

(** An entry of the directory itself that is not a directory, ends in
    [.MP4] and is decoded is listed by the recursive scan. *)
Lemma list_recursive_here (directory : string) (entries : list fs_node)
    (n : fs_node) (c s : Z) :
  n ∈ entries -> is_dir n = false ->
  Str.endswith (node_name n) ".MP4" = true ->
  parse_filename (node_name n) = (Some c, Some s) ->
  PosixPath.join directory (node_name n)
  ∈ list_mp4_files_in_dir directory entries true.
Proof.
  intros Hn Hd Hext Hp. unfold list_mp4_files_in_dir, walk.
  cbn [flat_map]. apply elem_of_app. left.
  apply list_elem_of_In, in_flat_map. exists (node_name n). split.
  - apply list_elem_of_In. unfold files_of. apply list_elem_of_fmap.
    exists n. split; [done|]. by apply list_elem_of_filter.
  - rewrite Hext, Hp. by left.
Qed.

(** X8. How the two scans differ, for a directory that can be listed and
    names as a listing gives them.  Whatever the non-recursive scan lists
    under a name the decoder accepts, the recursive scan lists too.  When
    the directory itself holds regular files and directories only, the
    recursive scan is the non-recursive one without the paths whose name
    the decoder rejects, followed by the recursive scans of the
    sub-directories in listing order.  An entry that is neither (a link
    that leads nowhere, a FIFO) is listed by the recursive scan when its
    name ends in [.MP4] and is decoded. *)
Theorem list_mp4_files_in_dir_modes (directory : string)
    (entries : list fs_node) :
  forallb names_ok entries = true ->
  (forall path,
     path ∈ list_mp4_files_in_dir directory entries false ->
     decodable_path path ->
     path ∈ list_mp4_files_in_dir directory entries true)
  /\ (Forall (fun n => is_file n = true \/ is_dir n = true) entries ->
      list_mp4_files_in_dir directory entries true
      = filter decodable_path (list_mp4_files_in_dir directory entries false)
        ++ scan_below directory entries)
  /\ (forall name c s,
        Other name ∈ entries -> Str.endswith name ".MP4" = true ->
        parse_filename name = (Some c, Some s) ->
        PosixPath.join directory name
        ∈ list_mp4_files_in_dir directory entries true).
Proof.
  intros Hok. split; [|split].
  - intros path Hin Hdec.
    unfold list_mp4_files_in_dir in Hin.
    apply list_elem_of_In, in_flat_map in Hin as (n & Hn & Hin).
    apply list_elem_of_In in Hn.
    destruct (is_file n && Str.endswith (node_name n) ".MP4") eqn:Hf;
      [|done].
    apply andb_prop in Hf as [Hf Hext]. destruct Hin as [<-|[]].
    pose proof (entry_name_ok _ _ Hok Hn) as Hsep.
    apply (decodable_name _ _ Hsep) in Hdec as (c & s & Hp).
    apply (list_recursive_here _ _ n c s); try done. by destruct n.
  - intros Hkinds. unfold list_mp4_files_in_dir at 1, walk.
    cbn [flat_map]. f_equal.
    + unfold list_mp4_files_in_dir, files_of.
      induction Hkinds as [|n entries Hn _ IH]; [done|].
      simpl in Hok. apply andb_prop in Hok as [Hnok Hok].
      rewrite filter_cons. cbn [flat_map].
      destruct n as [name|name sub|name]; simpl.
      * rewrite filter_app. f_equal; [|exact (IH Hok)].
        destruct (Str.endswith name ".MP4"); [|done].
        rewrite filter_cons, filter_nil.
        simpl in Hnok. apply negb_true_iff in Hnok.
        destruct (decide _) as [Hd|Hd];
          rewrite (decodable_name _ _ Hnok) in Hd.
        -- destruct Hd as (c & s & ->). done.
        -- destruct (parse_filename name) as [[c|] [s|]] eqn:Hp; try done.
           destruct Hd. eauto.
      * exact (IH Hok).
      * by destruct Hn.
    + rewrite flat_map_flat_map. unfold scan_below.
      apply flat_map_ext. by intros [name|name sub|name].
  - intros name c s Hin Hext Hp.
    by apply (list_recursive_here _ _ (Other name) c s).
Qed.

Lemma list_mp4_files_in_dir_modes_witness :
  let entries :=
    [File "HOLIDAY.MP4"; File "GX010007.MP4"; Other "GX030007.MP4";
     Dir "day2" [File "GX020007.MP4"; File "notes.txt"]] in
  list_mp4_files_in_dir "videos" entries false
  = ["videos/HOLIDAY.MP4"; "videos/GX010007.MP4"]
  /\ list_mp4_files_in_dir "videos" entries true
     = ["videos/GX010007.MP4"; "videos/GX030007.MP4";
        "videos/day2/GX020007.MP4"]
  /\ "videos/GX030007.MP4" ∈ list_mp4_files_in_dir "videos" entries true.
Proof.
  intros entries. split; [reflexivity|]. split; [reflexivity|].
  destruct (list_mp4_files_in_dir_modes "videos" entries eq_refl)
    as (_ & _ & H).
  exact (H "GX030007.MP4" 3 7 ltac:(set_solver) eq_refl eq_refl).
Defined.

Section MetadataFacts.
Variable get_creation_time_and_duration : string -> result (datetime * Q).
Variable relpath : string -> string -> string.

Local Abbreviation loop :=
  (metadata_loop get_creation_time_and_duration relpath).
Local Abbreviation probe := get_creation_time_and_duration.

Lemma metadata_loop_Ok (directory : string) (paths : list string)
    (files_metadata : list file_meta) :
  (loop directory paths).2 = Ok files_metadata ->
  (loop directory paths).1 = paths
  /\ Forall2 (fun path fm =>
       exists t d, probe path = Ok (t, d)
                   /\ fm = record_of relpath directory path t d)
       paths files_metadata.
Proof.
  revert files_metadata. induction paths as [|p paths IH]; simpl; intros fms.
  - intros [= <-]. by split.
  - destruct (probe p) as [[t d]|e] eqn:Hp; [|done].
    unfold record_of in *.
    destruct (parse_filename (PosixPath.basename p)) as [c s] eqn:Hc.
    destruct (loop directory paths) as [probed r]. simpl in *.
    destruct r as [fms'|e]; [|done]. simpl. intros [= <-].
    destruct (IH _ eq_refl) as [-> Hall]. split; [done|].
    constructor; [|done]. exists t, d. split; [done|]. by rewrite Hc.
Qed.

Lemma metadata_loop_all_Ok (directory : string) (paths : list string) :
  Forall (fun path => exists r, probe path = Ok r) paths ->
  exists files_metadata, (loop directory paths).2 = Ok files_metadata.
Proof.
  induction 1 as [|p paths [[t d] Hp] _ [fms IH]]; simpl; [by eexists|].
  rewrite Hp. destruct (parse_filename (PosixPath.basename p)) as [c s].
  destruct (loop directory paths) as [probed r]. simpl in *. subst r.
  by eexists.
Qed.

Lemma metadata_loop_Raise (directory : string)
    (before after : list string) (p : string) (e : exn) :
  Forall (fun path => exists r, probe path = Ok r) before ->
  probe p = Raise e ->
  loop directory (before ++ p :: after) = (before ++ [p], Raise e).
Proof.
  intros Hb Hp. induction Hb as [|q before [[t d] Hq] _ IH]; simpl.
  - by rewrite Hp.
  - rewrite Hq. destruct (parse_filename (PosixPath.basename q)) as [c s].
    by rewrite IH.
Qed.

End MetadataFacts.


(** X9. What the metadata collection returns.  When it returns, the probe
    was called on every listed path, in listing order, and there is one
    record per listed path, in the same order, holding the base name, the
    probe's time and duration, the decoder's answer for the base name, and
    the folder relative to the scanned directory.  It returns whenever the
    probe answers for every listed path. *)
Theorem get_file_metadata_success
    (get_creation_time_and_duration : string -> result (datetime * Q))
    (relpath : string -> string -> string)
    (directory : string) (entries : list fs_node) (recursive : bool) :
  let listed := list_mp4_files_in_dir directory entries recursive in
  let scan :=
    get_file_metadata get_creation_time_and_duration relpath
      directory entries recursive in
  (forall files_metadata, scan.2 = Ok files_metadata ->
     scan.1 = listed
     /\ Forall2 (fun path fm =>
          exists t d,
            get_creation_time_and_duration path = Ok (t, d)
            /\ fm = record_of relpath directory path t d)
          listed files_metadata)
  /\ (Forall (fun path => exists r, get_creation_time_and_duration path = Ok r)
        listed ->
      exists files_metadata, scan.2 = Ok files_metadata).
Proof.
  intros listed scan. split.
  - intros fms. apply metadata_loop_Ok.
  - apply metadata_loop_all_Ok.
Qed.

(** X10. A probe failure ends the run.  When the probe raises on a listed
    path after answering for the paths before it, the metadata collection
    raises that exception, no later path is probed, and [process_videos]
    raises the same exception: there is no partial result. *)
Theorem probe_failure_is_fatal
    (get_creation_time_and_duration : string -> result (datetime * Q))
    (relpath : string -> string -> string)
    (directory : string) (entries : list fs_node) (recursive : bool)
    (before after : list string) (path : string) (e : exn) :
  list_mp4_files_in_dir directory entries recursive = before ++ path :: after ->
  Forall (fun p => exists r, get_creation_time_and_duration p = Ok r) before ->
  get_creation_time_and_duration path = Raise e ->
  get_file_metadata get_creation_time_and_duration relpath
    directory entries recursive = (before ++ [path], Raise e)
  /\ process_videos get_creation_time_and_duration relpath
       directory entries recursive = Raise e.
Proof.
  intros Hl Hb Hp.
  assert (get_file_metadata get_creation_time_and_duration relpath
            directory entries recursive = (before ++ [path], Raise e)) as Hscan.
  { unfold get_file_metadata. rewrite Hl. by apply metadata_loop_Raise. }
  split; [done|]. unfold process_videos. by rewrite Hscan.
Qed.

Lemma probe_failure_is_fatal_witness :
  let probe := fun p : string =>
    if String.eqb p "videos/GX020007.MP4" then Raise ProbeError
    else Ok (mk_datetime 2024 1 1 0 0 0 0, 10 # 1) in
  let entries :=
    [File "GX010007.MP4"; File "GX020007.MP4"; File "GX030007.MP4"] in
  get_file_metadata probe (fun a _ => a) "videos" entries false
  = (["videos/GX010007.MP4"; "videos/GX020007.MP4"], Raise ProbeError)
  /\ process_videos probe (fun a _ => a) "videos" entries false
     = Raise ProbeError.
Proof.
  intros probe entries.
  apply (probe_failure_is_fatal probe (fun a _ => a) "videos" entries false
           ["videos/GX010007.MP4"] ["videos/GX030007.MP4"]
           "videos/GX020007.MP4" ProbeError).
  - reflexivity.
  - repeat constructor. by eexists.
  - reflexivity.
Defined.

(** X11. Nothing to do.  When the scan lists no file, the probe is never
    called and [process_videos] returns the empty result without error. *)
Theorem process_videos_nothing_listed
    (get_creation_time_and_duration : string -> result (datetime * Q))
    (relpath : string -> string -> string)
    (directory : string) (entries : list fs_node) (recursive : bool) :
  list_mp4_files_in_dir directory entries recursive = [] ->
  get_file_metadata get_creation_time_and_duration relpath
    directory entries recursive = ([], Ok [])
  /\ process_videos get_creation_time_and_duration relpath
       directory entries recursive = Ok [].
Proof.
  intros Hl. unfold process_videos, get_file_metadata. by rewrite Hl.
Qed.

Lemma process_videos_nothing_listed_witness :
  let entries := [File "notes.txt"; File "clip.mp4"; Dir "GX010007.MP4" []] in
  get_file_metadata (fun _ => Raise ProbeError) (fun a _ => a)
    "videos" entries false = ([], Ok [])
  /\ process_videos (fun _ => Raise ProbeError) (fun a _ => a)
       "videos" entries false = Ok [].
Proof.
  intros entries. by apply process_videos_nothing_listed.
Defined.

Lemma process_sessions_filenames (sessions : list (list file_meta))
    (results : list timeline_entry) :
  process_sessions sessions = Ok results ->
  Filename <$> results ≡ₚ file <$> concat sessions.
Proof.
  revert results. induction sessions as [|files sessions IH]; simpl.
  - by intros results [= <-].
  - intros results.
    destruct (process_files_in_session files) as [rs|] eqn:Hrs; [|done].
    destruct (process_sessions sessions) as [rest|]; [|done].
    intros [= <-]. rewrite !fmap_app, (IH _ eq_refl).
    apply Permutation_app; [|done].
    apply process_files_in_session_entries in Hrs as (sf & Hperm & Hall).
    rewrite <- Hperm. clear -Hall.
    induction Hall as [|fm e l r (Hf & _) _ IH]; [done|].
    by rewrite !fmap_cons, Hf, IH.
Qed.

(** X12. Nothing is lost and nothing is made up.  When [process_videos]
    returns, its entries correspond one to one to the listed files: the
    file names of the entries are the base names of the listed paths, up
    to order. *)
Theorem process_videos_conservation
    (get_creation_time_and_duration : string -> result (datetime * Q))
    (relpath : string -> string -> string)
    (directory : string) (entries : list fs_node) (recursive : bool)
    (results : list timeline_entry) :
  process_videos get_creation_time_and_duration relpath
    directory entries recursive = Ok results ->
  Filename <$> results
  ≡ₚ PosixPath.basename
       <$> list_mp4_files_in_dir directory entries recursive.
Proof.
  unfold process_videos.
  destruct (get_file_metadata _ _ _ _ _).2 as [fms|] eqn:Hscan; [|done].
  simpl. intros Hres.
  rewrite (process_sessions_filenames _ _ Hres).
  rewrite (group_from_concat [] fms). simpl.
  apply metadata_loop_Ok in Hscan as [_ Hall].
  clear -Hall. induction Hall as [|p fm l r (t & d & _ & ->) _ IH]; [done|].
  by rewrite !fmap_cons, IH.
Qed.

Lemma process_videos_conservation_witness :
  let probe := fun _ : string =>
    Ok (mk_datetime 2024 1 1 0 0 0 0, 10 # 1) in
  let entries := [File "GX020007.MP4"; File "GX010007.MP4"] in
  exists results,
    process_videos probe (fun a _ => a) "videos" entries false = Ok results
    /\ Filename <$> results
       ≡ₚ PosixPath.basename
            <$> list_mp4_files_in_dir "videos" entries false.
Proof.
  intros probe entries. eexists. split; [vm_compute; reflexivity|].
  apply (process_videos_conservation probe (fun a _ => a) "videos" entries
           false).
  reflexivity.
Defined.


Lemma decoded_range (s : string) (c n : Z) :
  parse_filename s = (Some c, Some n) -> 0 <= c < 100 /\ 0 <= n < 10000.
Proof.
  intros (g1 & g2 & Hs & -> & ->)%parse_filename_Some.
  apply re_search_Some in Hs as (pre & post & (Hg1 & Hg2 & _) & _).
  apply int_digit_group_range in Hg1, Hg2. simpl in *. lia.
Qed.

Lemma process_sessions_Ok (sessions : list (list file_meta)) :
  Forall (fun files =>
            fits files /\ Forall (fun fm => is_Some (chapter fm)) files)
    sessions ->
  exists results, process_sessions sessions = Ok results.
Proof.
  induction 1 as [|files sessions [Hfit Hf] _ [rest IH]]; simpl;
    [by eexists|].
  apply sorted_files_Ok in Hf as (sf & Hs & _).
  rewrite (process_files_in_session_fits _ _ Hfit Hs). simpl. rewrite IH.
  by eexists.
Qed.

(** The exception of the loop over the sessions is that of one of the
    sessions. *)
Lemma process_sessions_Raise (sessions : list (list file_meta)) (e : exn) :
  process_sessions sessions = Raise e ->
  exists files, files ∈ sessions /\ process_files_in_session files = Raise e.
Proof.
  induction sessions as [|s sessions IH]; simpl; [done|].
  intros [H|(rs & _ & H)]%result_bind_Raise.
  - exists s. split; [constructor|done].
  - apply result_bind_Raise in H as [H|(rest & _ & H)]; [|done].
    destruct (IH H) as (files & Hin & Hr).
    exists files. split; [by constructor|done].
Qed.

(** When a session raises, the loop over the sessions raises: the same
    exception, or that of a session before it. *)
Lemma process_sessions_raises (sessions : list (list file_meta))
    (files : list file_meta) (e0 : exn) :
  files ∈ sessions ->
  process_files_in_session files = Raise e0 ->
  exists e, process_sessions sessions = Raise e.
Proof.
  intros Hin Hraise.
  induction sessions as [|s sessions IH]; [by apply elem_of_nil in Hin|].
  simpl. apply elem_of_cons in Hin as [<-|Hin].
  { rewrite Hraise. by eexists. }
  destruct (process_files_in_session s) as [rs|e] eqn:Hs; simpl;
    [|by eexists].
  destruct (IH Hin) as [e ->]. by eexists.
Qed.

Lemma total_duration_filter (P : file_meta -> Prop)
    `{!forall fm, Decision (P fm)} (l : list file_meta) :
  Forall (fun fm => (0 <= duration fm)%Q) l ->
  (total_duration (filter P l) <= total_duration l)%Q.
Proof.
  induction 1 as [|fm l Hfm _ IH]; [by vm_compute|].
  rewrite filter_cons. destruct (decide (P fm)); simpl; lra.
Qed.

(** A part of a session that fits fits. *)
Lemma fits_filter (P : file_meta -> Prop) `{!forall fm, Decision (P fm)}
    (l : list file_meta) :
  fits l -> fits (filter P l).
Proof.
  intros Hfit. unfold fits.
  assert (Forall (fun fm => (0 <= duration fm)%Q) l) as Hpos
    by (eapply Forall_impl; [exact Hfit|by intros fm (? & _)]).
  pose proof (total_duration_filter P l Hpos) as Htot.
  assert (inject_Z (Z.of_nat (length (filter P l)))
          <= inject_Z (Z.of_nat (length l)))%Q as Hlen.
  { pose proof (length_filter P l). unfold Qle, inject_Z. simpl. lia. }
  apply Forall_forall. intros fm [_ Hin]%list_elem_of_filter.
  unfold fits in Hfit. rewrite Forall_forall in Hfit.
  destruct (Hfit fm Hin) as (Hd & Ht & Hlt).
  split; [done|]. split; [done|].
  change (inject_Z us_per_second) with (1000000 # 1)%Q in *.
  set (a := total_duration (filter P l)) in *.
  set (b := total_duration l) in *.
  set (n := inject_Z (Z.of_nat (length (filter P l)))) in *.
  set (m := inject_Z (Z.of_nat (length l))) in *.
  clearbody a b n m. lra.
Qed.

Lemma group_members_subset (files_metadata : list file_meta) (key : string)
    (members : list file_meta) (fm : file_meta) :
  (key, members) ∈ group_files_by_session files_metadata ->
  fm ∈ members -> fm ∈ files_metadata.
Proof.
  intros Hin Hfm. rewrite <- (group_from_concat [] files_metadata). simpl.
  apply list_elem_of_In, in_concat. exists members.
  split; apply list_elem_of_In; [|done].
  apply list_elem_of_fmap. by exists (key, members).
Qed.

Lemma group_members_filter (files_metadata : list file_meta) (key : string)
    (members : list file_meta) :
  (key, members) ∈ group_files_by_session files_metadata ->
  members = filter (same_key key) files_metadata.
Proof.
  intros Hin.
  change (group_files_by_session files_metadata)
    with (group_from [] files_metadata) in Hin.
  apply dict_get_elem_of in Hin; [|apply group_from_NoDup; constructor].
  rewrite group_from_get in Hin. simpl in Hin.
  destruct (filter (same_key key) files_metadata); [done|].
  by injection Hin as <-.
Qed.

(** X13. The recursive scan is safe for the reconstructor.  For names as
    a listing gives them, once the metadata of the listed files is
    collected, [process_videos] in recursive mode raises nothing but
    [OverflowError], and it returns when the records fit into the range
    of [datetime]; every entry it returns shows a chapter between 0 and 99
    and a session between 0 and 9999. *)
Theorem process_videos_recursive_returns
    (get_creation_time_and_duration : string -> result (datetime * Q))
    (relpath : string -> string -> string)
    (directory : string) (entries : list fs_node)
    (files_metadata : list file_meta) :
  forallb names_ok entries = true ->
  (get_file_metadata get_creation_time_and_duration relpath
     directory entries true).2 = Ok files_metadata ->
  (forall e,
     process_videos get_creation_time_and_duration relpath
       directory entries true = Raise e -> e = OverflowError)
  /\ (fits files_metadata ->
      exists results,
        process_videos get_creation_time_and_duration relpath
          directory entries true = Ok results)
  /\ (forall results,
        process_videos get_creation_time_and_duration relpath
          directory entries true = Ok results ->
        Forall (fun e =>
          exists c s,
            Chapter e = Some c /\ Session e = Some s
            /\ 0 <= c < 100 /\ 0 <= s < 10000) results).
Proof.
  intros Hok Hscan.
  assert (forall fm, fm ∈ files_metadata ->
            exists c s, chapter fm = Some c /\ session fm = Some s
                        /\ 0 <= c < 100 /\ 0 <= s < 10000) as Hdec.
  { intros fm Hfm.
    destruct (metadata_loop_records _ _ _ _ _ _ Hscan Hfm)
      as (path & Hpath & _ & Hparse).
    destruct (list_mp4_files_recursive _ _ _ Hok Hpath) as (c & s & Hcs).
    rewrite Hcs in Hparse. injection Hparse as -> ->.
    exists c, s. split; [done|]. split; [done|]. by eapply decoded_range. }
  assert (forall members,
            members ∈ (group_files_by_session files_metadata).*2 ->
            Forall (fun fm => is_Some (chapter fm)) members) as Hall.
  { intros members Hm.
    apply list_elem_of_fmap in Hm as ([key ms] & -> & Hin). simpl.
    apply Forall_forall. intros fm Hfm.
    destruct (Hdec fm) as (c & _ & -> & _); [|by eexists].
    by eapply group_members_subset. }
  unfold process_videos. rewrite Hscan. simpl. split; [|split].
  - intros e (files & Hin & Hr)%process_sessions_Raise.
    apply process_files_in_session_Raise in Hr as [[_ Hr]|[-> _]]; [|done].
    apply Hall, sorted_files_Ok in Hin as (sf & Hsf & _). congruence.
  - intros Hfit. apply process_sessions_Ok.
    apply Forall_forall. intros members Hm. split; [|by apply Hall].
    apply list_elem_of_fmap in Hm as ([key ms] & -> & Hin). simpl.
    rewrite (group_members_filter _ _ _ Hin). by apply fits_filter.
  - intros results Hres. apply Forall_forall. intros e He.
    destruct (process_sessions_entries _ _ _ Hres He) as (fm & Hfm & Hent).
    destruct Hent as (_ & -> & -> & _). apply Hdec.
    by rewrite <- (group_from_concat [] files_metadata).
Qed.

Lemma process_videos_recursive_returns_witness :
  let probe := fun _ : string =>
    Ok (mk_datetime 2024 1 1 0 0 0 0, 10 # 1) in
  let entries :=
    [File "HOLIDAY.MP4"; File "GX010007.MP4";
     Dir "day2" [File "GX020007.MP4"; File "notes.txt"]] in
  exists results,
    process_videos probe (fun a _ => a) "videos" entries true = Ok results
    /\ Forall (fun e =>
         exists c s,
           Chapter e = Some c /\ Session e = Some s
           /\ 0 <= c < 100 /\ 0 <= s < 10000) results.
Proof.
  intros probe entries.
  destruct (process_videos_recursive_returns probe (fun a _ => a) "videos"
              entries _ eq_refl eq_refl) as (_ & Hret & Hrange).
  destruct Hret as [results Hr]; [repeat constructor; by vm_compute|].
  exists results. split; [exact Hr|]. exact (Hrange results Hr).
Defined.

Lemma filter_two {A : Type} (P : A -> Prop) `{!forall x, Decision (P x)}
    (l : list A) (i j : nat) (a b : A) :
  l !! i = Some a -> l !! j = Some b -> i <> j -> P a -> P b ->
  (2 <= length (filter P l))%nat.
Proof.
  revert i j. induction l as [|x l IH]; intros i j Hi Hj Hij Ha Hb; [done|].
  rewrite filter_cons.
  destruct i as [|i], j as [|j]; simpl in *; try done.
  - injection Hi as ->. rewrite decide_True by done. simpl.
    assert (b ∈ filter P l) as Hin
      by (apply list_elem_of_filter; split;
          [done|by eapply list_elem_of_lookup_2]).
    destruct (filter P l); [by apply elem_of_nil in Hin|]. simpl. lia.
  - injection Hj as ->. rewrite decide_True by done. simpl.
    assert (a ∈ filter P l) as Hin
      by (apply list_elem_of_filter; split;
          [done|by eapply list_elem_of_lookup_2]).
    destruct (filter P l); [by apply elem_of_nil in Hin|]. simpl. lia.
  - specialize (IH i j Hi Hj ltac:(lia) Ha Hb).
    destruct (decide (P x)); simpl; lia.
Qed.

(** X14. The non-recursive scan can fail in the reconstructor.  When two
    of the records were created within the same second and one of them has
    no chapter (its name was rejected by the decoder), [process_videos]
    does not return: it raises [TypeError], unless a session before that
    of the two has raised [OverflowError]; when the records fit into the
    range of [datetime], it raises [TypeError]. *)
Theorem process_videos_type_error
    (get_creation_time_and_duration : string -> result (datetime * Q))
    (relpath : string -> string -> string)
    (directory : string) (entries : list fs_node) (recursive : bool)
    (files_metadata : list file_meta) (i j : nat) (a b : file_meta) :
  (get_file_metadata get_creation_time_and_duration relpath
     directory entries recursive).2 = Ok files_metadata ->
  files_metadata !! i = Some a -> files_metadata !! j = Some b -> i <> j ->
  chapter a = None ->
  whole_seconds (creation_time a) = whole_seconds (creation_time b) ->
  (exists e,
     process_videos get_creation_time_and_duration relpath
       directory entries recursive = Raise e
     /\ (e = TypeError \/ e = OverflowError))
  /\ (fits files_metadata ->
      process_videos get_creation_time_and_duration relpath
        directory entries recursive = Raise TypeError).
Proof.
  intros Hscan Hi Hj Hij Hnone Hsec.
  unfold process_videos. rewrite Hscan. simpl.
  set (key := session_key a).
  set (members := filter (same_key key) files_metadata).
  assert (same_key key b) as Hb
    by (unfold same_key, key, session_key; symmetry;
        by apply strftime_same_second).
  assert (2 <= length members)%nat as Hlen
    by by apply (filter_two _ _ i j a b).
  assert (a ∈ members) as Ha.
  { apply list_elem_of_filter. split; [done|].
    by eapply list_elem_of_lookup_2. }
  assert (members ∈ (group_files_by_session files_metadata).*2) as Hin.
  { apply list_elem_of_fmap. exists (key, members). split; [done|].
    apply dict_get_Some.
    change (group_files_by_session files_metadata)
      with (group_from [] files_metadata).
    rewrite group_from_get. simpl. fold members.
    destruct members; [by apply elem_of_nil in Ha|done]. }
  assert (process_files_in_session members = Raise TypeError) as Hraise.
  { unfold process_files_in_session.
    destruct (py_sorted_raises (chapter <$> members) members) as (Hr & _).
    rewrite (proj2 Hr); [done|]. split; [done|].
    rewrite <- Hnone. by apply list_elem_of_fmap_2. }
  destruct (process_sessions_raises _ _ _ Hin Hraise) as [e He].
  pose proof He as (files & Hfiles & Hr)%process_sessions_Raise.
  split.
  - exists e. split; [done|].
    apply process_files_in_session_Raise in Hr as [[-> _]|[-> _]]; auto.
  - intros Hfit. rewrite He. f_equal.
    pose proof Hr as [[-> _]|[_ [sf Hsf]]]%process_files_in_session_Raise;
      [done|].
    apply list_elem_of_fmap in Hfiles as ([k ms] & -> & Hms). simpl in *.
    rewrite (group_members_filter _ _ _ Hms) in Hr, Hsf.
    rewrite (process_files_in_session_fits _ _ (fits_filter _ _ Hfit) Hsf)
      in Hr.
    done.
Qed.

Lemma process_videos_type_error_witness :
  let probe := fun _ : string =>
    Ok (mk_datetime 2024 1 1 0 0 0 0, 10 # 1) in
  process_videos probe (fun a _ => a) "videos"
    [File "HOLIDAY.MP4"; File "GX010007.MP4"] false = Raise TypeError.
Proof.
  intros probe.
  refine (proj2 (process_videos_type_error probe (fun a _ => a) "videos"
                   [File "HOLIDAY.MP4"; File "GX010007.MP4"] false _ 0 1
                   _ _ _ _ _ _ _ _) _).
  - vm_compute. reflexivity.
  - reflexivity.
  - reflexivity.
  - lia.
  - reflexivity.
  - reflexivity.
  - repeat constructor; by vm_compute.
Defined.

(** ** The name decoder *)

Lemma digit_char_is_digit (d : Z) :
  0 <= d < 10 ->
  Str.is_digit (digit_char d) = true /\ Str.digit_value (digit_char d) = d.
Proof.
  intros Hd. unfold Str.is_digit, Str.digit_value, digit_char.
  rewrite nat_ascii_embedding by lia. split; [|lia].
  apply andb_true_intro. split; apply Nat.leb_le; lia.
Qed.

Lemma pad2_digits (c : Z) :
  0 <= c < 100 -> digit_group 2 (pad2 c) /\ Str.int (pad2 c) = c.
Proof.
  intros Hc.
  destruct (digit_char_is_digit (c / 10)) as [H1 V1]; [zdiv|].
  destruct (digit_char_is_digit (c mod 10)) as [H2 V2]; [zdiv|].
  unfold digit_group, pad2, Str.int.
  revert H1 V1 H2 V2.
  generalize (digit_char (c / 10)) (digit_char (c mod 10)).
  intros a b H1 V1 H2 V2.
  cbn [String.length Str.all_digits Str.int_acc].
  rewrite H1, H2, V1, V2. split; [done|]. zdiv.
Qed.

Lemma pad4_digits (n : Z) :
  0 <= n < 10000 -> digit_group 4 (pad4 n) /\ Str.int (pad4 n) = n.
Proof.
  intros Hn.
  destruct (digit_char_is_digit (n / 1000)) as [H1 V1]; [zdiv|].
  destruct (digit_char_is_digit (n / 100 mod 10)) as [H2 V2]; [zdiv|].
  destruct (digit_char_is_digit (n mod 100 / 10)) as [H3 V3]; [zdiv|].
  destruct (digit_char_is_digit (n mod 100 mod 10)) as [H4 V4]; [zdiv|].
  unfold digit_group, pad4, pad2, Str.int.
  revert H1 V1 H2 V2 H3 V3 H4 V4.
  generalize (digit_char (n / 1000)) (digit_char (n / 100 mod 10))
    (digit_char (n mod 100 / 10)) (digit_char (n mod 100 mod 10)).
  intros a b c d H1 V1 H2 V2 H3 V3 H4 V4.
  cbn [String.length Str.all_digits Str.int_acc].
  rewrite H1, H2, H3, H4, V1, V2, V3, V4. split; [done|]. zdiv.
Qed.

(** X15. The decoder's range.  Whatever the string, a decoded chapter is
    between 0 and 99 and a decoded session between 0 and 9999. *)
Theorem parse_filename_range (s : string) (c n : Z) :
  parse_filename s = (Some c, Some n) -> 0 <= c < 100 /\ 0 <= n < 10000.
Proof. apply decoded_range. Qed.

Lemma parse_filename_range_witness :
  0 <= 12 < 100 /\ 0 <= 7 < 10000.
Proof. apply (parse_filename_range "old_GX120007.MP4"). reflexivity. Defined.

(** X16. The decoder inverts the naming convention.  For a chapter between
    0 and 99 and a session between 0 and 9999, the name made of [GX], the
    chapter in two digits, the session in four digits and [.MP4] is decoded
    to that chapter and that session. *)
Theorem parse_filename_round_trip (c n : Z) :
  0 <= c < 100 -> 0 <= n < 10000 ->
  parse_filename ("GX" +:+ pad2 c +:+ pad4 n +:+ ".MP4") = (Some c, Some n).
Proof.
  intros Hc Hn.
  destruct (pad2_digits c Hc) as [Hg1 V1].
  destruct (pad4_digits n Hn) as [Hg2 V2].
  apply parse_filename_Some. exists (pad2 c), (pad4 n).
  split; [|by rewrite V1, V2].
  apply (re_search_leftmost _ EmptyString _ _ EmptyString).
  - split; [done|]. split; [done|].
    by rewrite str_app_nil_l, !str_app_nil_r.
  - intros; simpl; lia.
Qed.

Lemma parse_filename_round_trip_witness :
  parse_filename ("GX" +:+ pad2 3 +:+ pad4 42 +:+ ".MP4") = (Some 3, Some 42).
Proof. apply parse_filename_round_trip; lia. Defined.

(** ** The command line *)

Section CommandLineFacts.

Variable get_creation_time_and_duration : string -> result (datetime * Q).
Variable relpath : string -> string -> string.
Variable json_value : Type.
Variable to_csv : list timeline_entry -> string.
Variable to_json_records : list timeline_entry -> json_value.
Variable json_dumps : json_value -> string.
Variable to_string : list timeline_entry -> string.

Local Abbreviation run_main :=
  (main get_creation_time_and_duration relpath json_value to_csv
     to_json_records json_dumps to_string).
Local Abbreviation rows a entries :=
  (process_videos get_creation_time_and_duration relpath
     (folder_arg a) entries (recursive_arg a)).

(** X17. With an output file.  When the entries can be computed and a
    non-empty output path is given, [main] prints nothing and changes no
    file but the output file, which ends up holding the JSON text when
    JSON was asked for (the CSV text [process_videos] wrote there first is
    replaced) and the CSV text otherwise. *)
Theorem main_writes_output (a : args) (entries : list fs_node) (w : world)
    (path : string) (final_results : list timeline_entry) :
  output_arg a = Some path -> path <> EmptyString ->
  rows a entries = Ok final_results ->
  run_main a entries w
  = (Ok tt,
     {| written :=
          <[path:=if json_arg a
                  then json_dumps (to_json_records final_results)
                  else to_csv final_results]> (written w);
        stdout := stdout w |}).
Proof.
  intros Hout Hpath Hrows. unfold main, process_videos_io.
  rewrite Hrows, Hout.
  assert (truthy (Some path) = Some path) as -> by by destruct path.
  unfold write_file. simpl. rewrite insert_insert_eq.
  by destruct (json_arg a).
Qed.

(** X18. Without an output file.  When the entries can be computed and no
    output path is given, or the empty one, [main] writes no file and
    prints once: the JSON text when JSON was asked for, the table
    otherwise. *)
Theorem main_prints (a : args) (entries : list fs_node) (w : world)
    (final_results : list timeline_entry) :
  output_arg a = None \/ output_arg a = Some EmptyString ->
  rows a entries = Ok final_results ->
  run_main a entries w
  = (Ok tt,
     {| written := written w;
        stdout :=
          stdout w
          ++ [if json_arg a
              then json_dumps (to_json_records final_results)
              else to_string final_results] |}).
Proof.
  intros Hout Hrows. unfold main, process_videos_io. rewrite Hrows.
  assert (truthy (output_arg a) = None) as ->
    by (destruct Hout as [-> | ->]; done).
  unfold print. simpl. by destruct (json_arg a).
Qed.

(** X19. A failed run leaves no trace.  When the entries cannot be
    computed, [main] raises the exception of [process_videos]; it writes
    no file, the output file included, and prints nothing. *)
Theorem main_failure_leaves_no_trace (a : args) (entries : list fs_node)
    (w : world) (e : exn) :
  rows a entries = Raise e ->
  run_main a entries w = (Raise e, w).
Proof.
  intros Hrows. unfold main, process_videos_io. by rewrite Hrows.
Qed.

End CommandLineFacts.

Lemma main_writes_output_witness :
  exists final_results,
    process_videos sample_probe (fun a _ => a) "videos"
      [File "GX010007.MP4"] false = Ok final_results
    /\ main sample_probe (fun a _ => a) string (fun _ => "csv")
         (fun _ => "records") (fun v => v) (fun _ => "table")
         (sample_args true (Some "out.json")) [File "GX010007.MP4"]
         empty_world
       = (Ok tt, {| written := <["out.json":="records"]> ∅; stdout := [] |}).
Proof.
  eexists. split; [vm_compute; reflexivity|].
  eapply (main_writes_output sample_probe (fun a _ => a) string
            (fun _ => "csv") (fun _ => "records") (fun v => v)
            (fun _ => "table") (sample_args true (Some "out.json"))
            [File "GX010007.MP4"] empty_world "out.json").
  - reflexivity.
  - done.
  - vm_compute. reflexivity.
Defined.

Lemma main_prints_witness :
  exists final_results,
    process_videos sample_probe (fun a _ => a) "videos"
      [File "GX010007.MP4"] false = Ok final_results
    /\ main sample_probe (fun a _ => a) string (fun _ => "csv")
         (fun _ => "records") (fun v => v) (fun _ => "table")
         (sample_args false (Some EmptyString)) [File "GX010007.MP4"]
         empty_world
       = (Ok tt, {| written := ∅; stdout := ["table"] |}).
Proof.
  eexists. split; [vm_compute; reflexivity|].
  eapply (main_prints sample_probe (fun a _ => a) string
            (fun _ => "csv") (fun _ => "records") (fun v => v)
            (fun _ => "table") (sample_args false (Some EmptyString))
            [File "GX010007.MP4"] empty_world).
  - by right.
  - vm_compute. reflexivity.
Defined.

Lemma main_failure_leaves_no_trace_witness :
  main (fun _ => Raise ProbeError) (fun a _ => a) string (fun _ => "csv")
    (fun _ => "records") (fun v => v) (fun _ => "table")
    (sample_args true (Some "out.json")) [File "GX010007.MP4"] empty_world
  = (Raise ProbeError, empty_world).
Proof.
  by apply main_failure_leaves_no_trace.
Defined.
